(** * sql-query-identifier: the statement splitter and classifier of [src/parser.js]

    A shallow embedding of [parse], [initState], [createStatementParserByToken],
    the eight [create...StatementParser] constructors and the closure built by
    [stateMachineStatementParser] ([getStatement], [addToken]), followed by
    the properties of the specification that concern them.

    Conventions of the embedding.
    - JavaScript strings are [string]s over ASCII; [toUpperCase] acts on the
      letters a-z only.
    - Offsets are JavaScript numbers holding integers; they are modelled in [Z].
    - An absent object property ([undefined]) is [None].
    - [throw] is the [Err] branch of [result]; a property read on [undefined]
      is the error [TypeError].
    - The closure state of a statement parser ([statement], [steps],
      [currentStepIndex], [prevToken], [isStrict], [dialect]) is the record
      [Parser.t]; [addToken] returns the updated record.
    - The two [console.log] calls of [addToken] write to the console only and
      are left out.
    - [addToken] contains an unresolved merge; its three alternative texts are
      kept apart by the parameter [Resolution].
    - [scanToken] lives in [./tokenizer], which is not among the sources; [parse]
      takes it as a parameter, and module [Scanner] models it after section
      4.1 of the specification for the evaluations on concrete inputs. *)

From Stdlib Require Import ZArith String Ascii List Bool Lia.
From Stdlib Require Import Sorting.Sorted.
Import ListNotations.
Open Scope string_scope.
Open Scope Z_scope.

(** ** Strings and arrays *)

Definition upper_ascii (c : ascii) : ascii :=
  let n := nat_of_ascii c in
  if (Nat.leb 97 n && Nat.leb n 122)%bool then ascii_of_nat (n - 32) else c.

(** [String.prototype.toUpperCase] *)
Fixpoint toUpperCase (s : string) : string :=
  match s with
  | EmptyString => EmptyString
  | String c r => String (upper_ascii c) (toUpperCase r)
  end.

(** [Array.prototype.includes] on an array of strings *)
Definition includes (l : list string) (x : string) : bool :=
  existsb (String.eqb x) l.

(** [includes] when the searched value may be [undefined] *)
Definition includes_opt (l : list string) (x : option string) : bool :=
  match x with
  | Some s => includes l s
  | None => false
  end.

(** Truthiness of a value that is a string or [undefined] *)
Definition truthy (x : option string) : bool :=
  match x with
  | Some s => negb (String.eqb s EmptyString)
  | None => false
  end.

(** [x === s] for [x] a string or [undefined] *)
Definition eq_opt (x : option string) (s : string) : bool :=
  match x with
  | Some y => String.eqb y s
  | None => false
  end.

(** ** Tokens (interface [Token]) *)

Module Token.
Inductive Kind :=
| whitespace | comment_inline | comment_block | string_ | semicolon
| keyword | unknown.

Definition kind_eqb (a b : Kind) : bool :=
  match a, b with
  | whitespace, whitespace | comment_inline, comment_inline
  | comment_block, comment_block | string_, string_
  | semicolon, semicolon | keyword, keyword | unknown, unknown => true
  | _, _ => false
  end.

Record t := mk { type : Kind; value : string; start : Z; end_ : Z }.
End Token.
Abbreviation Token := Token.t.

(** ** Numbers held by [openBlocks] and [definer] *)

(** A property that is absent, [NaN], or an integer. *)
Inductive JsNum := JUndefined | JNaN | JNum (z : Z).

(** [x++] and [x--] on such a property: [undefined] becomes [NaN]. *)
Definition js_incr (x : JsNum) : JsNum :=
  match x with JNum z => JNum (z + 1) | _ => JNaN end.
Definition js_decr (x : JsNum) : JsNum :=
  match x with JNum z => JNum (z - 1) | _ => JNaN end.
(** [x === 0] *)
Definition js_is_zero (x : JsNum) : bool :=
  match x with JNum z => Z.eqb z 0 | _ => false end.

(** [definer?: number | false] *)
Inductive Definer := DefUndefined | DefFalse | DefNum (n : Z).

(** [definer === n] *)
Definition definer_is (d : Definer) (n : Z) : bool :=
  match d with DefNum m => Z.eqb m n | _ => false end.
(** [definer > n]; [undefined > n] and [false > n] are false for [n >= 0] *)
Definition definer_gt (d : Definer) (n : Z) : bool :=
  match d with DefNum m => Z.ltb n m | _ => false end.
(** [definer++] on a number *)
Definition definer_incr (d : Definer) : Definer :=
  match d with DefNum m => DefNum (m + 1) | _ => d end.

(** ** Execution types *)

(** A value read from [EXECUTION_TYPES]: one of its own strings, or a member
    inherited from [Object.prototype] (a function or object, truthy). *)
Inductive ExecVal := ExecStr (s : string) | ExecInherited (name : string).

Definition EXECUTION_TYPES : list (string * string) :=
  [ ("SELECT", "LISTING");
    ("INSERT", "MODIFICATION");
    ("DELETE", "MODIFICATION");
    ("UPDATE", "MODIFICATION");
    ("CREATE_DATABASE", "MODIFICATION");
    ("CREATE_TABLE", "MODIFICATION");
    ("CREATE_TRIGGER", "MODIFICATION");
    ("CREATE_FUNCTION", "MODIFICATION");
    ("DROP_DATABASE", "MODIFICATION");
    ("DROP_TABLE", "MODIFICATION");
    ("TRUNCATE", "MODIFICATION");
    ("UNKNOWN", "UNKNOWN") ].

(** Property names every object literal inherits from [Object.prototype]. *)
Definition objectPrototypeKeys : list string :=
  [ "constructor"; "__defineGetter__"; "__defineSetter__"; "hasOwnProperty";
    "__lookupGetter__"; "__lookupSetter__"; "isPrototypeOf";
    "propertyIsEnumerable"; "toString"; "valueOf"; "__proto__";
    "toLocaleString" ].

Fixpoint assoc (l : list (string * string)) (k : string) : option string :=
  match l with
  | [] => None
  | (k', v) :: r => if String.eqb k k' then Some v else assoc r k
  end.

(** The property key of [obj[x]]: [undefined] is converted to "undefined". *)
Definition property_key (x : option string) : string :=
  match x with Some s => s | None => "undefined" end.

(** [EXECUTION_TYPES[type] || 'UNKNOWN'] *)
Definition executionTypeOf (type : option string) : ExecVal :=
  let k := property_key type in
  match assoc EXECUTION_TYPES k with
  | Some v => ExecStr v
  | None => if includes objectPrototypeKeys k then ExecInherited k
            else ExecStr "UNKNOWN"
  end.

Definition dialectsWithOpenBlocks : list string := ["psql"].
Definition blockOpeners : list string := ["BEGIN"; "IF"; "LOOP"].
Definition dialectsWithEnds : list string := ["sqlite"; "mssql"; "psql"].
Definition statementsWithEnds : list string := ["CREATE_TRIGGER"; "CREATE_FUNCTION"].

(** [DIALECTS] of the type declarations *)
Definition DIALECTS : list string := ["mssql"; "sqlite"; "mysql"; "psql"; "generic"].

(** ** Statements (interface [Statement], with [openBlocks]) *)

Module Statement.
Record t := mk {
  start : option Z;
  end_ : option Z;
  type : option string;
  executionType : option ExecVal;
  endStatement : option string;
  canEnd : bool;            (* absent reads as false in [!statement.canEnd] *)
  definer : Definer;
  openBlocks : JsNum
}.

(** [const statement = {}] *)
Definition empty : t :=
  mk None None None None None false DefUndefined JUndefined.

Definition set_start (v : Z) (s : t) : t :=
  mk (Some v) (end_ s) (type s) (executionType s) (endStatement s)
     (canEnd s) (definer s) (openBlocks s).
Definition set_end (v : Z) (s : t) : t :=
  mk (start s) (Some v) (type s) (executionType s) (endStatement s)
     (canEnd s) (definer s) (openBlocks s).
Definition set_type (v : string) (s : t) : t :=
  mk (start s) (end_ s) (Some v) (executionType s) (endStatement s)
     (canEnd s) (definer s) (openBlocks s).
Definition set_executionType (v : ExecVal) (s : t) : t :=
  mk (start s) (end_ s) (type s) (Some v) (endStatement s)
     (canEnd s) (definer s) (openBlocks s).
Definition set_endStatement (v : string) (s : t) : t :=
  mk (start s) (end_ s) (type s) (executionType s) (Some v)
     (canEnd s) (definer s) (openBlocks s).
Definition set_canEnd (v : bool) (s : t) : t :=
  mk (start s) (end_ s) (type s) (executionType s) (endStatement s)
     v (definer s) (openBlocks s).
Definition set_definer (v : Definer) (s : t) : t :=
  mk (start s) (end_ s) (type s) (executionType s) (endStatement s)
     (canEnd s) v (openBlocks s).
Definition set_openBlocks (v : JsNum) (s : t) : t :=
  mk (start s) (end_ s) (type s) (executionType s) (endStatement s)
     (canEnd s) (definer s) v.
End Statement.
Abbreviation Statement := Statement.t.

(** ** Errors and results *)

Inductive Error :=
| AlreadyEnded
    (* Error('This statement has already got to the end.') *)
| InvalidStatementParser (value : string)
    (* Error(`Invalid statement parser "${token.value}"`) *)
| ExpectedBefore (requireds : list Token.Kind) (value : string) (step : nat)
    (* Error(`Expected any of these tokens ... before "..." (currentStep=...).`) *)
| ExpectedTokens (expecteds : list (Token.Kind * string))
                 (type : Token.Kind) (value : string) (step : nat)
    (* Error(`Expected any of these tokens ... instead of type=... value=...`) *)
| TypeError.
    (* a property read on undefined *)

Inductive result (A : Type) :=
| Ok (a : A)
| Err (e : Error).
Arguments Ok {A} a.
Arguments Err {A} e.

Definition bind {A B} (m : result A) (f : A -> result B) : result B :=
  match m with
  | Ok a => f a
  | Err e => Err e
  end.

(** ** Steps (interface [Step]) *)

Module Step.
Record Accept := mkAccept { accept_type : Token.Kind; accept_value : string }.

Record Validation := mkValidation {
  v_requireBefore : option (list Token.Kind);
  acceptTokens : list Accept
}.

(** [requireBefore] is the property [hasRequiredBefore] reads from the step
    itself; the steps of the source only define one inside [validation]. *)
Record t := mk {
  preCanGoToNext : Token -> bool;
  requireBefore : option (list Token.Kind);
  validation : option Validation;
  add : Token -> Statement -> Statement;
  postCanGoToNext : Token -> bool
}.
End Step.
Abbreviation Step := Step.t.

Definition kw (v : string) : Step.Accept := Step.mkAccept Token.keyword v.

(** A step as every constructor writes it: [preCanGoToNext: () => false],
    [postCanGoToNext: () => true], no [requireBefore] of its own. *)
Definition step_of (v : option Step.Validation)
    (add : Token -> Statement -> Statement) : Step :=
  Step.mk (fun _ => false) None v add (fun _ => true).

Definition set_type_and_start (ty : string) (token : Token) (s : Statement) :=
  Statement.set_start (Token.start token) (Statement.set_type ty s).

Definition selectSteps : list Step :=
  [ step_of (Some (Step.mkValidation None [kw "SELECT"]))
            (set_type_and_start "SELECT") ].

Definition insertSteps : list Step :=
  [ step_of (Some (Step.mkValidation None [kw "INSERT"]))
            (set_type_and_start "INSERT") ].

Definition updateSteps : list Step :=
  [ step_of (Some (Step.mkValidation None [kw "UPDATE"]))
            (set_type_and_start "UPDATE") ].

Definition deleteSteps : list Step :=
  [ step_of (Some (Step.mkValidation None [kw "DELETE"]))
            (set_type_and_start "DELETE") ].

Definition createSteps : list Step :=
  [ step_of (Some (Step.mkValidation None [kw "CREATE"]))
            (fun token s => Statement.set_start (Token.start token) s);
    step_of (Some (Step.mkValidation (Some [Token.whitespace])
               [kw "TABLE"; kw "DATABASE"; kw "TRIGGER"; kw "FUNCTION"]))
            (fun token s =>
               Statement.set_type ("CREATE_" ++ toUpperCase (Token.value token)) s) ].

Definition dropSteps : list Step :=
  [ step_of (Some (Step.mkValidation None [kw "DROP"]))
            (fun token s => Statement.set_start (Token.start token) s);
    step_of (Some (Step.mkValidation (Some [Token.whitespace])
               [kw "TABLE"; kw "DATABASE"]))
            (fun token s =>
               Statement.set_type ("DROP_" ++ toUpperCase (Token.value token)) s) ].

Definition truncateSteps : list Step :=
  [ step_of (Some (Step.mkValidation None [kw "TRUNCATE"]))
            (set_type_and_start "TRUNCATE") ].

Definition unknownSteps : list Step :=
  [ step_of None (set_type_and_start "UNKNOWN") ].

(** ** Statement parsers: the closure of [stateMachineStatementParser] *)

Module Parser.
Record t := mk {
  statement : Statement;
  steps : list Step;
  currentStepIndex : nat;
  prevToken : option Token;
  isStrict : bool;
  dialect : string
}.

Definition set_statement (s : Statement) (p : t) : t :=
  mk s (steps p) (currentStepIndex p) (prevToken p) (isStrict p) (dialect p).
Definition set_prevToken (tk : Token) (p : t) : t :=
  mk (statement p) (steps p) (currentStepIndex p) (Some tk) (isStrict p) (dialect p).
Definition set_currentStepIndex (i : nat) (p : t) : t :=
  mk (statement p) (steps p) i (prevToken p) (isStrict p) (dialect p).
(** apply a mutation to the statement *)
Definition upd (f : Statement -> Statement) (p : t) : t :=
  set_statement (f (statement p)) p.
End Parser.
Abbreviation Parser := Parser.t.

(** [getStatement ()] *)
Definition getStatement (p : Parser) : Statement := Parser.statement p.

(** [stateMachineStatementParser (statement, steps, { isStrict, dialect = 'generic' })];
    [dialect] is [None] when the caller's options object carries none. *)
Definition stateMachineStatementParser (statement : Statement) (steps : list Step)
    (isStrict : bool) (dialect : option string) : Parser :=
  let dialect := match dialect with Some d => d | None => "generic" end in
  let statement :=
    if includes dialectsWithOpenBlocks dialect
    then Statement.set_openBlocks (JNum 0) statement
    else statement in
  Parser.mk statement steps 0%nat None isStrict dialect.

(** The options object [{ isStrict, dialect }] built by [parse]. *)
Record Options := mkOptions { opt_isStrict : bool; opt_dialect : string }.

(** Every constructor but the CREATE one destructures [{ isStrict }] only and
    hands [{ isStrict }] on, so its machine runs with the default dialect. *)
Definition createSelectStatementParser (o : Options) : Parser :=
  stateMachineStatementParser Statement.empty selectSteps (opt_isStrict o) None.
Definition createInsertStatementParser (o : Options) : Parser :=
  stateMachineStatementParser Statement.empty insertSteps (opt_isStrict o) None.
Definition createUpdateStatementParser (o : Options) : Parser :=
  stateMachineStatementParser Statement.empty updateSteps (opt_isStrict o) None.
Definition createDeleteStatementParser (o : Options) : Parser :=
  stateMachineStatementParser Statement.empty deleteSteps (opt_isStrict o) None.
Definition createCreateStatementParser (o : Options) : Parser :=
  stateMachineStatementParser Statement.empty createSteps (opt_isStrict o)
    (Some (opt_dialect o)).
Definition createDropStatementParser (o : Options) : Parser :=
  stateMachineStatementParser Statement.empty dropSteps (opt_isStrict o) None.
Definition createTruncateStatementParser (o : Options) : Parser :=
  stateMachineStatementParser Statement.empty truncateSteps (opt_isStrict o) None.

(** [createUnknownStatementParser ({ isStrict })] is called with the boolean
    [options.isStrict]; destructuring a boolean gives [isStrict = undefined],
    which is falsy wherever [addToken] tests it. The argument is kept to show
    that it is not used. *)
Definition createUnknownStatementParser (arg : bool) : Parser :=
  stateMachineStatementParser Statement.empty unknownSteps false None.

(** [createStatementParserByToken (token, options)] *)
Definition createStatementParserByToken (token : Token) (options : Options)
    : result Parser :=
  let v := toUpperCase (Token.value token) in
  let fallthrough :=
    if (negb (opt_isStrict options) && Token.kind_eqb (Token.type token) Token.unknown)%bool
    then Ok (createUnknownStatementParser (opt_isStrict options))
    else Err (InvalidStatementParser (Token.value token)) in
  if Token.kind_eqb (Token.type token) Token.keyword then
    if String.eqb v "SELECT" then Ok (createSelectStatementParser options)
    else if String.eqb v "CREATE" then Ok (createCreateStatementParser options)
    else if String.eqb v "DROP" then Ok (createDropStatementParser options)
    else if String.eqb v "INSERT" then Ok (createInsertStatementParser options)
    else if String.eqb v "UPDATE" then Ok (createUpdateStatementParser options)
    else if String.eqb v "DELETE" then Ok (createDeleteStatementParser options)
    else if String.eqb v "TRUNCATE" then Ok (createTruncateStatementParser options)
    else fallthrough
  else fallthrough.

(** ** [addToken] *)

(** The source text of [addToken] holds an unresolved merge between lines 401
    and 432: conflict markers separate three alternative texts for the
    handling of [END], each completed by the common lines 433-434 ([return; }]).
    - [StashedDepth]: lines 418-431, the side marked [Stashed changes]. [END]
      decrements [openBlocks] and sets [canEnd] when the dialect has no open
      blocks or the count is back at zero; whitespace tokens are recorded as
      [prevToken] and consumed.
    - [UpstreamLanguage]: lines 402-411 and 416, the side marked
      [Updated upstream]. [END] sets [canEnd]; for psql CREATE_FUNCTION the
      word LANGUAGE sets it too.
    - [UpstreamEnd]: lines 414 and 416, the inner text. [END] written in
      capitals sets [canEnd]. *)
Inductive Resolution := StashedDepth | UpstreamLanguage | UpstreamEnd.

(** What a block of [addToken] does with control: [return], or fall through
    to the code below it. *)
Inductive flow :=
| Return (p : Parser)
| Continue (p : Parser).

(** Lines 384-395: the semicolon. [true] when it ends the statement, [false]
    when the token is no semicolon or the semicolon is passed over. *)
Definition semicolonEnds (p : Parser) (token : Token) : bool :=
  let statement := Parser.statement p in
  let dialect := Parser.dialect p in
  if Token.kind_eqb (Token.type token) Token.semicolon then
    if (includes dialectsWithEnds dialect
        && (includes_opt statementsWithEnds (Statement.type statement)
            && negb (Statement.canEnd statement)))%bool then false
    else if (String.eqb dialect "psql"
             && eq_opt (Statement.type statement) "CREATE_FUNCTION"
             && negb (Statement.canEnd statement))%bool then false
    else true
  else false.

(** Lines 401-434, one alternative at a time. *)
Definition endHandling (r : Resolution) (p : Parser) (token : Token) : flow :=
  let statement := Parser.statement p in
  let dialect := Parser.dialect p in
  match r with
  | StashedDepth =>
      let p1 :=
        if (includes dialectsWithEnds dialect
            && includes_opt statementsWithEnds (Statement.type statement)
            && String.eqb (toUpperCase (Token.value token)) "END")%bool
        then
          let p' := Parser.upd (fun s =>
                      Statement.set_openBlocks (js_decr (Statement.openBlocks s)) s) p in
          if (negb (includes dialectsWithOpenBlocks dialect)
              || js_is_zero (Statement.openBlocks (Parser.statement p')))%bool
          then Return (Parser.upd (Statement.set_canEnd true) p')
          else Continue p'
        else Continue p in
      match p1 with
      | Return q => Return q
      | Continue q =>
          if Token.kind_eqb (Token.type token) Token.whitespace
          then Return (Parser.set_prevToken token q)
          else Continue q
      end
  | UpstreamLanguage =>
      if (includes dialectsWithEnds dialect
          && includes_opt statementsWithEnds (Statement.type statement)
          && String.eqb (toUpperCase (Token.value token)) "END")%bool
      then Return (Parser.upd (Statement.set_canEnd true) p)
      else if (String.eqb dialect "psql"
               && eq_opt (Statement.type statement) "CREATE_FUNCTION"
               && String.eqb (toUpperCase (Token.value token)) "LANGUAGE")%bool
      then Return (Parser.upd (Statement.set_canEnd true) p)
      else Continue p
  | UpstreamEnd =>
      if (includes dialectsWithEnds dialect
          && String.eqb (Token.value token) "END"
          && includes_opt statementsWithEnds (Statement.type statement))%bool
      then Return (Parser.upd (Statement.set_canEnd true) p)
      else Continue p
  end.

(** Lines 436-446: the optional OR REPLACE of Postgres, and block openers. *)
Definition optionalAndOpeners (p : Parser) (token : Token) : flow :=
  let dialect := Parser.dialect p in
  if (String.eqb dialect "psql"
      && includes ["OR"; "REPLACE"] (toUpperCase (Token.value token)))%bool
  then Return (Parser.set_prevToken token p)
  else if (includes dialectsWithOpenBlocks dialect
           && includes blockOpeners (toUpperCase (Token.value token)))%bool
  then Return (Parser.upd (fun s =>
                 Statement.set_openBlocks (js_incr (Statement.openBlocks s)) s) p)
  else Continue p.

(** [prevToken.type === 'whitespace']; reading [type] of an undefined
    [prevToken] throws. *)
Definition prevIsWhitespace (p : Parser) : result bool :=
  match Parser.prevToken p with
  | Some t => Ok (Token.kind_eqb (Token.type t) Token.whitespace)
  | None => Err TypeError
  end.

(** Lines 448-475: the DEFINER clause of MySQL. *)
Definition definerClause (p : Parser) (token : Token) : result flow :=
  let dialect := Parser.dialect p in
  let definer := Statement.definer (Parser.statement p) in
  if (String.eqb dialect "mysql"
      && String.eqb (toUpperCase (Token.value token)) "DEFINER")%bool
  then Ok (Return (Parser.set_prevToken token
                     (Parser.upd (Statement.set_definer (DefNum 0)) p)))
  else if (definer_is definer 0 && String.eqb (Token.value token) "=")%bool
  then Ok (Return (Parser.set_prevToken token
                     (Parser.upd (Statement.set_definer (definer_incr definer)) p)))
  else if definer_gt definer 0 then
    bind (if definer_is definer 1 then prevIsWhitespace p else Ok false) (fun c1 =>
    if c1 : bool
    then Ok (Return (Parser.set_prevToken token
                       (Parser.upd (Statement.set_definer (definer_incr definer)) p)))
    else
      bind (if definer_gt definer 1
            then bind (prevIsWhitespace p) (fun w => Ok (negb w))
            else Ok false) (fun c2 =>
      if c2 : bool
      then Ok (Return (Parser.set_prevToken token p))
      else Ok (Continue (Parser.upd (Statement.set_definer DefFalse) p))))
  else Ok (Continue p).

(** [isValidToken (step, token)] *)
Definition isValidToken (step : Step) (token : Token) : bool :=
  match Step.validation step with
  | None => true
  | Some v =>
      negb (Nat.eqb (List.length (filter (fun accept =>
        let isValidType := Token.kind_eqb (Token.type token) (Step.accept_type accept) in
        let isValidValue :=
          (String.eqb (Step.accept_value accept) EmptyString
           || String.eqb (toUpperCase (Token.value token)) (Step.accept_value accept))%bool in
        (isValidType && isValidValue)%bool) (Step.acceptTokens v))) 0)
  end.

(** [hasRequiredBefore (step)]: reads [step.requireBefore] *)
Definition hasRequiredBefore (p : Parser) (step : Step) : result bool :=
  match Step.requireBefore step with
  | None => Ok true
  | Some l =>
      match Parser.prevToken p with
      | Some t => Ok (existsb (Token.kind_eqb (Token.type t)) l)
      | None => Err TypeError
      end
  end.

(** [steps[i]]; the uses of an undefined step all read a property of it. *)
Definition stepAt (p : Parser) (i : nat) : result Step :=
  match nth_error (Parser.steps p) i with
  | Some s => Ok s
  | None => Err TypeError
  end.

(** Lines 477-512: the step machine. *)
Definition stepMachine (p : Parser) (token : Token) : result Parser :=
  if truthy (Statement.type (Parser.statement p)) then Ok p
  else
    bind (stepAt p (Parser.currentStepIndex p)) (fun step0 =>
    let i := if Step.preCanGoToNext step0 token
             then S (Parser.currentStepIndex p)
             else Parser.currentStepIndex p in
    bind (stepAt p i) (fun currentStep =>
    bind (hasRequiredBefore p currentStep) (fun ok =>
    if negb ok then
      match Step.requireBefore currentStep with
      | Some l => Err (ExpectedBefore l (Token.value token) i)
      | None => Err TypeError
      end
    else if (negb (isValidToken currentStep token) && Parser.isStrict p)%bool then
      match Step.validation currentStep with
      | Some v =>
          Err (ExpectedTokens
                 (map (fun a => (Step.accept_type a, Step.accept_value a))
                      (Step.acceptTokens v))
                 (Token.type token) (Token.value token) i)
      | None => Err TypeError
      end
    else
      let statement := Step.add currentStep token (Parser.statement p) in
      let statement :=
        Statement.set_executionType (executionTypeOf (Statement.type statement))
          statement in
      let i := if Step.postCanGoToNext currentStep token then S i else i in
      Ok (Parser.mk statement (Parser.steps p) i (Some token)
            (Parser.isStrict p) (Parser.dialect p))))).

(** [addToken (token)] *)
Definition addToken (r : Resolution) (p : Parser) (token : Token) : result Parser :=
  if truthy (Statement.endStatement (Parser.statement p)) then Err AlreadyEnded
  else if semicolonEnds p token
  then Ok (Parser.upd (Statement.set_endStatement ";") p)
  else
    match endHandling r p token with
    | Return q => Ok q
    | Continue p1 =>
        match optionalAndOpeners p1 token with
        | Return q => Ok q
        | Continue p2 =>
            bind (definerClause p2 token) (fun f =>
            match f with
            | Return q => Ok q
            | Continue p3 => stepMachine p3 token
            end)
        end
    end.

(** ** The top-level splitter: [parse] *)

Module State.
(** interface [State]; the [body: []] that [initState] also stores is never read *)
Record t := mk { input : string; position : Z; start : Z; end_ : Z }.
End State.
Abbreviation State := State.t.

Definition length_Z (s : string) : Z := Z.of_nat (String.length s).

(** [initState ({ input })] *)
Definition initState_input (input : string) : State :=
  State.mk input (-1) 0 (length_Z input - 1).

(** [initState ({ prevState })] *)
Definition initState_prev (prevState : State) : State :=
  State.mk (State.input prevState) (State.position prevState)
           (State.position prevState + 1)
           (length_Z (State.input prevState) - 1).

Module ParseResult.
Record t := mk {
  type : string;
  start : Z;
  end_ : Z;
  body : list Statement;
  tokens : list Token
}.
End ParseResult.
Abbreviation ParseResult := ParseResult.t.

Definition ignoreOutsideBlankTokens : list Token.Kind :=
  [Token.whitespace; Token.comment_inline; Token.comment_block].

(** The variables of [parse] that change in the loop. *)
Record Loop := mkLoop {
  prevState : State;
  statementParser : option Parser;
  body : list Statement;
  tokens : list Token
}.

Section Parse.

(** [scanToken] of [./tokenizer], which is not part of the sources at hand: it
    reads one token at the cursor of the state it is given and moves that
    cursor. Here it returns the token and the state it leaves behind. *)
Variable scanToken : State -> Token * State.

(** Which alternative of the merge in [addToken] is taken. *)
Variable resolution : Resolution.

Variable isStrict : bool.
Variable dialect : string.

(** Lines 67-76: feed the token to the active parser and seal the statement
    when it has ended. *)
Definition feed (l : Loop) (tokenState : State) (token : Token) (sp : Parser)
    : result Loop :=
  bind (addToken resolution sp token) (fun sp' =>
  let tokens := (tokens l ++ [token])%list in
  let statement := getStatement sp' in
  if truthy (Statement.endStatement statement) then
    Ok (mkLoop tokenState None
          (body l ++ [Statement.set_end (Token.end_ token) statement])%list tokens)
  else
    Ok (mkLoop tokenState (Some sp') (body l) tokens)).

(** One turn of the [while] loop, lines 53-76. *)
Definition parseStep (l : Loop) : result Loop :=
  let (token, tokenState) := scanToken (initState_prev (prevState l)) in
  match statementParser l with
  | None =>
      if existsb (Token.kind_eqb (Token.type token)) ignoreOutsideBlankTokens
      then Ok (mkLoop tokenState None (body l) (tokens l ++ [token])%list)
      else
        bind (createStatementParserByToken token (mkOptions isStrict dialect))
             (fun sp => feed l tokenState token sp)
  | Some sp => feed l tokenState token sp
  end.

(** The [while] loop, run for at most [fuel] turns; [None] when the condition
    still holds after that many. *)
Fixpoint parseLoop (fuel : nat) (topEnd : Z) (l : Loop) : option (result Loop) :=
  if State.position (prevState l) <? topEnd then
    match fuel with
    | O => None
    | S fuel' =>
        match parseStep l with
        | Ok l' => parseLoop fuel' topEnd l'
        | Err e => Some (Err e)
        end
    end
  else Some (Ok l).

(** Lines 79-88: the last statement without ending key, and the result. *)
Definition finish (topLevelState : State) (l : Loop) : ParseResult :=
  let body :=
    match statementParser l with
    | Some sp =>
        let statement := getStatement sp in
        if negb (truthy (Statement.endStatement statement))
        then (body l ++ [Statement.set_end (State.end_ topLevelState) statement])%list
        else body l
    | None => body l
    end in
  ParseResult.mk "QUERY" 0 (length_Z (State.input topLevelState) - 1) body (tokens l).

(** [parse (input, isStrict, dialect)] with the loop bounded by [fuel]. *)
Definition parseFuel (fuel : nat) (input : string) : option (result ParseResult) :=
  let topLevelState := initState_input input in
  match parseLoop fuel (State.end_ topLevelState)
          (mkLoop topLevelState None [] []) with
  | Some (Ok l) => Some (Ok (finish topLevelState l))
  | Some (Err e) => Some (Err e)
  | None => None
  end.

(** [parse (input, isStrict, dialect)]. A scanner that consumes at least one
    character per call leaves the loop within [length input] turns (lemma
    [parse_returns] below). *)
Definition parse (input : string) : option (result ParseResult) :=
  parseFuel (String.length input) input.

End Parse.

(** ** The lexical scanner *)

Module Scanner.

Definition isWhitespace (c : ascii) : bool :=
  let n := nat_of_ascii c in
  (Nat.eqb n 32 || Nat.eqb n 9 || Nat.eqb n 10 || Nat.eqb n 13)%bool.

Definition isLetter (c : ascii) : bool :=
  let n := nat_of_ascii c in
  ((Nat.leb 65 n && Nat.leb n 90) || (Nat.leb 97 n && Nat.leb n 122))%bool.

Definition isWordChar (c : ascii) : bool :=
  let n := nat_of_ascii c in
  (isLetter c || (Nat.leb 48 n && Nat.leb n 57) || Nat.eqb n 95)%bool.

Definition doubleQuote : ascii := ascii_of_nat 34.

Definition isNewline (c : ascii) : bool := Nat.eqb (nat_of_ascii c) 10.

(** length of the longest prefix whose characters satisfy [f] *)
Fixpoint spanLen (f : ascii -> bool) (l : list ascii) : nat :=
  match l with
  | c :: r => if f c then S (spanLen f r) else O
  | [] => O
  end.

(** characters up to and including the first [*/], or all of them *)
Fixpoint untilClose (l : list ascii) : nat :=
  match l with
  | [] => O
  | c :: r =>
      match r with
      | d :: _ =>
          if (Ascii.eqb c "*" && Ascii.eqb d "/")%bool then 2%nat
          else S (untilClose r)
      | [] => 1%nat
      end
  end.

(** characters up to and including the first [q], or all of them *)
Fixpoint untilQuote (q : ascii) (l : list ascii) : nat :=
  match l with
  | [] => O
  | c :: r => if Ascii.eqb c q then 1%nat else S (untilQuote q r)
  end.

(** Modelled from the spec: the reserved words. The specification gives no
    list; these are the words it calls keywords or tokens: the leading and
    object keywords of the statement types, and the words the dialect rules
    look for. *)
Definition reservedWords : list string :=
  [ "SELECT"; "INSERT"; "UPDATE"; "DELETE"; "CREATE"; "DROP"; "TRUNCATE";
    "TABLE"; "DATABASE"; "TRIGGER"; "FUNCTION";
    "END"; "BEGIN"; "IF"; "LOOP"; "DEFINER"; "LANGUAGE"; "OR"; "REPLACE" ].

(** Modelled from the spec: the recognition order of section 4.1, as the
    kind and the length of the token that starts the non-empty text [l]. *)
Definition recognise (l : list ascii) : Token.Kind * nat :=
  match l with
  | [] => (Token.unknown, O)
  | c :: r =>
      if isWhitespace c then (Token.whitespace, S (spanLen isWhitespace r))
      else
        match r with
        | d :: r' =>
            if (Ascii.eqb c "-" && Ascii.eqb d "-")%bool
            then (Token.comment_inline,
                  (2 + spanLen (fun x => negb (isNewline x)) r')%nat)
            else if (Ascii.eqb c "/" && Ascii.eqb d "*")%bool
            then (Token.comment_block, (2 + untilClose r')%nat)
            else if (Ascii.eqb c "'" || Ascii.eqb c doubleQuote)%bool
            then (Token.string_, S (untilQuote c r))
            else if Ascii.eqb c ";" then (Token.semicolon, 1%nat)
            else if isLetter c then
              let n := S (spanLen isWordChar r) in
              if includes reservedWords
                   (toUpperCase (string_of_list_ascii (firstn n l)))
              then (Token.keyword, n) else (Token.unknown, 1%nat)
            else (Token.unknown, 1%nat)
        | [] =>
            if (Ascii.eqb c "'" || Ascii.eqb c doubleQuote)%bool then (Token.string_, 1%nat)
            else if Ascii.eqb c ";" then (Token.semicolon, 1%nat)
            else (Token.unknown, 1%nat)
        end
  end.

(** Modelled from the spec: the lexical scanner [scanToken] of [./tokenizer],
    after section 4.1. One token is produced at the cursor; the first match
    wins among a whitespace run, a line comment, a block comment, a quoted
    string, a semicolon and a keyword (the longest word at the cursor, compared
    in upper case with the reserved words); anything else is an unknown token
    of one character. An unterminated string or block comment runs to the end
    of the input. Offsets are inclusive, as [parse] has them
    ([end: input.length - 1]); the cursor is left on the last character of
    the token. *)
Definition scanToken (state : State) : Token * State :=
  let chars := list_ascii_of_string (State.input state) in
  let rest := skipn (Z.to_nat (State.start state)) chars in
  let (kind, n) := recognise rest in
  let last := State.start state + Z.of_nat n - 1 in
  (Token.mk kind (string_of_list_ascii (firstn n rest)) (State.start state) last,
   State.mk (State.input state) last (State.start state) (State.end_ state)).

End Scanner.

(** ** Vocabulary of the statements proved below *)

(** A statement parser whose statement has not ended. *)
Definition active (p : Parser) : Prop :=
  truthy (Statement.endStatement (Parser.statement p)) = false.

(** [p] and [q] differ at most in the statement's [canEnd], [openBlocks] and
    [definer] and in [prevToken]: the fields the dialect rules write. *)
Definition same_classification (p q : Parser) : Prop :=
  Statement.type (Parser.statement q) = Statement.type (Parser.statement p) /\
  Statement.executionType (Parser.statement q)
    = Statement.executionType (Parser.statement p) /\
  Statement.start (Parser.statement q) = Statement.start (Parser.statement p) /\
  Statement.end_ (Parser.statement q) = Statement.end_ (Parser.statement p) /\
  Statement.endStatement (Parser.statement q)
    = Statement.endStatement (Parser.statement p) /\
  Parser.steps q = Parser.steps p /\
  Parser.currentStepIndex q = Parser.currentStepIndex p /\
  Parser.isStrict q = Parser.isStrict p /\
  Parser.dialect q = Parser.dialect p.

(** The statement of [p] is one whose body may hold semicolons, in a dialect
    that closes the body with END. *)
Definition hasEnds (p : Parser) : Prop :=
  In (Parser.dialect p) ["sqlite"; "mssql"; "psql"] /\
  (Statement.type (Parser.statement p) = Some "CREATE_TRIGGER" \/
   Statement.type (Parser.statement p) = Some "CREATE_FUNCTION").

(** A sqlite CREATE TRIGGER statement that has met its keyword TRIGGER. *)
Definition sqliteTrigger : Parser :=
  Parser.mk
    (Statement.mk (Some 0) None (Some "CREATE_TRIGGER") (Some (ExecStr "MODIFICATION"))
       None false DefUndefined JUndefined)
    createSteps 2%nat (Some (Token.mk Token.keyword "TRIGGER" 7 13)) true "sqlite".

(** A psql statement of type CREATE_FUNCTION with [n] open blocks. *)
Definition psqlFunction (p : Parser) (n : Z) : Prop :=
  Parser.dialect p = "psql" /\
  Statement.type (Parser.statement p) = Some "CREATE_FUNCTION" /\
  Statement.openBlocks (Parser.statement p) = JNum n.

(** A psql CREATE FUNCTION statement inside two nested blocks. *)
Definition psqlNested : Parser :=
  Parser.mk
    (Statement.mk (Some 0) None (Some "CREATE_FUNCTION") (Some (ExecStr "MODIFICATION"))
       None false DefUndefined (JNum 2))
    createSteps 2%nat (Some (Token.mk Token.whitespace " " 30 30)) true "psql".


(** The input of the trigger example: a body with one embedded semicolon. *)
Definition triggerInput : string := "CREATE TRIGGER t BEGIN UPDATE a SET b=1; END;".

(** A generic CREATE TRIGGER statement that has met its keyword TRIGGER. *)
Definition genericTrigger : Parser :=
  Parser.mk
    (Statement.mk (Some 0) None (Some "CREATE_TRIGGER") (Some (ExecStr "MODIFICATION"))
       None false DefUndefined JUndefined)
    createSteps 2%nat (Some (Token.mk Token.keyword "TRIGGER" 7 13)) true "generic".

(** The keywords a statement may start with. *)
Definition leadingKeywords : list string :=
  ["SELECT"; "INSERT"; "UPDATE"; "DELETE"; "CREATE"; "DROP"; "TRUNCATE"].

(** [token] is one of the leading keywords, compared in upper case. *)
Definition isLeading (token : Token) : bool :=
  (Token.kind_eqb (Token.type token) Token.keyword
   && includes leadingKeywords (toUpperCase (Token.value token)))%bool.

(** The constructor that goes with each leading keyword. *)
Definition matchingParsers : list (string * (Options -> Parser)) :=
  [ ("SELECT", createSelectStatementParser);
    ("INSERT", createInsertStatementParser);
    ("UPDATE", createUpdateStatementParser);
    ("DELETE", createDeleteStatementParser);
    ("CREATE", createCreateStatementParser);
    ("DROP", createDropStatementParser);
    ("TRUNCATE", createTruncateStatementParser) ].

(** [p] as it would be had the machine been created for dialect [d]. *)
Definition withDialect (d : string) (p : Parser) : Parser :=
  Parser.mk (Parser.statement p) (Parser.steps p) (Parser.currentStepIndex p)
    (Parser.prevToken p) (Parser.isStrict p) d.

(** No rule of [addToken] or [stateMachineStatementParser] names the dialect [d]. *)
Definition noRule (d : string) : Prop :=
  includes dialectsWithEnds d = false /\
  String.eqb d "psql" = false /\
  String.eqb d "mysql" = false /\
  includes dialectsWithOpenBlocks d = false.

(** Apply [f] to the value of a result. *)
Definition map_result {A B} (f : A -> B) (m : result A) : result B :=
  match m with Ok a => Ok (f a) | Err e => Err e end.

(** The loop variables with the active parser moved to the generic dialect. *)
Definition genericLoop (l : Loop) : Loop :=
  mkLoop (prevState l) (option_map (withDialect "generic") (statementParser l))
    (body l) (tokens l).

(** Apply [f] to the parser of a flow. *)
Definition map_flow (f : Parser -> Parser) (x : flow) : flow :=
  match x with Return q => Return (f q) | Continue q => Continue (f q) end.

(** The parser a block of [addToken] leaves behind. *)
Definition flow_parser (f : flow) : Parser :=
  match f with Return q => q | Continue q => q end.

(** Every active parser of the loop runs under a dialect without rules. *)
Definition loopNoRule (l : Loop) : Prop :=
  forall sp, statementParser l = Some sp -> noRule (Parser.dialect sp).

(** The step lists of the eight constructors. *)
Definition knownSteps : list (list Step) :=
  [ selectSteps; insertSteps; updateSteps; deleteSteps; createSteps; dropSteps;
    truncateSteps; unknownSteps ].

(** The execution-type table as the specification words it: SELECT lists,
    ten types modify, anything else (an absent type too) is unknown. *)
Definition executionTypeTable (type : option string) : string :=
  match type with
  | Some s =>
      if String.eqb s "SELECT" then "LISTING"
      else if includes
                [ "INSERT"; "UPDATE"; "DELETE"; "TRUNCATE"; "CREATE_DATABASE";
                  "CREATE_TABLE"; "CREATE_TRIGGER"; "CREATE_FUNCTION";
                  "DROP_DATABASE"; "DROP_TABLE" ] s
      then "MODIFICATION"
      else "UNKNOWN"
  | None => "UNKNOWN"
  end.

(** The statement's [executionType] is what the table gives for its [type]. *)
Definition classified (st : Statement) : Prop :=
  Statement.executionType st = Some (ExecStr (executionTypeTable (Statement.type st))).

(** The type, as a property key, names no member of [Object.prototype]. *)
Definition safeType (type : option string) : bool :=
  negb (includes objectPrototypeKeys (property_key type)).

(** A parser that has taken its first token: built by one of the
    constructors, past its first step, with [start] and [executionType] set. *)
Definition started (p : Parser) : Prop :=
  In (Parser.steps p) knownSteps /\
  (1 <= Parser.currentStepIndex p)%nat /\
  (exists s, Statement.start (Parser.statement p) = Some s) /\
  classified (Parser.statement p) /\
  safeType (Statement.type (Parser.statement p)) = true.

(** How a token enters a statement parser in one turn of the loop: fed to the
    active one, or to the one it selects. *)
Definition entered (r : Resolution) (strict : bool) (d : string) (l : Loop)
    (token : Token) (q : Parser) : Prop :=
  (exists sp, statementParser l = Some sp /\ addToken r sp token = Ok q) \/
  (statementParser l = None /\
   exists sp, createStatementParserByToken token (mkOptions strict d) = Ok sp /\
              addToken r sp token = Ok q).

(** The token is one [parse] skips between statements. *)
Definition blank (token : Token) : bool :=
  existsb (Token.kind_eqb (Token.type token)) ignoreOutsideBlankTokens.

(** The state [initState ({ prevState })] builds for the cursor [p]. *)
Definition cursorState (input : string) (p : Z) : State :=
  State.mk input p (p + 1) (length_Z input - 1).

(** The active parser, if any, has taken its first token, and the statements
    of [body] are classified. *)
Definition loopClassified (l : Loop) : Prop :=
  Forall classified (body l) /\
  forall sp, statementParser l = Some sp -> started sp.

(** The statement carries both offsets, and [start] does not exceed [end]. *)
Definition wellRanged (st : Statement) : Prop :=
  exists s e, Statement.start st = Some s /\ Statement.end_ st = Some e /\ s <= e.

(** [a] ends before [b] starts. *)
Definition endsBefore (a b : Statement) : Prop :=
  exists e s, Statement.end_ a = Some e /\ Statement.start b = Some s /\ e < s.

(** Every statement of [body] ends before offset [b]. *)
Definition bodyBelow (b : Z) (body : list Statement) : Prop :=
  Forall (fun st => exists e, Statement.end_ st = Some e /\ e < b) body.

(** What [parse] needs of the scanner at cursor [p]: the input is left as it
    is, the token starts after the cursor and is not empty, and the cursor
    moves on to the token's end or beyond, not past the input. *)
Definition scanStepOk (scan : State -> Token * State) (input : string) (p : Z) : bool :=
  let (t, s') := scan (cursorState input p) in
  (String.eqb (State.input s') input
   && (p <? Token.start t)
   && (Token.start t <=? Token.end_ t)
   && (Token.end_ t <=? State.position s')
   && (State.position s' <=? length_Z input - 1))%bool.

(** [scanStepOk] at every cursor the loop of [parse] can be at. *)
Definition scannerOkb (scan : State -> Token * State) (input : string) : bool :=
  forallb (fun i => scanStepOk scan input (Z.of_nat i - 1))
          (seq 0 (String.length input)).

(** The loop variables between two turns, for the input [input]. *)
Definition loopRanged (input : string) (l : Loop) : Prop :=
  State.input (prevState l) = input /\
  -1 <= State.position (prevState l) <= length_Z input - 1 /\
  StronglySorted endsBefore (body l) /\
  Forall wellRanged (body l) /\
  bodyBelow (State.position (prevState l) + 1) (body l) /\
  forall sp, statementParser l = Some sp ->
    started sp /\
    exists s, Statement.start (Parser.statement sp) = Some s /\
              s <= State.position (prevState l) /\
              bodyBelow s (body l).

(** Two statements, a comment between them and a semicolon inside a string. *)
Definition twoStatements : string := "SELECT 1; -- one
INSERT INTO t VALUES ('a;b');".

(** The first statement [parse] finds in [twoStatements]. *)
Definition selectOne : Statement :=
  Statement.mk (Some 0) (Some 8) (Some "SELECT") (Some (ExecStr "LISTING"))
    (Some ";") false DefUndefined JUndefined.

(** The second of them. *)
Definition insertTwo : Statement :=
  Statement.mk (Some 17) (Some 45) (Some "INSERT") (Some (ExecStr "MODIFICATION"))
    (Some ";") false DefUndefined JUndefined.

(** The whole result, computed. *)
Definition twoStatementsResult : ParseResult :=
  Eval vm_compute in
    match parse Scanner.scanToken StashedDepth true "generic" twoStatements with
    | Some (Ok res) => res
    | _ => ParseResult.mk EmptyString 0 0 [] []
    end.

(** Feed the tokens one after the other; the first error ends the run. *)
Fixpoint addTokens (r : Resolution) (p : Parser) (tokens : list Token)
    : result Parser :=
  match tokens with
  | [] => Ok p
  | t :: rest => bind (addToken r p t) (fun q => addTokens r q rest)
  end.

(** A token of whitespace. *)
Definition isWhitespaceToken (t : Token) : Prop := Token.type t = Token.whitespace.

(** A token that is no whitespace, no semicolon and not the word DEFINER. *)
Definition plainToken (t : Token) : Prop :=
  Token.type t <> Token.whitespace /\ Token.type t <> Token.semicolon /\
  toUpperCase (Token.value t) <> "DEFINER".

(** [p] with the definer counter at [n] and [t] as its previous token. *)
Definition inClause (n : Z) (t : Token) (p : Parser) : Parser :=
  Parser.set_prevToken t (Parser.upd (Statement.set_definer (DefNum n)) p).

(** A MySQL statement parser that has not ended. *)
Definition mysqlActive (p : Parser) : Prop :=
  Parser.dialect p = "mysql" /\ active p.

(** The tokens of a clause [DEFINER = principal] with whitespace after [=]
    and after the principal: the keyword, optional whitespace [ws1], [=],
    whitespace [w2 :: ws2], the principal [t1 :: rest] and whitespace
    [w3 :: ws3]. *)
Record DefinerClause := mkDefinerClause {
  dc_keyword : Token;
  dc_ws1 : list Token;
  dc_equals : Token;
  dc_w2 : Token;
  dc_ws2 : list Token;
  dc_t1 : Token;
  dc_rest : list Token;
  dc_w3 : Token;
  dc_ws3 : list Token
}.

(** DEFINER and the whitespace after it. *)
Definition clauseHead (c : DefinerClause) : list Token :=
  dc_keyword c :: dc_ws1 c.

(** [=] and the whitespace after it. *)
Definition clauseEquals (c : DefinerClause) : list Token :=
  dc_equals c :: dc_w2 c :: dc_ws2 c.

(** The principal. *)
Definition clausePrincipal (c : DefinerClause) : list Token :=
  dc_t1 c :: dc_rest c.

(** The whitespace that ends the principal. *)
Definition clauseTail (c : DefinerClause) : list Token :=
  dc_w3 c :: dc_ws3 c.

(** The clause. *)
Definition clauseTokens (c : DefinerClause) : list Token :=
  (clauseHead c ++ clauseEquals c ++ clausePrincipal c ++ clauseTail c)%list.

(** The shape [addToken] consumes. *)
Definition wellFormedClause (c : DefinerClause) : Prop :=
  toUpperCase (Token.value (dc_keyword c)) = "DEFINER" /\
  Token.type (dc_keyword c) <> Token.whitespace /\
  Token.type (dc_keyword c) <> Token.semicolon /\
  Forall isWhitespaceToken (dc_ws1 c) /\
  Token.value (dc_equals c) = "=" /\
  Token.type (dc_equals c) <> Token.whitespace /\
  Token.type (dc_equals c) <> Token.semicolon /\
  Forall isWhitespaceToken (dc_w2 c :: dc_ws2 c) /\
  Forall plainToken (dc_t1 c :: dc_rest c) /\
  Forall isWhitespaceToken (dc_w3 c :: dc_ws3 c).

(** The statements agree on every field but [definer]. *)
Definition sameButDefiner (a b : Statement) : Prop :=
  Statement.start a = Statement.start b /\
  Statement.end_ a = Statement.end_ b /\
  Statement.type a = Statement.type b /\
  Statement.executionType a = Statement.executionType b /\
  Statement.endStatement a = Statement.endStatement b /\
  Statement.canEnd a = Statement.canEnd b /\
  Statement.openBlocks a = Statement.openBlocks b.

(** [q1] has been through a definer clause that [q2] has not met: they are
    CREATE parsers that agree on everything but the counter and the previous
    token, and the counter of [q1] is spent (2 after whitespace, or [false])
    where [q2] has none; or they are the same. *)
Definition definerSim (q1 q2 : Parser) : Prop :=
  Parser.steps q1 = createSteps /\ Parser.steps q2 = createSteps /\
  Parser.currentStepIndex q1 = Parser.currentStepIndex q2 /\
  Parser.isStrict q1 = Parser.isStrict q2 /\
  Parser.dialect q1 = "mysql" /\ Parser.dialect q2 = "mysql" /\
  sameButDefiner (Parser.statement q1) (Parser.statement q2) /\
  ((Statement.definer (Parser.statement q1) = DefNum 2 /\
    (exists w, Parser.prevToken q1 = Some w /\ isWhitespaceToken w) /\
    Statement.definer (Parser.statement q2) = DefUndefined) \/
   (Statement.definer (Parser.statement q1) = DefFalse /\
    Statement.definer (Parser.statement q2) = DefUndefined) \/
   q1 = q2).

(** Two runs end alike: with the same error, or with parsers in [definerSim]. *)
Definition simResult (a b : result Parser) : Prop :=
  match a, b with
  | Ok q1, Ok q2 => definerSim q1 q2
  | Err e1, Err e2 => e1 = e2
  | _, _ => False
  end.

(** A MySQL CREATE parser after the tokens CREATE and one space. *)
Definition mysqlCreate : Parser :=
  Parser.mk
    (Statement.mk (Some 0) None None (Some (ExecStr "UNKNOWN")) None false
       DefUndefined JUndefined)
    createSteps 1%nat (Some (Token.mk Token.whitespace " " 6 6)) true "mysql".

(** The tokens of [DEFINER = u@h ] as the scanner cuts them. *)
Definition sampleClause : DefinerClause :=
  mkDefinerClause
    (Token.mk Token.keyword "DEFINER" 7 13)
    [Token.mk Token.whitespace " " 14 14]
    (Token.mk Token.unknown "=" 15 15)
    (Token.mk Token.whitespace " " 16 16) []
    (Token.mk Token.unknown "u" 17 17)
    [Token.mk Token.unknown "@" 18 18; Token.mk Token.unknown "h" 19 19]
    (Token.mk Token.whitespace " " 20 20) [].

(** The statement parser of a dialect other than MySQL built by one of the
    constructors: the definer counter is never created. *)
Definition noDefiner (p : Parser) : Prop :=
  In (Parser.steps p) knownSteps /\
  Parser.dialect p <> "mysql" /\
  Statement.definer (Parser.statement p) = DefUndefined.

(** A psql parser built by one of the constructors keeps a number in
    [openBlocks]. *)
Definition countsBlocks (p : Parser) : Prop :=
  In (Parser.steps p) knownSteps /\
  exists n, Statement.openBlocks (Parser.statement p) = JNum n.

(** A psql function body with a block nested in its block. *)
Definition nestedInput : string := "CREATE FUNCTION f() BEGIN BEGIN x; END; y; END;".

(** Type, offsets, execution type and end marker of each statement. *)
Definition summary (res : ParseResult)
    : list (option string * option Z * option Z * option ExecVal * option string) :=
  map (fun st => (Statement.type st, Statement.start st, Statement.end_ st,
                  Statement.executionType st, Statement.endStatement st))
      (ParseResult.body res).

(** [parse] of the modelled scanner's tokens, reduced to [summary]. *)
Definition parseSummary (strict : bool) (dialect : string) (input : string) :=
  option_map (map_result summary)
    (parse Scanner.scanToken StashedDepth strict dialect input).

(** A statement parser the loop of [parse] can hold: built by one of the
    constructors; [endStatement] is absent or ";"; a definer counter that
    is a number comes with a previous token; and the step index points at a
    step unless the type is assigned. *)
Definition sound (p : Parser) : Prop :=
  In (Parser.steps p) knownSteps /\
  (Statement.endStatement (Parser.statement p) = None \/
   Statement.endStatement (Parser.statement p) = Some ";") /\
  (forall n, Statement.definer (Parser.statement p) = DefNum n ->
             Parser.prevToken p <> None) /\
  ((Parser.currentStepIndex p < List.length (Parser.steps p))%nat \/
   truthy (Statement.type (Parser.statement p)) = true).

(** The errors a turn of the loop can end with: no statement parser for the
    token, or, in strict mode only, a token the current step does not accept. *)
Definition expectedError (strict : bool) (e : Error) : Prop :=
  (exists v, e = InvalidStatementParser v) \/
  (strict = true /\ exists ex ty v i, e = ExpectedTokens ex ty v i).

(** What the loop keeps about its active parser and the statements sealed. *)
Definition loopSound (strict : bool) (l : Loop) : Prop :=
  (forall sp, statementParser l = Some sp ->
     sound sp /\ active sp /\ (Parser.isStrict sp = true -> strict = true)) /\
  Forall (fun st => Statement.endStatement st = Some ";") (body l).

(** The tokens the scanner yields when it is called in turn from the state
    [s] until the cursor reaches [topEnd], as the loop of [parse] calls it;
    [None] when [fuel] turns do not get there. *)
Fixpoint scanAll (scan : State -> Token * State) (fuel : nat) (topEnd : Z)
    (s : State) : option (list Token) :=
  if State.position s <? topEnd then
    match fuel with
    | O => None
    | S fuel' =>
        let (t, s') := scan (initState_prev s) in
        option_map (cons t) (scanAll scan fuel' topEnd s')
    end
  else Some [].

(** An input of blanks and a comment. *)
Definition blankInput : string := "  -- nothing here".

(** The token is one a statement can start with. *)
Definition leads (t : Token) : Prop :=
  Token.type t = Token.keyword \/ Token.type t = Token.unknown.

(** The token is no semicolon. *)
Definition noSemicolon (t : Token) : Prop := Token.type t <> Token.semicolon.

(** The statement is of a type whose body may hold semicolons. *)
Definition holdsSemicolons (st : Statement) : Prop :=
  Statement.type st = Some "CREATE_TRIGGER" \/
  Statement.type st = Some "CREATE_FUNCTION".

(** [segments topEnd tokens body]: the statements of [body] cut the token
    stream into consecutive groups. Blank tokens lie between the groups; a
    group starts at a keyword or unknown token, whose start is the
    statement's, and runs up to the semicolon token that ends the statement,
    whose end is the statement's; the last group may run to the end of the
    input, [topEnd], instead. Semicolons inside a group occur in CREATE
    TRIGGER and CREATE FUNCTION statements only. *)
Inductive segments (topEnd : Z) : list Token -> list Statement -> Prop :=
| seg_nil : segments topEnd [] []
| seg_blank t toks body :
    blank t = true ->
    segments topEnd toks body ->
    segments topEnd (t :: toks) body
| seg_ended t ts e st toks body :
    leads t ->
    Token.type e = Token.semicolon ->
    Statement.start st = Some (Token.start t) ->
    Statement.end_ st = Some (Token.end_ e) ->
    Statement.endStatement st = Some ";" ->
    Forall noSemicolon ts \/ holdsSemicolons st ->
    segments topEnd toks body ->
    segments topEnd (t :: ts ++ e :: toks) (st :: body)
| seg_last t ts st :
    leads t ->
    Statement.start st = Some (Token.start t) ->
    Statement.end_ st = Some topEnd ->
    Statement.endStatement st = None ->
    Forall noSemicolon ts \/ holdsSemicolons st ->
    segments topEnd (t :: ts) [st].

(** The tokens [toks] are cut by the ended statements [body], whatever
    follows them. *)
Definition closedCut (topEnd : Z) (toks : list Token) (body : list Statement) : Prop :=
  forall rest more, segments topEnd rest more ->
    segments topEnd (toks ++ rest)%list (body ++ more)%list.

(** The loop variables between two turns: the tokens read fall into the
    groups of the statements of [body] and the group of the statement being
    read. *)
Definition loopCut (topEnd : Z) (l : Loop) : Prop :=
  exists closed opened,
    tokens l = (closed ++ opened)%list /\ closedCut topEnd closed (body l) /\
    match statementParser l with
    | None => opened = []
    | Some sp =>
        sound sp /\ active sp /\ started sp /\
        exists t ts, opened = t :: ts /\ leads t /\
          Statement.start (Parser.statement sp) = Some (Token.start t) /\
          (Forall noSemicolon ts \/ holdsSemicolons (Parser.statement sp))
    end.

(** [token.type === 'semicolon'] *)
Definition isSemicolon (t : Token) : bool :=
  Token.kind_eqb (Token.type t) Token.semicolon.

(** The statement has met the semicolon that ends it. *)
Definition hasEnded (st : Statement) : bool :=
  truthy (Statement.endStatement st).

(** The token lies within the input. *)
Definition tokenWithin (input : string) (t : Token) : Prop :=
  0 <= Token.start t /\ Token.end_ t <= length_Z input - 1.

(** The statement's range is a range of the input. *)
Definition statementWithin (input : string) (st : Statement) : Prop :=
  exists s e, Statement.start st = Some s /\ Statement.end_ st = Some e /\
              0 <= s /\ s <= e /\ e <= length_Z input - 1.

(** The loop variables are ranged and the tokens read lie within the input. *)
Definition loopWithin (input : string) (l : Loop) : Prop :=
  loopRanged input l /\ Forall (tokenWithin input) (tokens l).

(** The types the strict statement parsers assign. *)
Definition recognisedTypes : list string :=
  [ "SELECT"; "INSERT"; "UPDATE"; "DELETE"; "TRUNCATE";
    "CREATE_TABLE"; "CREATE_DATABASE"; "CREATE_TRIGGER"; "CREATE_FUNCTION";
    "DROP_TABLE"; "DROP_DATABASE" ].

(** The statement has one of [recognisedTypes], or no type yet. *)
Definition recognised (st : Statement) : Prop :=
  match Statement.type st with
  | Some ty => In ty recognisedTypes
  | None => True
  end.

(** The step lists of the constructors strict mode selects from. *)
Definition strictSteps : list (list Step) :=
  [ selectSteps; insertSteps; updateSteps; deleteSteps; createSteps; dropSteps;
    truncateSteps ].

(** A parser of the loop in strict mode. *)
Definition strictParser (p : Parser) : Prop :=
  Parser.isStrict p = true /\ In (Parser.steps p) strictSteps /\
  recognised (Parser.statement p).

(** The loop variables in strict mode. *)
Definition loopStrict (l : Loop) : Prop :=
  Forall recognised (body l) /\
  forall sp, statementParser l = Some sp -> strictParser sp.

(** The token is the keyword CREATE, in any letter case. *)
Definition isCreate (t : Token) : bool :=
  (Token.kind_eqb (Token.type t) Token.keyword
   && String.eqb (toUpperCase (Token.value t)) "CREATE")%bool.

(** [p] as it would be in non-strict mode. *)
Definition relax (p : Parser) : Parser :=
  Parser.mk (Parser.statement p) (Parser.steps p) (Parser.currentStepIndex p)
    (Parser.prevToken p) false (Parser.dialect p).

(** The loop variables with the active parser in non-strict mode. *)
Definition relaxLoop (l : Loop) : Loop :=
  mkLoop (prevState l) (option_map relax (statementParser l)) (body l) (tokens l).

(** The keywords whose statement parser assigns the type at once. *)
Definition plainKeywords : list string :=
  ["SELECT"; "INSERT"; "UPDATE"; "DELETE"; "TRUNCATE"].

(** The type of [st] is the one its leading token [t] calls for: the
    keyword itself for the plain statements, the keyword with an object word
    after CREATE and DROP (no type as long as the object word is missing),
    and UNKNOWN after a token of type unknown. *)
Definition typedBy (t : Token) (st : Statement) : Prop :=
  match Token.type t with
  | Token.keyword =>
      let k := toUpperCase (Token.value t) in
      if includes plainKeywords k
      then Statement.type st = Some k
      else (k = "CREATE" \/ k = "DROP") /\
           (Statement.type st = None \/
            exists v, Statement.type st = Some (k ++ "_" ++ v))
  | Token.unknown => Statement.type st = Some "UNKNOWN"
  | _ => False
  end.

(** The parser was selected by [t], took it first, and its steps assign the
    type [typedBy] asks for. *)
Definition follows (t : Token) (p : Parser) : Prop :=
  Statement.start (Parser.statement p) = Some (Token.start t) /\
  (1 <= Parser.currentStepIndex p)%nat /\
  typedBy t (Parser.statement p) /\
  (Statement.type (Parser.statement p) = None ->
   (toUpperCase (Token.value t) = "CREATE" /\ Parser.steps p = createSteps) \/
   (toUpperCase (Token.value t) = "DROP" /\ Parser.steps p = dropSteps)).

(** Every statement sealed, and the one being read, follows a token read. *)
Definition loopFollows (l : Loop) : Prop :=
  Forall (fun st => exists t, In t (tokens l) /\
                      Statement.start st = Some (Token.start t) /\ typedBy t st)
         (body l) /\
  forall sp, statementParser l = Some sp ->
    exists t, In t (tokens l) /\ follows t sp.

(** A CREATE or DROP parser that has taken its first keyword and waits for
    the object word, outside a definer clause. *)
Definition awaitsObject (p : Parser) : Prop :=
  active p /\ Statement.type (Parser.statement p) = None /\
  Parser.currentStepIndex p = 1%nat /\
  forall n, Statement.definer (Parser.statement p) <> DefNum n.

(** The token is one the rules of [addToken] for semicolons, whitespace,
    OR REPLACE, block openers and DEFINER do not take. *)
Definition reachesStep (p : Parser) (t : Token) : bool :=
  (negb (Token.kind_eqb (Token.type t) Token.semicolon)
   && negb (Token.kind_eqb (Token.type t) Token.whitespace)
   && negb (String.eqb (Parser.dialect p) "psql"
            && includes ["OR"; "REPLACE"; "BEGIN"; "IF"; "LOOP"]
                 (toUpperCase (Token.value t)))
   && negb (String.eqb (Parser.dialect p) "mysql"
            && String.eqb (toUpperCase (Token.value t)) "DEFINER"))%bool.

(** The token is a keyword among [objects], in any letter case. *)
Definition isObjectKeyword (objects : list string) (t : Token) : bool :=
  (Token.kind_eqb (Token.type t) Token.keyword
   && includes objects (toUpperCase (Token.value t)))%bool.

(** [p] after its second step has taken [t] as the object word. *)
Definition withObject (prefix : string) (t : Token) (p : Parser) : Parser :=
  let type := (prefix ++ toUpperCase (Token.value t))%string in
  Parser.mk
    (Statement.set_executionType (executionTypeOf (Some type))
       (Statement.set_type type (Parser.statement p)))
    (Parser.steps p) 2 (Some t) (Parser.isStrict p) (Parser.dialect p).

(** A strict generic CREATE parser after [CREATE] and a blank. *)
Definition awaitingCreate : Parser :=
  Parser.mk
    (Statement.mk (Some 0) None None (Some (ExecStr "UNKNOWN")) None false
       DefUndefined JUndefined)
    createSteps 1%nat (Some (Token.mk Token.whitespace " " 6 6)) true "generic".

(** [p] without its previous token. *)
Definition forgetPrev (p : Parser) : Parser :=
  Parser.mk (Parser.statement p) (Parser.steps p) (Parser.currentStepIndex p)
    None (Parser.isStrict p) (Parser.dialect p).

(** A strict psql CREATE parser after [CREATE] and a blank. *)
Definition psqlAwaiting : Parser :=
  Parser.mk
    (Statement.mk (Some 0) None None (Some (ExecStr "UNKNOWN")) None false
       DefUndefined (JNum 0))
    createSteps 1%nat (Some (Token.mk Token.whitespace " " 6 6)) true "psql".


(** The token with its value in upper case. *)
Definition upcase (t : Token) : Token :=
  Token.mk (Token.type t) (toUpperCase (Token.value t)) (Token.start t)
    (Token.end_ t).

(** [p] with [f] applied to its previous token. *)
Definition mapPrev (f : Token -> Token) (p : Parser) : Parser :=
  Parser.mk (Parser.statement p) (Parser.steps p) (Parser.currentStepIndex p)
    (option_map f (Parser.prevToken p)) (Parser.isStrict p) (Parser.dialect p).

(** The error with the token value it quotes in upper case. *)
Definition upcaseError (e : Error) : Error :=
  match e with
  | InvalidStatementParser v => InvalidStatementParser (toUpperCase v)
  | ExpectedBefore l v i => ExpectedBefore l (toUpperCase v) i
  | ExpectedTokens ex ty v i => ExpectedTokens ex ty (toUpperCase v) i
  | other => other
  end.

(** Apply [f] to the value and [g] to the error of a result. *)
Definition map_outcome {A B} (f : A -> B) (g : Error -> Error) (m : result A)
    : result B :=
  match m with Ok a => Ok (f a) | Err e => Err (g e) end.

(** The scanner [scan] with the value of every token in upper case. *)
Definition upcaseScan (scan : State -> Token * State) (s : State) : Token * State :=
  let (t, s') := scan s in (upcase t, s').

(** The loop variables with the token values in upper case. *)
Definition upcaseLoop (l : Loop) : Loop :=
  mkLoop (prevState l) (option_map (mapPrev upcase) (statementParser l)) (body l)
    (map upcase (tokens l)).

(** The result with the token values in upper case. *)
Definition upcaseResult (res : ParseResult) : ParseResult :=
  ParseResult.mk (ParseResult.type res) (ParseResult.start res)
    (ParseResult.end_ res) (ParseResult.body res)
    (map upcase (ParseResult.tokens res)).

(** The select statement of the examples, in lower case. *)
Definition lowerSelect : string := "select 1; insert into t values (2)".

(** The token is the keyword CREATE or DROP, in any letter case. *)
Definition opensObject (t : Token) : bool :=
  (Token.kind_eqb (Token.type t) Token.keyword
   && (String.eqb (toUpperCase (Token.value t)) "CREATE"
       || String.eqb (toUpperCase (Token.value t)) "DROP"))%bool.

(** A parser of a statement that is neither CREATE nor DROP, past its first
    token: generic, typed, without definer. *)
Definition plainParser (p : Parser) : Prop :=
  In (Parser.steps p) knownSteps /\
  Parser.dialect p = "generic" /\
  Statement.definer (Parser.statement p) = DefUndefined /\
  truthy (Statement.type (Parser.statement p)) = true /\
  active p.

(** The loop variables under two alternatives of the merge: alike but for
    the previous token of the active parser, which is plain. *)
Definition sidesAgree (l l' : Loop) : Prop :=
  prevState l = prevState l' /\ body l = body l' /\ tokens l = tokens l' /\
  match statementParser l, statementParser l' with
  | None, None => True
  | Some sp, Some sp' =>
      forgetPrev sp = forgetPrev sp' /\ plainParser sp /\ plainParser sp'
  | _, _ => False
  end.

(** The outcomes of the loop under two alternatives agree. *)
Definition outcomesAgree (a b : option (result Loop)) : Prop :=
  match a, b with
  | Some (Ok l), Some (Ok l') => sidesAgree l l'
  | Some (Err e), Some (Err e') => e = e'
  | None, None => True
  | _, _ => False
  end.
(** * Properties *)

(** ** Basic facts about strings, [includes] and the statement record *)

Lemma kind_eqb_eq (a b : Token.Kind) : Token.kind_eqb a b = true <-> a = b.
Proof. destruct a, b; simpl; split; intro H; congruence. Qed.

Lemma includes_In (l : list string) (x : string) :
  includes l x = true <-> In x l.
Proof.
  unfold includes. rewrite existsb_exists. split.
  - intros [y [Hy He]]. apply String.eqb_eq in He. now subst.
  - intros H. exists x. split; [assumption | apply String.eqb_refl].
Qed.

Lemma includes_false (l : list string) (x : string) :
  includes l x = false <-> ~ In x l.
Proof.
  rewrite <- includes_In. destruct (includes l x); split; intro H; congruence.
Qed.

#[local] Ltac break_parser p :=
  let st := fresh "st" in
  destruct p as [st ? ? ? ? ?]; destruct st; cbn in *.

#[local] Ltac split_ifs :=
  repeat match goal with
         | |- context [if ?b then _ else _] => destruct b eqn:?; cbn
         end.

Lemma kind_eqb_neq (a b : Token.Kind) : a <> b -> Token.kind_eqb a b = false.
Proof.
  intros H. destruct (Token.kind_eqb a b) eqn:E; [|reflexivity].
  apply kind_eqb_eq in E. contradiction.
Qed.

(** A statement that has ended takes no token. *)
Lemma addToken_ended (r : Resolution) (p : Parser) (token : Token) :
  truthy (Statement.endStatement (Parser.statement p)) = true ->
  addToken r p token = Err AlreadyEnded.
Proof.
  intros H. unfold addToken. rewrite H. reflexivity.
Qed.

Lemma last_cons_default {A} (x d : A) (l : list A) : last (x :: l) d = last l x.
Proof.
  revert x d. induction l as [|y l IH]; intros x d; [reflexivity|].
  change (last (x :: y :: l) d) with (last (y :: l) d).
  rewrite (IH y d). symmetry. apply (IH y x).
Qed.

Lemma last_Forall {A} (P : A -> Prop) (l : list A) (d : A) :
  P d -> Forall P l -> P (last l d).
Proof.
  intros Hd H. induction H as [|x l Hx H IH]; [assumption|].
  rewrite last_cons_default. clear IH. revert x Hx.
  induction H as [|y l Hy H IH]; intros x Hx; [assumption|].
  rewrite last_cons_default. apply IH. assumption.
Qed.

(** ** The blocks of [addToken] *)

Lemma endHandling_same (r : Resolution) (p : Parser) (token : Token) :
  same_classification p (flow_parser (endHandling r p token)).
Proof.
  unfold endHandling. destruct r; split_ifs; repeat split.
Qed.

Lemma optionalAndOpeners_same (p : Parser) (token : Token) :
  same_classification p (flow_parser (optionalAndOpeners p token)).
Proof.
  unfold optionalAndOpeners. split_ifs; repeat split.
Qed.

Lemma definerClause_same (p : Parser) (token : Token) (f : flow) :
  definerClause p token = Ok f -> same_classification p (flow_parser f).
Proof.
  unfold definerClause, prevIsWhitespace.
  destruct (Parser.prevToken p); split_ifs; cbn; intros E; inversion E; subst;
    repeat split.
Qed.

Lemma same_classification_trans (p q s : Parser) :
  same_classification p q -> same_classification q s -> same_classification p s.
Proof.
  unfold same_classification. intros H1 H2.
  repeat match goal with H : _ /\ _ |- _ => destruct H end.
  repeat split; congruence.
Qed.

Lemma stepMachine_frame (p q : Parser) (token : Token) :
  stepMachine p token = Ok q ->
  Parser.steps q = Parser.steps p /\ Parser.isStrict q = Parser.isStrict p /\
  Parser.dialect q = Parser.dialect p.
Proof.
  unfold stepMachine, stepAt, hasRequiredBefore.
  destruct (truthy _); [intros E; inversion E; auto|].
  destruct (nth_error _ _) as [s0|]; [cbn|discriminate].
  destruct (nth_error _ _) as [s1|]; [cbn|discriminate].
  destruct (Step.requireBefore s1); cbn.
  - destruct (Parser.prevToken p); cbn; [|discriminate].
    destruct (negb _); [discriminate|].
    destruct (negb _ && _)%bool; [destruct (Step.validation s1); discriminate|].
    intros E; inversion E; auto.
  - destruct (negb _ && _)%bool; [destruct (Step.validation s1); discriminate|].
    intros E; inversion E; auto.
Qed.

(** What one call of [addToken] can do: end the statement, leave the
    classification alone, or run the step machine. *)
Lemma addToken_cases (r : Resolution) (p q : Parser) (token : Token) :
  addToken r p token = Ok q ->
  active p /\
  (q = Parser.upd (Statement.set_endStatement ";") p \/
   same_classification p q \/
   exists p', same_classification p p' /\ stepMachine p' token = Ok q).
Proof.
  unfold addToken, active.
  destruct (truthy _); [discriminate|]. intros H. split; [reflexivity|].
  destruct (semicolonEnds p token); [inversion H; auto|].
  pose proof (endHandling_same r p token) as S1.
  destruct (endHandling r p token) as [p1|p1]; cbn in S1; [inversion H; subst; auto|].
  pose proof (optionalAndOpeners_same p1 token) as S2.
  destruct (optionalAndOpeners p1 token) as [p2|p2]; cbn in S2.
  { inversion H; subst. right; left. eapply same_classification_trans; eauto. }
  destruct (definerClause p2 token) as [f|e] eqn:E3; [|discriminate].
  pose proof (definerClause_same p2 token f E3) as S3.
  cbn in H. destruct f as [p3|p3]; cbn in S3.
  { inversion H; subst. right; left.
    eapply same_classification_trans; [|eassumption].
    eapply same_classification_trans; eauto. }
  right; right. exists p3. split; [|assumption].
  eapply same_classification_trans; [|eassumption].
  eapply same_classification_trans; eauto.
Qed.

Lemma addToken_frame (r : Resolution) (p q : Parser) (token : Token) :
  addToken r p token = Ok q ->
  Parser.steps q = Parser.steps p /\ Parser.isStrict q = Parser.isStrict p /\
  Parser.dialect q = Parser.dialect p.
Proof.
  intros H. apply addToken_cases in H. destruct H as [_ [-> | [S | [p' [S H]]]]].
  - auto.
  - unfold same_classification in S. tauto.
  - apply stepMachine_frame in H. unfold same_classification in S.
    destruct H as (-> & -> & ->). tauto.
Qed.

(** ** Fields only the dialect rules write *)

Lemma knownSteps_add (steps : list Step) (i : nat) (s : Step) (t : Token)
    (st : Statement) :
  In steps knownSteps -> nth_error steps i = Some s ->
  Statement.definer (Step.add s t st) = Statement.definer st /\
  Statement.openBlocks (Step.add s t st) = Statement.openBlocks st /\
  Statement.canEnd (Step.add s t st) = Statement.canEnd st /\
  Statement.endStatement (Step.add s t st) = Statement.endStatement st /\
  Step.requireBefore s = None.
Proof.
  intros H. simpl in H.
  repeat (destruct H as [H | H];
          [subst steps; destruct i as [|[|i]]; cbn;
           try (destruct i; discriminate); try discriminate;
           intros E; inversion E; subst; cbn; auto|]).
  contradiction.
Qed.

Lemma stepMachine_fields (p q : Parser) (t : Token) :
  In (Parser.steps p) knownSteps -> stepMachine p t = Ok q ->
  Statement.definer (Parser.statement q) = Statement.definer (Parser.statement p) /\
  Statement.openBlocks (Parser.statement q)
    = Statement.openBlocks (Parser.statement p).
Proof.
  intros Hk. unfold stepMachine, stepAt, hasRequiredBefore.
  destruct (truthy _); [intros E; inversion E; auto|].
  destruct (nth_error _ _) as [s0|]; [cbn|discriminate].
  destruct (nth_error (Parser.steps p) _) as [s1|] eqn:E1; [cbn|discriminate].
  destruct (knownSteps_add _ _ s1 t (Parser.statement p) Hk E1)
    as (G1 & G2 & _ & _ & G5).
  rewrite G5. cbn.
  destruct (negb _ && _)%bool; [destruct (Step.validation s1); discriminate|].
  intros E; inversion E; subst; cbn. auto.
Qed.

Lemma addToken_noDefiner (r : Resolution) (p q : Parser) (t : Token) :
  noDefiner p -> addToken r p t = Ok q -> noDefiner q.
Proof.
  intros (Hk & Hd & Hu) H. unfold noDefiner.
  destruct (addToken_frame r p q t H) as (E1 & _ & E3). rewrite E1, E3.
  split; [assumption|]. split; [assumption|].
  revert H. unfold addToken.
  destruct (truthy _); [discriminate|].
  destruct (semicolonEnds p t); [intros E; inversion E; subst; exact Hu|].
  assert (F1 : Statement.definer (Parser.statement (flow_parser (endHandling r p t)))
               = DefUndefined /\
               Parser.dialect (flow_parser (endHandling r p t)) = Parser.dialect p /\
               Parser.steps (flow_parser (endHandling r p t)) = Parser.steps p).
  { unfold endHandling. destruct r; split_ifs; auto. }
  destruct (endHandling r p t) as [p1|p1]; cbn in F1;
    [intros E; inversion E; subst; tauto|].
  destruct F1 as (F1 & F2 & F3).
  assert (G1 : Statement.definer
                 (Parser.statement (flow_parser (optionalAndOpeners p1 t)))
               = DefUndefined /\
               Parser.dialect (flow_parser (optionalAndOpeners p1 t)) = Parser.dialect p /\
               Parser.steps (flow_parser (optionalAndOpeners p1 t)) = Parser.steps p).
  { unfold optionalAndOpeners. split_ifs; auto. }
  destruct (optionalAndOpeners p1 t) as [p2|p2]; cbn in G1;
    [intros E; inversion E; subst; tauto|].
  destruct G1 as (G1 & G2 & G3).
  unfold definerClause. rewrite G1, G2.
  apply String.eqb_neq in Hd. rewrite Hd. cbn.
  intros E. apply stepMachine_fields in E; [|rewrite G3; exact Hk].
  destruct E as [E _]. congruence.
Qed.

Lemma addToken_countsBlocks (r : Resolution) (p q : Parser) (t : Token) :
  countsBlocks p -> addToken r p t = Ok q -> countsBlocks q.
Proof.
  intros (Hk & n & Hn) H. unfold countsBlocks.
  destruct (addToken_frame r p q t H) as (E1 & _ & _). rewrite E1.
  split; [assumption|].
  revert H. unfold addToken.
  destruct (truthy _); [discriminate|].
  destruct (semicolonEnds p t); [intros E; inversion E; subst; cbn; eauto|].
  assert (F : (exists m, Statement.openBlocks
                 (Parser.statement (flow_parser (endHandling r p t))) = JNum m) /\
              Parser.steps (flow_parser (endHandling r p t)) = Parser.steps p).
  { unfold endHandling. destruct r; split_ifs; rewrite ?Hn; cbn; eauto. }
  destruct (endHandling r p t) as [p1|p1]; cbn in F;
    [intros E; inversion E; subst; tauto|].
  destruct F as ([m Hm] & F3).
  assert (G : (exists m', Statement.openBlocks
                 (Parser.statement (flow_parser (optionalAndOpeners p1 t))) = JNum m') /\
              Parser.steps (flow_parser (optionalAndOpeners p1 t)) = Parser.steps p).
  { unfold optionalAndOpeners. split_ifs; rewrite ?Hm; cbn; eauto. }
  destruct (optionalAndOpeners p1 t) as [p2|p2]; cbn in G;
    [intros E; inversion E; subst; tauto|].
  destruct G as ([m' Hm'] & G3).
  assert (D : forall f, definerClause p2 t = Ok f ->
              Statement.openBlocks (Parser.statement (flow_parser f)) = JNum m' /\
              Parser.steps (flow_parser f) = Parser.steps p).
  { intros f. unfold definerClause, prevIsWhitespace.
    destruct (Parser.prevToken p2); split_ifs; intros E; inversion E; subst; cbn; auto. }
  destruct (definerClause p2 t) as [f|e]; [cbn|discriminate].
  destruct (D f eq_refl) as [D1 D2].
  destruct f as [p3|p3]; cbn in D1, D2; [intros E; inversion E; subst; eauto|].
  intros E. apply stepMachine_fields in E; [|rewrite D2; exact Hk].
  destruct E as [_ E]. exists m'. congruence.
Qed.

(** The parser CREATE selects starts out so. *)
Lemma created_invariants (o : Options) :
  (opt_dialect o <> "mysql" -> noDefiner (createCreateStatementParser o)) /\
  (opt_dialect o = "psql" -> countsBlocks (createCreateStatementParser o)).
Proof.
  unfold noDefiner, countsBlocks, createCreateStatementParser,
    stateMachineStatementParser. split.
  - intros H. destruct (includes dialectsWithOpenBlocks (opt_dialect o)); cbn;
      repeat split; auto; simpl; tauto.
  - intros ->. cbn. split; [simpl; tauto | eauto].
Qed.

(** Every parser [createStatementParserByToken] returns starts out without a
    definer counter, under the dialect of [parse] or under generic; one that
    runs under psql has [openBlocks] at 0. *)
Lemma selected_invariants (token : Token) (strict : bool) (d : string) (sp : Parser) :
  createStatementParserByToken token (mkOptions strict d) = Ok sp ->
  (Parser.dialect sp = d \/ Parser.dialect sp = "generic") /\
  (d <> "mysql" -> noDefiner sp) /\
  (Parser.dialect sp = "psql" -> countsBlocks sp).
Proof.
  unfold createStatementParserByToken.
  assert (G : forall mk steps,
            In steps knownSteps ->
            mk = stateMachineStatementParser Statement.empty steps strict None \/
            mk = stateMachineStatementParser Statement.empty steps false None ->
            (Parser.dialect mk = d \/ Parser.dialect mk = "generic") /\
            (d <> "mysql" -> noDefiner mk) /\
            (Parser.dialect mk = "psql" -> countsBlocks mk)).
  { intros mk steps Hin [-> | ->]; cbn; (split; [auto|]); split;
      try discriminate; intros _; repeat split; auto; discriminate. }
  assert (C : (Parser.dialect (createCreateStatementParser (mkOptions strict d)) = d \/
               Parser.dialect (createCreateStatementParser (mkOptions strict d)) = "generic") /\
              (d <> "mysql" -> noDefiner (createCreateStatementParser (mkOptions strict d))) /\
              (Parser.dialect (createCreateStatementParser (mkOptions strict d)) = "psql" ->
               countsBlocks (createCreateStatementParser (mkOptions strict d)))).
  { destruct (created_invariants (mkOptions strict d)) as [C1 C2].
    split; [left; reflexivity|]. split; [exact C1|].
    intros E. apply C2. exact E. }
  split_ifs; intros E; inversion E; subst; clear E; try exact C;
    unfold createSelectStatementParser, createInsertStatementParser,
      createUpdateStatementParser, createDeleteStatementParser,
      createDropStatementParser, createTruncateStatementParser,
      createUnknownStatementParser; cbn [opt_isStrict];
    match goal with
    | |- context [stateMachineStatementParser Statement.empty ?s _ None] =>
        apply (G _ s); [simpl; tauto | auto]
    end.
Qed.

(** ** C9: a statement that has ended takes no more tokens *)

(** C9. For every alternative of the merge, every statement parser (strict
    or not, whatever its steps and dialect) and every token: when the
    statement's [endStatement] is set (truthy; the code only ever stores ";")
    [addToken] throws 'This statement has already got to the end.'. *)
Theorem addToken_after_end_throws (r : Resolution) (p : Parser) (token : Token) :
  truthy (Statement.endStatement (Parser.statement p)) = true ->
  addToken r p token = Err AlreadyEnded.
Proof.
  intros H. unfold addToken. now rewrite H.
Qed.

Lemma addToken_after_end_throws_witness :
  addToken StashedDepth
    (Parser.upd (Statement.set_endStatement ";")
       (createUnknownStatementParser false))
    (Token.mk Token.unknown "x" 0 0) = Err AlreadyEnded.
Proof.
  apply (addToken_after_end_throws StashedDepth
           (Parser.upd (Statement.set_endStatement ";")
              (createUnknownStatementParser false))
           (Token.mk Token.unknown "x" 0 0)).
  reflexivity.
Defined.

(** ** C10: the empty input *)

(** C10. For the empty input, any scanner, any alternative of the merge, any
    strict flag and dialect, and any bound on the turns of the loop (even
    none), [parse] returns the result with type QUERY, start 0, end -1, an
    empty body and no tokens: the loop condition [-1 < -1] fails at once. *)
Theorem parse_empty_input (scan : State -> Token * State) (r : Resolution)
    (strict : bool) (dialect : string) :
  parse scan r strict dialect EmptyString
    = Some (Ok (ParseResult.mk "QUERY" 0 (-1) [] [])) /\
  forall fuel, parseFuel scan r strict dialect fuel EmptyString
    = Some (Ok (ParseResult.mk "QUERY" 0 (-1) [] [])).
Proof.
  split; [|intros fuel; destruct fuel]; reflexivity.
Qed.

(** ** C1: semicolons inside a trigger or function body *)

(** C1, as amended. Let the dialect be sqlite, mssql or psql and the
    statement's type CREATE_TRIGGER or CREATE_FUNCTION, the statement not
    ended (in these dialects [definer] is never written, lemma
    [addToken_noDefiner]). Then
    - in every alternative of the merge, a semicolon token met while [canEnd]
      is not set leaves [endStatement] unset: the parser only differs in the
      fields the dialect rules write;
    - in the depth-tracking alternative, a token whose value is END in any
      letter case sets [canEnd] in sqlite and mssql; in psql it does so when
      it brings [openBlocks] back to zero, and otherwise leaves [canEnd] as
      it was;
    - there, [canEnd] goes from unset to set on no other token;
    - in every alternative, once [canEnd] is set, a semicolon token sets
      [endStatement] to ";" and nothing else. *)
Theorem embedded_semicolon_waits_for_END (p : Parser) :
  hasEnds p -> active p ->
  Statement.definer (Parser.statement p) = DefUndefined ->
  (forall r token,
     Token.type token = Token.semicolon ->
     Statement.canEnd (Parser.statement p) = false ->
     exists p', addToken r p token = Ok p' /\ active p' /\ same_classification p p') /\
  (forall token,
     toUpperCase (Token.value token) = "END" ->
     Token.type token <> Token.semicolon ->
     exists p', addToken StashedDepth p token = Ok p' /\
                active p' /\ same_classification p p' /\
                Statement.definer (Parser.statement p') = DefUndefined /\
                Statement.canEnd (Parser.statement p')
                = (Statement.canEnd (Parser.statement p)
                   || negb (String.eqb (Parser.dialect p) "psql")
                   || js_is_zero (js_decr (Statement.openBlocks (Parser.statement p))))%bool) /\
  (forall token p',
     addToken StashedDepth p token = Ok p' ->
     Statement.canEnd (Parser.statement p) = false ->
     Statement.canEnd (Parser.statement p') = true ->
     toUpperCase (Token.value token) = "END") /\
  (forall r token,
     Token.type token = Token.semicolon ->
     Statement.canEnd (Parser.statement p) = true ->
     addToken r p token = Ok (Parser.upd (Statement.set_endStatement ";") p)).
Proof.
  unfold hasEnds, active. intros [Hd Hty] Ha Hdef.
  break_parser p. subst. split; [|split; [|split]].
  - intros r token Ht Hc. unfold addToken, semicolonEnds. cbn. rewrite Ha, Ht. subst.
    destruct Hd as [<- | [<- | [<- | []]]]; destruct Hty as [-> | ->]; cbn;
    destruct r; cbn; unfold endHandling, optionalAndOpeners, definerClause, stepMachine; cbn.
    all: split_ifs.
    all: eexists; split; [reflexivity|]; split; [assumption | repeat split].
  - intros token Hv Ht. unfold addToken, semicolonEnds. cbn. rewrite Ha.
    rewrite (kind_eqb_neq _ _ Ht).
    unfold endHandling. cbn. rewrite Hv.
    destruct Hd as [<- | [<- | [<- | []]]]; destruct Hty as [-> | ->]; cbn.
    all: try (eexists; split; [reflexivity|]; cbn; split; [assumption|]; split;
              [repeat split|]; split; [reflexivity|];
              now rewrite ?orb_true_r).
    all: destruct (js_is_zero (js_decr openBlocks)) eqn:Ez; cbn.
    all: try (eexists; split; [reflexivity|]; cbn; split; [assumption|]; split;
              [repeat split|]; split; [reflexivity|];
              now rewrite ?orb_true_r).
    all: unfold optionalAndOpeners, definerClause, stepMachine; cbn; rewrite Hv; cbn.
    all: split_ifs.
    all: eexists; split; [reflexivity|]; cbn; split; [assumption|]; split;
              [repeat split|]; split; [reflexivity|];
              now rewrite ?orb_false_r.
  - intros token p' H Hc Hc'. subst.
    destruct (String.eqb_spec (toUpperCase (Token.value token)) "END") as [E|E];
      [assumption|exfalso].
    apply String.eqb_neq in E.
    revert H. unfold addToken, semicolonEnds, endHandling, optionalAndOpeners,
      definerClause, stepMachine. cbn. rewrite Ha, E.
    destruct Hd as [<- | [<- | [<- | []]]]; destruct Hty as [-> | ->]; cbn.
    all: split_ifs.
    all: intros H; inversion H; subst; cbn in Hc'; discriminate.
  - intros r token Ht Hc. subst. unfold addToken, semicolonEnds. cbn. rewrite Ha, Ht.
    cbn. rewrite !andb_false_r. reflexivity.
Qed.

Lemma embedded_semicolon_waits_for_END_witness :
  exists p', addToken StashedDepth sqliteTrigger (Token.mk Token.semicolon ";" 39 39) = Ok p'
             /\ active p' /\ same_classification sqliteTrigger p'.
Proof.
  refine (proj1 (embedded_semicolon_waits_for_END sqliteTrigger _ _ _)
            StashedDepth (Token.mk Token.semicolon ";" 39 39) _ _).
  - split; [simpl; auto | left; reflexivity].
  - reflexivity.
  - reflexivity.
  - reflexivity.
  - reflexivity.
Defined.

(** C1 as stated fails for psql: inside two nested blocks, the token END
    brings [openBlocks] from 2 to 1 and does not set [canEnd], and the
    semicolon after it changes nothing. In [nestedInput] the statement so
    runs on to the last semicolon, past the first [END;]. *)
Lemma psql_inner_END_keeps_waiting :
  addToken StashedDepth psqlNested (Token.mk Token.keyword "END" 31 33)
    = Ok (Parser.upd (Statement.set_openBlocks (JNum 1)) psqlNested) /\
  Statement.canEnd
    (Parser.statement (Parser.upd (Statement.set_openBlocks (JNum 1)) psqlNested))
    = false /\
  addToken StashedDepth (Parser.upd (Statement.set_openBlocks (JNum 1)) psqlNested)
      (Token.mk Token.semicolon ";" 34 34)
    = Ok (Parser.upd (Statement.set_openBlocks (JNum 1)) psqlNested) /\
  parseSummary true "psql" nestedInput
    = Some (Ok [(Some "CREATE_FUNCTION", Some 0, Some 46,
                 Some (ExecStr "MODIFICATION"), Some ";")]).
Proof. repeat split; vm_compute; reflexivity. Qed.

(** On the upstream side of the merge (lines 402-409) there is no depth:
    every token END sets [canEnd], in psql too. *)
Lemma upstream_END_sets_canEnd (p : Parser) (token : Token) :
  hasEnds p -> active p ->
  toUpperCase (Token.value token) = "END" ->
  Token.type token <> Token.semicolon ->
  addToken UpstreamLanguage p token = Ok (Parser.upd (Statement.set_canEnd true) p).
Proof.
  unfold hasEnds, active. intros [Hd Hty] Ha Hv Ht.
  unfold addToken, semicolonEnds, endHandling.
  rewrite Ha, (kind_eqb_neq _ _ Ht), Hv.
  destruct Hd as [<- | [<- | [<- | []]]]; destruct Hty as [-> | ->]; reflexivity.
Qed.

(** The trigger example of the specification under sqlite: one statement,
    ended by the last semicolon. *)
Lemma sqlite_trigger_example :
  parseSummary true "sqlite" triggerInput
  = Some (Ok [(Some "CREATE_TRIGGER", Some 0, Some 44,
               Some (ExecStr "MODIFICATION"), Some ";")]).
Proof. vm_compute. reflexivity. Qed.

(** ** C2: block depth of a psql CREATE FUNCTION *)

(** C2. In the depth-tracking alternative (lines 418-428 and 443-446), for a
    psql CREATE_FUNCTION statement with [n] open blocks that has not ended
    (a psql parser keeps a number in [openBlocks] and never writes [definer],
    lemmas [addToken_countsBlocks] and [addToken_noDefiner]), and a token
    that is neither a semicolon nor whitespace:
    - a token whose value is BEGIN, IF or LOOP (in any letter case) makes
      [openBlocks] [n + 1] and changes nothing else;
    - a token whose value is END makes it [n - 1], and sets [canEnd] exactly
      when [n - 1] is zero;
    - whenever [canEnd] goes from unset to set, the token is END and
      [openBlocks] is zero afterwards. *)
Theorem psql_function_block_depth (p : Parser) (n : Z) (token : Token) :
  psqlFunction p n -> active p ->
  Statement.definer (Parser.statement p) = DefUndefined ->
  Token.type token <> Token.semicolon ->
  Token.type token <> Token.whitespace ->
  (In (toUpperCase (Token.value token)) ["BEGIN"; "IF"; "LOOP"] ->
   addToken StashedDepth p token
   = Ok (Parser.upd (Statement.set_openBlocks (JNum (n + 1))) p)) /\
  (toUpperCase (Token.value token) = "END" ->
   addToken StashedDepth p token
   = Ok (if n - 1 =? 0
         then Parser.upd (Statement.set_canEnd true)
                (Parser.upd (Statement.set_openBlocks (JNum (n - 1))) p)
         else Parser.upd (Statement.set_openBlocks (JNum (n - 1))) p)) /\
  (forall p',
     addToken StashedDepth p token = Ok p' ->
     Statement.canEnd (Parser.statement p) = false ->
     Statement.canEnd (Parser.statement p') = true ->
     toUpperCase (Token.value token) = "END" /\
     Statement.openBlocks (Parser.statement p') = JNum 0).
Proof.
  unfold psqlFunction, active. intros (Hd & Hty & Hob) Ha Hdef Hs Hw.
  pose proof (kind_eqb_neq _ _ Hs) as Es.
  pose proof (kind_eqb_neq _ _ Hw) as Ew.
  break_parser p. subst.
  unfold addToken, semicolonEnds, endHandling, optionalAndOpeners, definerClause,
    stepMachine. cbn. rewrite Ha, Es, Ew. cbn.
  split; [|split].
  - intros Hin. simpl in Hin.
    destruct Hin as [<- | [<- | [<- | []]]]; reflexivity.
  - intros ->. cbn. destruct (n - 1 =? 0); reflexivity.
  - intros p'.
    destruct (String.eqb_spec (toUpperCase (Token.value token)) "END") as [E|E].
    + rewrite E. cbn. destruct (n - 1 =? 0) eqn:Ez; cbn.
      * intros H _ _. inversion H; subst; cbn. apply Z.eqb_eq in Ez. rewrite Ez. auto.
      * intros H Hc Hc'. inversion H; subst; cbn in *. congruence.
    + split_ifs; intros H Hc Hc'; inversion H; subst; cbn in *; congruence.
Qed.

Lemma psql_function_block_depth_witness :
  addToken StashedDepth psqlNested (Token.mk Token.keyword "end" 31 33)
  = Ok (Parser.upd (Statement.set_openBlocks (JNum 1)) psqlNested).
Proof.
  refine (proj1 (proj2 (psql_function_block_depth psqlNested 2
                          (Token.mk Token.keyword "end" 31 33) _ _ _ _ _)) _).
  - repeat split.
  - reflexivity.
  - reflexivity.
  - discriminate.
  - discriminate.
  - reflexivity.
Defined.

(** ** C3: the generic dialect *)

(** C3, as amended. In the generic dialect, for a statement of any type that
    has not ended and every alternative of the merge, a semicolon token sets
    [endStatement] to ";" at once and changes nothing else; the splitter
    then seals the statement with [end] at the semicolon's offset, appends it
    to [body] and clears the active parser. What follows the semicolon starts
    a statement of its own: a token whose value is END is no leading keyword,
    and in strict mode the turn of the loop that meets it between statements
    throws 'Invalid statement parser', whatever the scanner. *)
Theorem generic_semicolon_ends_statement (r : Resolution) (p : Parser) (token : Token) :
  Parser.dialect p = "generic" -> active p ->
  Token.type token = Token.semicolon ->
  addToken r p token = Ok (Parser.upd (Statement.set_endStatement ";") p) /\
  (forall l tokenState,
     feed r l tokenState token p
     = Ok (mkLoop tokenState None
             (body l ++ [Statement.set_end (Token.end_ token)
                           (Statement.set_endStatement ";" (Parser.statement p))])%list
             (tokens l ++ [token])%list)) /\
  (forall scan d l next ts,
     statementParser l = None ->
     scan (initState_prev (prevState l)) = (next, ts) ->
     blank next = false ->
     toUpperCase (Token.value next) = "END" ->
     parseStep scan r true d l = Err (InvalidStatementParser (Token.value next))).
Proof.
  intros Hd Ha Ht.
  assert (H : addToken r p token = Ok (Parser.upd (Statement.set_endStatement ";") p)).
  { unfold active in Ha. unfold addToken, semicolonEnds. rewrite Ha, Ht, Hd. reflexivity. }
  split; [exact H|]. split.
  - intros l ts. unfold feed. rewrite H. reflexivity.
  - intros scan d l next ts Hl Hs Hb Hv. unfold parseStep. rewrite Hs, Hl.
    fold (blank next). rewrite Hb.
    unfold createStatementParserByToken. rewrite Hv. cbn.
    destruct (Token.kind_eqb (Token.type next) Token.keyword); reflexivity.
Qed.

Lemma generic_semicolon_ends_statement_witness :
  addToken StashedDepth genericTrigger (Token.mk Token.semicolon ";" 39 39)
  = Ok (Parser.upd (Statement.set_endStatement ";") genericTrigger).
Proof.
  refine (proj1 (generic_semicolon_ends_statement StashedDepth genericTrigger
                   (Token.mk Token.semicolon ";" 39 39) _ _ _)); reflexivity.
Defined.

(** C3 as stated fails: with the scanner of section 4.1, the strict parse of
    the trigger example in the generic dialect returns no statements at all.
    In the depth-tracking alternative it throws at END, the first token after
    the embedded semicolon; the other two, which do not pass over whitespace,
    throw at the space after CREATE. *)
Lemma generic_strict_trigger_raises :
  parse Scanner.scanToken StashedDepth true "generic" triggerInput
    = Some (Err (InvalidStatementParser "END")) /\
  parse Scanner.scanToken UpstreamLanguage true "generic" triggerInput
    = Some (Err (ExpectedTokens
                   [(Token.keyword, "TABLE"); (Token.keyword, "DATABASE");
                    (Token.keyword, "TRIGGER"); (Token.keyword, "FUNCTION")]
                   Token.whitespace " " 1)) /\
  parse Scanner.scanToken UpstreamEnd true "generic" triggerInput
    = Some (Err (ExpectedTokens
                   [(Token.keyword, "TABLE"); (Token.keyword, "DATABASE");
                    (Token.keyword, "TRIGGER"); (Token.keyword, "FUNCTION")]
                   Token.whitespace " " 1)).
Proof. repeat split; vm_compute; reflexivity. Qed.

(** ** C5: choosing the statement parser *)

(** The first step of the parser chosen for a leading keyword accepts that
    keyword and nothing else. *)
Lemma matching_first_step (k : string) (mk : Options -> Parser) (o : Options) (t : Token) :
  In (k, mk) matchingParsers ->
  exists s0 rest, Parser.steps (mk o) = s0 :: rest /\
    (isValidToken s0 t = true <->
     Token.type t = Token.keyword /\ toUpperCase (Token.value t) = k).
Proof.
  intros H. simpl in H.
  repeat (destruct H as [H | H]; [inversion H; subst; clear H|]); [..|contradiction].
  all: eexists; eexists; split; [reflexivity|].
  all: unfold isValidToken; cbn.
  all: destruct (Token.kind_eqb (Token.type t) Token.keyword) eqn:Ek; cbn.
  all: try (split; [discriminate | intros [Hk _]; apply kind_eqb_eq in Hk; congruence]).
  all: apply kind_eqb_eq in Ek.
  all: match goal with
       | |- context [String.eqb ?a ?b] => destruct (String.eqb_spec a b); cbn
       end.
  all: split; try discriminate; try tauto; intros [_ ?]; congruence.
Qed.

(** C5, as amended. For the first token of a statement, in strict and
    non-strict mode and every dialect:
    - a keyword token whose upper-cased value is SELECT, INSERT, UPDATE,
      DELETE, CREATE, DROP or TRUNCATE selects the matching parser;
    - any other token throws 'Invalid statement parser' in strict mode;
    - in non-strict mode a token of type unknown selects the unknown parser,
      whose single step validates every token, and which on that first token
      sets type UNKNOWN, executionType UNKNOWN and [start] to the token's;
    - in non-strict mode any other token that is no leading keyword (a string,
      a semicolon, another keyword) throws 'Invalid statement parser' too. *)
Theorem statement_parser_selection (token : Token) (strict : bool) (d : string) :
  (forall k mk,
     In (k, mk) matchingParsers ->
     Token.type token = Token.keyword ->
     toUpperCase (Token.value token) = k ->
     createStatementParserByToken token (mkOptions strict d)
     = Ok (mk (mkOptions strict d))) /\
  (isLeading token = false -> strict = true ->
   createStatementParserByToken token (mkOptions strict d)
   = Err (InvalidStatementParser (Token.value token))) /\
  (strict = false -> Token.type token = Token.unknown ->
   createStatementParserByToken token (mkOptions strict d)
   = Ok (createUnknownStatementParser false) /\
   (forall any, exists s0, Parser.steps (createUnknownStatementParser false) = [s0]
                           /\ isValidToken s0 any = true) /\
   forall r, exists p',
     addToken r (createUnknownStatementParser false) token = Ok p' /\
     Statement.type (Parser.statement p') = Some "UNKNOWN" /\
     Statement.executionType (Parser.statement p') = Some (ExecStr "UNKNOWN") /\
     Statement.start (Parser.statement p') = Some (Token.start token)) /\
  (isLeading token = false -> strict = false ->
   Token.type token <> Token.unknown ->
   createStatementParserByToken token (mkOptions strict d)
   = Err (InvalidStatementParser (Token.value token))).
Proof.
  split; [|split; [|split]].
  - intros k mk H Ht Hv. unfold createStatementParserByToken. rewrite Ht, Hv. cbn.
    simpl in H.
    repeat (destruct H as [H | H]; [inversion H; subst; reflexivity|]). contradiction.
  - unfold isLeading, createStatementParserByToken.
    destruct (Token.kind_eqb (Token.type token) Token.keyword);
      intros H ->; [|reflexivity].
    cbn [andb] in H. apply includes_false in H. cbn.
    repeat match goal with
           | |- context [String.eqb ?a ?b] =>
               destruct (String.eqb_spec a b) as [E|E];
               [exfalso; apply H; rewrite E; simpl; tauto | clear E]
           end.
    reflexivity.
  - intros -> Ht. split; [|split].
    + unfold createStatementParserByToken. rewrite Ht. reflexivity.
    + intros any. eexists. split; reflexivity.
    + intros r. unfold addToken, semicolonEnds, endHandling, optionalAndOpeners,
        definerClause, stepMachine. cbn. rewrite Ht. cbn.
      destruct r; cbn; eexists; split; try reflexivity; cbn; auto.
  - unfold isLeading, createStatementParserByToken.
    destruct (Token.kind_eqb (Token.type token) Token.keyword);
      intros H -> Ht; rewrite (kind_eqb_neq _ _ Ht); [|reflexivity].
    cbn [andb] in H. apply includes_false in H. cbn.
    repeat match goal with
           | |- context [String.eqb ?a ?b] =>
               destruct (String.eqb_spec a b) as [E|E];
               [exfalso; apply H; rewrite E; simpl; tauto | clear E]
           end.
    reflexivity.
Qed.

Lemma statement_parser_selection_witness :
  createStatementParserByToken (Token.mk Token.unknown "G" 0 0)
    (mkOptions false "generic") = Ok (createUnknownStatementParser false).
Proof.
  exact (proj1 (proj1 (proj2 (proj2
           (statement_parser_selection (Token.mk Token.unknown "G" 0 0) false "generic")))
           eq_refl eq_refl)).
Defined.

(** C5 as stated fails in non-strict mode: a statement that starts with a
    semicolon, a string or a keyword such as TABLE is not handed to the
    unknown parser; [parse] throws. *)
Lemma nonstrict_semicolon_start_raises :
  createStatementParserByToken (Token.mk Token.semicolon ";" 0 0)
    (mkOptions false "generic") = Err (InvalidStatementParser ";") /\
  parse Scanner.scanToken StashedDepth false "generic" ";"
    = Some (Err (InvalidStatementParser ";")) /\
  parse Scanner.scanToken StashedDepth false "generic" "'a';"
    = Some (Err (InvalidStatementParser "'a'")) /\
  parse Scanner.scanToken StashedDepth false "generic" "TABLE t;"
    = Some (Err (InvalidStatementParser "TABLE")).
Proof. repeat split; vm_compute; reflexivity. Qed.

(** [GRANT ALL;]: tolerated in non-strict mode, rejected in strict mode. *)
Lemma grant_example :
  parseSummary false "generic" "GRANT ALL;"
    = Some (Ok [(Some "UNKNOWN", Some 0, Some 9, Some (ExecStr "UNKNOWN"), Some ";")]) /\
  parseSummary true "generic" "GRANT ALL;"
    = Some (Err (InvalidStatementParser "G")).
Proof. split; vm_compute; reflexivity. Qed.

(** ** C6: dialects outside the recognised set *)

Lemma noRule_generic : noRule "generic".
Proof. repeat split. Qed.

Lemma noRule_outside (d : string) : ~ In d DIALECTS -> noRule d.
Proof.
  intros H. unfold noRule. repeat split.
  - apply includes_false. intros Hin. apply H. simpl in *. tauto.
  - apply String.eqb_neq. intros ->. apply H. simpl. tauto.
  - apply String.eqb_neq. intros ->. apply H. simpl. tauto.
  - apply includes_false. intros Hin. apply H. simpl in *. tauto.
Qed.

Lemma stepMachine_withDialect (d : string) (p : Parser) (token : Token) :
  stepMachine (withDialect d p) token = map_result (withDialect d) (stepMachine p token).
Proof.
  unfold stepMachine, stepAt, hasRequiredBefore, withDialect. cbn.
  destruct (truthy (Statement.type (Parser.statement p))); [reflexivity|].
  destruct (nth_error (Parser.steps p) (Parser.currentStepIndex p)) as [s0|];
    [cbn|reflexivity].
  destruct (nth_error (Parser.steps p) _) as [s1|]; [cbn|reflexivity].
  destruct (Step.requireBefore s1) as [l|]; cbn.
  - destruct (Parser.prevToken p) as [pt|]; [cbn|reflexivity].
    destruct (negb (existsb (Token.kind_eqb (Token.type pt)) l)); [reflexivity|].
    destruct (negb (isValidToken s1 token) && Parser.isStrict p)%bool; [|reflexivity].
    destruct (Step.validation s1); reflexivity.
  - destruct (negb (isValidToken s1 token) && Parser.isStrict p)%bool; [|reflexivity].
    destruct (Step.validation s1); reflexivity.
Qed.

Lemma definerClause_withDialect (d : string) (p : Parser) (token : Token) :
  noRule (Parser.dialect p) -> noRule d ->
  definerClause (withDialect d p) token
  = map_result (map_flow (withDialect d)) (definerClause p token).
Proof.
  intros (_ & _ & H3 & _) (_ & _ & G3 & _).
  destruct p as [st steps idx prev strict dial].
  unfold definerClause, prevIsWhitespace, withDialect. cbn in *. rewrite H3, G3. cbn.
  destruct (definer_is _ 0 && _)%bool; [reflexivity|].
  destruct (definer_gt _ 0); [|reflexivity].
  destruct (definer_is _ 1); cbn.
  - destruct prev as [pt|]; [cbn|reflexivity].
    destruct (Token.kind_eqb (Token.type pt) Token.whitespace); [reflexivity|].
    destruct (definer_gt _ 1); reflexivity.
  - destruct (definer_gt _ 1); cbn; [|reflexivity].
    destruct prev as [pt|]; [cbn|reflexivity].
    destruct (Token.kind_eqb (Token.type pt) Token.whitespace); reflexivity.
Qed.

Lemma optionalAndOpeners_withDialect (d : string) (p : Parser) (token : Token) :
  noRule (Parser.dialect p) -> noRule d ->
  optionalAndOpeners (withDialect d p) token
  = map_flow (withDialect d) (optionalAndOpeners p token).
Proof.
  intros (_ & H2 & _ & H4) (_ & G2 & _ & G4).
  unfold optionalAndOpeners, withDialect. cbn [Parser.dialect].
  rewrite H2, H4, G2, G4. reflexivity.
Qed.

Lemma endHandling_withDialect (r : Resolution) (d : string) (p : Parser) (token : Token) :
  noRule (Parser.dialect p) -> noRule d ->
  endHandling r (withDialect d p) token
  = map_flow (withDialect d) (endHandling r p token).
Proof.
  intros (H1 & H2 & _ & _) (G1 & G2 & _ & _).
  unfold endHandling, withDialect. cbn [Parser.dialect].
  rewrite ?H1, ?H2, ?G1, ?G2. cbn.
  destruct r; [|reflexivity|reflexivity].
  destruct (Token.kind_eqb (Token.type token) Token.whitespace); reflexivity.
Qed.

Lemma addToken_noRule (r : Resolution) (p : Parser) (token : Token) (d : string) :
  noRule (Parser.dialect p) -> noRule d ->
  addToken r (withDialect d p) token = map_result (withDialect d) (addToken r p token).
Proof.
  intros Hp Hd. unfold addToken.
  rewrite (endHandling_withDialect r d p token Hp Hd).
  replace (semicolonEnds (withDialect d p) token) with (semicolonEnds p token).
  2:{ destruct Hp as (H1 & H2 & _ & _), Hd as (G1 & G2 & _ & _).
      unfold semicolonEnds, withDialect. cbn [Parser.dialect Parser.statement].
      now rewrite H1, H2, G1, G2. }
  change (Parser.statement (withDialect d p)) with (Parser.statement p).
  destruct (truthy _); [reflexivity|].
  destruct (semicolonEnds p token); [reflexivity|].
  assert (Hflow : forall q, endHandling r p token = Continue q ->
                            Parser.dialect q = Parser.dialect p).
  { intros q. unfold endHandling. destruct r; split_ifs; intros E; inversion E; reflexivity. }
  destruct (endHandling r p token) as [q|q] eqn:E1; cbn; [reflexivity|].
  assert (Hq : noRule (Parser.dialect q)) by (rewrite (Hflow q eq_refl); exact Hp).
  rewrite (optionalAndOpeners_withDialect d q token Hq Hd).
  assert (Hflow2 : forall q', optionalAndOpeners q token = Continue q' ->
                            Parser.dialect q' = Parser.dialect q).
  { intros q'. unfold optionalAndOpeners. split_ifs; intros E; inversion E; reflexivity. }
  destruct (optionalAndOpeners q token) as [q'|q'] eqn:E2; cbn; [reflexivity|].
  assert (Hq' : noRule (Parser.dialect q')) by (rewrite (Hflow2 q' eq_refl); exact Hq).
  rewrite (definerClause_withDialect d q' token Hq' Hd).
  destruct (definerClause q' token) as [[q''|q'']|e]; cbn; try reflexivity.
  apply stepMachine_withDialect.
Qed.

Lemma create_noRule (token : Token) (strict : bool) (d : string) :
  noRule d ->
  createStatementParserByToken token (mkOptions strict "generic")
  = map_result (withDialect "generic")
      (createStatementParserByToken token (mkOptions strict d)) /\
  forall sp, createStatementParserByToken token (mkOptions strict d) = Ok sp ->
             noRule (Parser.dialect sp).
Proof.
  intros (H1 & H2 & H3 & H4).
  unfold createStatementParserByToken, createCreateStatementParser,
    stateMachineStatementParser. cbn [opt_dialect opt_isStrict].
  rewrite H4.
  split.
  - split_ifs; reflexivity.
  - intros sp. split_ifs; intros E; inversion E; subst; cbn;
      try apply noRule_generic; repeat split; assumption.
Qed.

Lemma feed_noRule (r : Resolution) (l : Loop) (ts : State) (token : Token) (sp : Parser) :
  noRule (Parser.dialect sp) ->
  feed r (genericLoop l) ts token (withDialect "generic" sp)
  = map_result genericLoop (feed r l ts token sp) /\
  forall l', feed r l ts token sp = Ok l' -> loopNoRule l'.
Proof.
  intros Hn. unfold feed.
  rewrite (addToken_noRule r sp token "generic" Hn noRule_generic).
  destruct (addToken r sp token) as [sp'|e] eqn:E; cbn; [|split; [reflexivity|discriminate]].
  unfold getStatement. cbn.
  apply addToken_frame in E. destruct E as (_ & _ & Ed).
  destruct (truthy _); split; try reflexivity.
  - intros l' E'. inversion E'. intros x Hx. discriminate.
  - intros l' E'. inversion E'. intros x Hx. cbn in Hx. inversion Hx; subst.
    now rewrite Ed.
Qed.

Lemma parseStep_noRule (scan : State -> Token * State) (r : Resolution)
    (strict : bool) (d : string) (l : Loop) :
  noRule d -> loopNoRule l ->
  parseStep scan r strict "generic" (genericLoop l)
  = map_result genericLoop (parseStep scan r strict d l) /\
  forall l', parseStep scan r strict d l = Ok l' -> loopNoRule l'.
Proof.
  intros Hd Hl. destruct l as [ps osp b tk]. unfold parseStep, loopNoRule in *.
  unfold genericLoop.
  cbn [prevState statementParser body tokens] in *.
  destruct (scan _) as [token ts].
  destruct osp as [sp|]; cbn [option_map].
  - exact (feed_noRule r (mkLoop ps (Some sp) b tk) ts token sp (Hl sp eq_refl)).
  - destruct (existsb _ _).
    + split; [reflexivity|]. intros l' E. inversion E. intros x Hx. discriminate.
    + destruct (create_noRule token strict d Hd) as [E1 E2]. rewrite E1.
      destruct (createStatementParserByToken token (mkOptions strict d)) as [sp|e];
        cbn [map_result bind]; [|split; [reflexivity|discriminate]].
      exact (feed_noRule r (mkLoop ps None b tk) ts token sp (E2 sp eq_refl)).
Qed.

Lemma parseLoop_noRule (scan : State -> Token * State) (r : Resolution)
    (strict : bool) (d : string) (fuel : nat) (topEnd : Z) (l : Loop) :
  noRule d -> loopNoRule l ->
  parseLoop scan r strict "generic" fuel topEnd (genericLoop l)
  = option_map (map_result genericLoop) (parseLoop scan r strict d fuel topEnd l).
Proof.
  intros Hd. revert l. induction fuel as [|fuel IH]; intros l Hl; cbn.
  - destruct (_ <? _); reflexivity.
  - destruct (_ <? _); [|reflexivity].
    destruct (parseStep_noRule scan r strict d l Hd Hl) as [E1 E2].
    rewrite E1.
    destruct (parseStep scan r strict d l) as [l'|e]; cbn; [|reflexivity].
    apply IH. apply E2. reflexivity.
Qed.

Lemma finish_genericLoop (top : State) (l : Loop) :
  finish top (genericLoop l) = finish top l.
Proof.
  unfold finish, genericLoop. cbn. destruct (statementParser l); reflexivity.
Qed.

(** C6, as amended. [parse] does not look at whether its dialect argument is
    one of [DIALECTS]: whatever the scanner, the input, the strict flag, the
    alternative of the merge and the number of turns the loop takes, a
    dialect outside mssql, sqlite, mysql, psql, generic gives exactly the
    result, or the error, of the generic dialect. *)
Theorem unknown_dialect_is_generic (scan : State -> Token * State) (r : Resolution)
    (strict : bool) (d : string) (input : string) :
  ~ In d DIALECTS ->
  parse scan r strict d input = parse scan r strict "generic" input /\
  forall fuel,
    parseFuel scan r strict d fuel input = parseFuel scan r strict "generic" fuel input.
Proof.
  intros H. apply noRule_outside in H.
  assert (G : forall fuel,
            parseFuel scan r strict d fuel input
            = parseFuel scan r strict "generic" fuel input).
  { intros fuel. unfold parseFuel.
    pose proof (parseLoop_noRule scan r strict d fuel
                  (State.end_ (initState_input input))
                  (mkLoop (initState_input input) None [] []) H) as E.
    unfold genericLoop in E.
    cbn [option_map statementParser prevState body tokens] in E.
    rewrite E by (intros sp Hsp; discriminate).
    destruct (parseLoop scan r strict d _ _ _) as [[l|e]|];
      cbn [option_map map_result]; try reflexivity.
    symmetry. exact (f_equal (fun x => Some (Ok x)) (finish_genericLoop _ l)). }
  split; [apply G | exact G].
Qed.

(** C6 as stated fails: the dialect "oracle" is not rejected; the parse of
    [SELECT 1;] returns its one statement. *)
Lemma unknown_dialect_accepted :
  parse Scanner.scanToken StashedDepth true "oracle" "SELECT 1;"
  = Some (Ok (ParseResult.mk "QUERY" 0 8
         [Statement.mk (Some 0) (Some 8) (Some "SELECT") (Some (ExecStr "LISTING"))
            (Some ";") false DefUndefined JUndefined]
         [Token.mk Token.keyword "SELECT" 0 5; Token.mk Token.whitespace " " 6 6;
          Token.mk Token.unknown "1" 7 7; Token.mk Token.semicolon ";" 8 8])).
Proof. vm_compute. reflexivity. Qed.

Lemma unknown_dialect_is_generic_witness :
  parse Scanner.scanToken StashedDepth true "oracle" "SELECT 1;"
  = parse Scanner.scanToken StashedDepth true "generic" "SELECT 1;".
Proof.
  apply (unknown_dialect_is_generic Scanner.scanToken StashedDepth true "oracle" "SELECT 1;").
  simpl. intros H.
  repeat (destruct H as [H | H]; [discriminate H|]). exact H.
Defined.

(** ** A statement parser past its first token, and the loop of [parse] *)

(** [EXECUTION_TYPES[type] || 'UNKNOWN'] is the table wherever the key is no
    inherited member; the types the steps assign never are. *)
Lemma executionTypeOf_table (type : option string) :
  safeType type = true ->
  executionTypeOf type = ExecStr (executionTypeTable type).
Proof.
  unfold safeType, executionTypeOf, executionTypeTable.
  destruct (includes objectPrototypeKeys (property_key type)) eqn:E; [discriminate|].
  intros _. destruct type as [s|]; [|reflexivity].
  cbn [property_key] in *. unfold assoc, EXECUTION_TYPES, includes, existsb.
  repeat match goal with
         | |- context [String.eqb s ?k] => destruct (String.eqb_spec s k); [subst; reflexivity|]
         end.
  reflexivity.
Qed.

Lemma same_classification_started (p q : Parser) :
  started p -> same_classification p q ->
  started q /\
  Statement.start (Parser.statement q) = Statement.start (Parser.statement p).
Proof.
  unfold started, classified, same_classification.
  intros (H1 & H2 & H3 & H4 & H5) (S1 & S2 & S3 & S4 & S5 & S6 & S7 & S8 & S9).
  rewrite S1, S2, S3, S6, S7. repeat split; auto.
Qed.

Lemma ended_started (p : Parser) :
  started p -> started (Parser.upd (Statement.set_endStatement ";") p).
Proof. unfold started, classified. cbn. intros H; exact H. Qed.

Lemma stepMachine_started (p q : Parser) (token : Token) :
  started p -> stepMachine p token = Ok q ->
  started q /\
  Statement.start (Parser.statement q) = Statement.start (Parser.statement p).
Proof.
  intros (H1 & H2 & H3 & H4 & H5).
  unfold stepMachine.
  destruct (truthy _).
  { intros E. inversion E; subst. repeat split; assumption. }
  unfold stepAt, hasRequiredBefore.
  destruct p as [st steps idx prev strict dial]. cbn in *.
  destruct idx as [|[|idx]]; [lia| |].
  - simpl in H1.
    repeat (destruct H1 as [H1 | H1]; [subst steps; cbn; try discriminate|]);
      [..|contradiction].
    all: destruct (negb _ && strict)%bool; [discriminate|].
    all: intros E; inversion E; subst; clear E; unfold started, classified; cbn.
    all: rewrite executionTypeOf_table by reflexivity.
    all: repeat split; auto; simpl; tauto.
  - simpl in H1.
    repeat (destruct H1 as [H1 | H1];
            [subst steps; destruct idx; cbn; discriminate|]).
    contradiction.
Qed.

Lemma addToken_started (r : Resolution) (p q : Parser) (token : Token) :
  started p -> addToken r p token = Ok q ->
  started q /\
  Statement.start (Parser.statement q) = Statement.start (Parser.statement p).
Proof.
  intros Hp H. apply addToken_cases in H.
  destruct H as [_ [-> | [S | [p' [S H]]]]].
  - split; [now apply ended_started | reflexivity].
  - now apply same_classification_started.
  - destruct (same_classification_started p p' Hp S) as [Hp' E].
    destruct (stepMachine_started p' q token Hp' H) as [Hq E'].
    split; [assumption | congruence].
Qed.

(** The token that selects a parser is taken by that parser's first step. *)
Lemma first_token_started (r : Resolution) (token : Token) (o : Options)
    (sp q : Parser) :
  createStatementParserByToken token o = Ok sp ->
  addToken r sp token = Ok q ->
  started q /\
  Statement.start (Parser.statement q) = Some (Token.start token).
Proof.
  unfold createStatementParserByToken.
  destruct (Token.kind_eqb (Token.type token) Token.keyword) eqn:Ek.
  - apply kind_eqb_eq in Ek.
    repeat match goal with
           | |- context [String.eqb (toUpperCase (Token.value token)) ?k] =>
               destruct (String.eqb_spec (toUpperCase (Token.value token)) k) as [Ev|_];
               [ intros E; inversion E; subst sp; clear E;
                 unfold addToken, semicolonEnds, endHandling, optionalAndOpeners,
                   definerClause, stepMachine, isValidToken,
                   createSelectStatementParser, createInsertStatementParser,
                   createUpdateStatementParser, createDeleteStatementParser,
                   createCreateStatementParser, createDropStatementParser,
                   createTruncateStatementParser, stateMachineStatementParser;
                 cbn [opt_dialect opt_isStrict];
                 try (destruct (includes dialectsWithOpenBlocks (opt_dialect o)));
                 cbn; rewrite Ek, Ev; cbn;
                 rewrite ?andb_false_r; cbn;
                 destruct r; cbn; rewrite ?andb_false_r; cbn; split_ifs;
                 intros E; inversion E; subst; clear E;
                 unfold started, classified; cbn;
                 repeat split; eauto; simpl; tauto
               | ]
           end.
    rewrite Ek. cbn. rewrite andb_false_r. discriminate.
  - destruct (negb (opt_isStrict o) && _)%bool eqn:Eu; [|discriminate].
    apply andb_prop in Eu. destruct Eu as [_ Eu]. apply kind_eqb_eq in Eu.
    intros E; inversion E; subst sp; clear E.
    unfold addToken, semicolonEnds, endHandling, optionalAndOpeners,
      definerClause, stepMachine, isValidToken, createUnknownStatementParser,
      stateMachineStatementParser.
    cbn. rewrite Eu. cbn. destruct r; cbn.
    all: intros E; inversion E; subst; clear E.
    all: unfold started, classified; cbn; repeat split; eauto; simpl; tauto.
Qed.

Lemma initState_prev_cursor (s : State) :
  initState_prev s = cursorState (State.input s) (State.position s).
Proof. reflexivity. Qed.

Lemma feed_cases (r : Resolution) (l l' : Loop) (ts : State) (token : Token)
    (sp : Parser) :
  feed r l ts token sp = Ok l' ->
  exists q, addToken r sp token = Ok q /\
    ((truthy (Statement.endStatement (Parser.statement q)) = true /\
      l' = mkLoop ts None
             (body l ++ [Statement.set_end (Token.end_ token) (Parser.statement q)])%list
             (tokens l ++ [token])%list) \/
     (truthy (Statement.endStatement (Parser.statement q)) = false /\
      l' = mkLoop ts (Some q) (body l) (tokens l ++ [token])%list)).
Proof.
  unfold feed, getStatement.
  destruct (addToken r sp token) as [q|e]; cbn; [|discriminate].
  destruct (truthy _) eqn:E; intros H; inversion H; subst; exists q; auto.
Qed.

(** What one turn of the loop does. *)
Lemma parseStep_cases (scan : State -> Token * State) (r : Resolution)
    (strict : bool) (d : string) (l l' : Loop) :
  parseStep scan r strict d l = Ok l' ->
  forall token ts, scan (initState_prev (prevState l)) = (token, ts) ->
  (statementParser l = None /\ blank token = true /\
   l' = mkLoop ts None (body l) (tokens l ++ [token])%list) \/
  (exists q, entered r strict d l token q /\
    ((truthy (Statement.endStatement (Parser.statement q)) = true /\
      l' = mkLoop ts None
             (body l ++ [Statement.set_end (Token.end_ token) (Parser.statement q)])%list
             (tokens l ++ [token])%list) \/
     (truthy (Statement.endStatement (Parser.statement q)) = false /\
      l' = mkLoop ts (Some q) (body l) (tokens l ++ [token])%list))).
Proof.
  unfold parseStep, entered. intros H token ts E. rewrite E in H.
  destruct (statementParser l) as [sp|].
  - right. apply feed_cases in H. destruct H as [q [H1 H2]].
    exists q. split; [left; eauto | assumption].
  - fold (blank token) in H. destruct (blank token).
    + left. inversion H. auto.
    + right.
      destruct (createStatementParserByToken token _) as [sp|e] eqn:Ec; [|discriminate].
      cbn in H. apply feed_cases in H. destruct H as [q [H1 H2]].
      exists q. split; [right; eauto | assumption].
Qed.

(** A property of the loop variables that every turn keeps holds when the
    loop is left, and the loop condition then fails. *)
Lemma parseLoop_invariant (I : Loop -> Prop) (scan : State -> Token * State)
    (r : Resolution) (strict : bool) (d : string) (topEnd : Z) :
  (forall l l', I l -> State.position (prevState l) < topEnd ->
                parseStep scan r strict d l = Ok l' -> I l') ->
  forall fuel l l', I l ->
    parseLoop scan r strict d fuel topEnd l = Some (Ok l') ->
    I l' /\ topEnd <= State.position (prevState l').
Proof.
  intros Hstep. induction fuel as [|fuel IH]; intros l l' Hl; cbn.
  - destruct (Z.ltb_spec (State.position (prevState l)) topEnd); [discriminate|].
    intros E; inversion E; subst. auto.
  - destruct (Z.ltb_spec (State.position (prevState l)) topEnd).
    + destruct (parseStep scan r strict d l) as [l1|e] eqn:E1; [|discriminate].
      apply IH. eapply Hstep; eauto.
    + intros E; inversion E; subst. auto.
Qed.

Lemma entered_started (r : Resolution) (strict : bool) (d : string) (l : Loop)
    (token : Token) (q : Parser) :
  (forall sp, statementParser l = Some sp -> started sp) ->
  entered r strict d l token q -> started q.
Proof.
  intros Hl [[sp [E1 E2]] | [_ [sp [E1 E2]]]].
  - eapply addToken_started; eauto.
  - eapply first_token_started; eauto.
Qed.

Lemma parseStep_classified (scan : State -> Token * State) (r : Resolution)
    (strict : bool) (d : string) (l l' : Loop) :
  loopClassified l -> parseStep scan r strict d l = Ok l' -> loopClassified l'.
Proof.
  intros [Hb Hs] H.
  destruct (scan (initState_prev (prevState l))) as [token ts] eqn:E.
  destruct (parseStep_cases scan r strict d l l' H token ts E)
    as [(E1 & _ & ->) | [q [Hq [[_ ->] | [_ ->]]]]]; split; cbn; try assumption.
  - intros sp Hsp; discriminate.
  - apply Forall_app. split; [assumption|]. constructor; [|constructor].
    pose proof (entered_started r strict d l token q Hs Hq) as (_ & _ & _ & Hc & _).
    exact Hc.
  - intros sp Hsp; discriminate.
  - intros sp Hsp. inversion Hsp; subst.
    exact (entered_started r strict d l token sp Hs Hq).
Qed.

(** ** C4: the execution type of every statement produced *)

(** C4. Whatever the scanner, the alternative of the merge, the strict flag,
    the dialect, the input and the number of turns the loop takes ([parse]
    is [parseFuel] with as many turns as the input has characters): every
    statement in the [body] of a result that [parse] returns has as
    [executionType] the entry of the fixed table for its [type] (LISTING for
    SELECT, MODIFICATION for the ten modifying types, UNKNOWN for any other
    type and for a statement whose type was never assigned). *)
Theorem executionType_follows_table (scan : State -> Token * State)
    (r : Resolution) (strict : bool) (d : string) (fuel : nat) (input : string)
    (res : ParseResult) :
  parseFuel scan r strict d fuel input = Some (Ok res) ->
  forall st, In st (ParseResult.body res) ->
    Statement.executionType st
    = Some (ExecStr (executionTypeTable (Statement.type st))).
Proof.
  unfold parseFuel.
  destruct (parseLoop _ _ _ _ _ _ _) as [[l|e]|] eqn:E; try discriminate.
  intros H. inversion H; subst; clear H.
  apply (parseLoop_invariant loopClassified) in E.
  - destruct E as [[Hb Hs] _]. unfold finish. cbn [ParseResult.body].
    intros st Hin.
    assert (G : Forall classified
                  match statementParser l with
                  | Some sp =>
                      if negb (truthy (Statement.endStatement (getStatement sp)))
                      then (body l ++ [Statement.set_end
                              (State.end_ (initState_input input)) (getStatement sp)])%list
                      else body l
                  | None => body l
                  end).
    { destruct (statementParser l) as [sp|]; [|assumption].
      destruct (negb _); [|assumption].
      apply Forall_app. split; [assumption|]. constructor; [|constructor].
      destruct (Hs sp eq_refl) as (_ & _ & _ & Hc & _). exact Hc. }
    rewrite Forall_forall in G. exact (G st Hin).
  - intros l0 l1 Hl0 _. now apply parseStep_classified.
  - split; [constructor | intros sp Hsp; discriminate].
Qed.

Lemma executionType_follows_table_witness :
  Statement.executionType
    (Statement.mk (Some 0) (Some 8) (Some "SELECT") (Some (ExecStr "LISTING"))
       (Some ";") false DefUndefined JUndefined)
  = Some (ExecStr (executionTypeTable (Some "SELECT"))).
Proof.
  refine (executionType_follows_table Scanner.scanToken StashedDepth true "generic"
            (String.length "SELECT 1;") "SELECT 1;" _ _
            (Statement.mk (Some 0) (Some 8) (Some "SELECT") (Some (ExecStr "LISTING"))
               (Some ";") false DefUndefined JUndefined) _).
  - vm_compute. reflexivity.
  - simpl. left. reflexivity.
Defined.

(** [SELECT 1;] in strict mode. *)
Lemma select_example :
  parseSummary true "generic" "SELECT 1;"
  = Some (Ok [(Some "SELECT", Some 0, Some 8, Some (ExecStr "LISTING"), Some ";")]).
Proof. vm_compute. reflexivity. Qed.

(** ** C8: the statements of a result are in order and apart *)

Lemma scannerOkb_at (scan : State -> Token * State) (input : string) (p : Z) :
  scannerOkb scan input = true ->
  -1 <= p < length_Z input - 1 ->
  scanStepOk scan input p = true.
Proof.
  unfold scannerOkb, length_Z. intros H Hp. rewrite forallb_forall in H.
  specialize (H (Z.to_nat (p + 1))).
  replace (Z.of_nat (Z.to_nat (p + 1)) - 1) with p in H by lia.
  apply H. apply in_seq. lia.
Qed.

Lemma bodyBelow_mono (b b' : Z) (body : list Statement) :
  b <= b' -> bodyBelow b body -> bodyBelow b' body.
Proof.
  unfold bodyBelow. intros Hb H. eapply Forall_impl; [|exact H].
  cbn. intros st [e [E1 E2]]. exists e. split; [assumption | lia].
Qed.

Lemma StronglySorted_snoc {A} (R : A -> A -> Prop) (l : list A) (a : A) :
  StronglySorted R l -> Forall (fun x => R x a) l -> StronglySorted R (l ++ [a]).
Proof.
  induction 1 as [|x l Hs IH Hx]; intros Ha; cbn.
  - constructor; constructor.
  - inversion Ha; subst. constructor; [auto|].
    apply Forall_app. split; [assumption | constructor; [assumption | constructor]].
Qed.

(** Sealing a statement that starts at [s], above the body, with an end
    [e >= s] below the new cursor keeps the body sorted and ranged. *)
Lemma seal_ranged (body : list Statement) (st : Statement) (s e b : Z) :
  StronglySorted endsBefore body -> Forall wellRanged body ->
  bodyBelow s body ->
  Statement.start st = Some s -> s <= e -> e < b ->
  StronglySorted endsBefore (body ++ [Statement.set_end e st]) /\
  Forall wellRanged (body ++ [Statement.set_end e st]) /\
  bodyBelow b (body ++ [Statement.set_end e st]).
Proof.
  intros Hs Hw Hb Est Hse Heb. split; [|split].
  - apply StronglySorted_snoc; [assumption|].
    eapply Forall_impl; [|exact Hb]. cbn. intros a [ea [E1 E2]].
    exists ea, s. cbn. auto.
  - apply Forall_app. split; [assumption|]. constructor; [|constructor].
    exists s, e. cbn. auto.
  - apply Forall_app. split.
    + apply (bodyBelow_mono s b); [lia | assumption].
    + constructor; [|constructor]. exists e. cbn. auto.
Qed.

Lemma parseStep_ranged (scan : State -> Token * State) (r : Resolution)
    (strict : bool) (d : string) (input : string) (l l' : Loop) :
  scannerOkb scan input = true ->
  loopRanged input l ->
  State.position (prevState l) < length_Z input - 1 ->
  parseStep scan r strict d l = Ok l' ->
  loopRanged input l' /\
  State.position (prevState l) < State.position (prevState l').
Proof.
  intros Hscan (Hin & Hpos & Hs & Hw & Hb & Hsp) Hlt H.
  destruct (scan (initState_prev (prevState l))) as [token ts] eqn:E.
  pose proof (scannerOkb_at scan input (State.position (prevState l)) Hscan
                (conj (proj1 Hpos) Hlt)) as Hok.
  unfold scanStepOk in Hok. rewrite initState_prev_cursor, Hin in E.
  rewrite E in Hok.
  repeat (apply andb_prop in Hok; destruct Hok as [Hok ?]).
  apply String.eqb_eq in Hok.
  repeat match goal with
         | H : (_ <? _) = true |- _ => apply Z.ltb_lt in H
         | H : (_ <=? _) = true |- _ => apply Z.leb_le in H
         end.
  rewrite <- Hin in E at 1. rewrite <- initState_prev_cursor in E.
  destruct (parseStep_cases scan r strict d l l' H token ts E)
    as [(E1 & _ & ->) | [q [Hq Hl']]].
  - split; [|cbn; lia]. unfold loopRanged. cbn.
    split; [assumption|]. split; [lia|]. split; [assumption|]. split; [assumption|].
    split; [|intros sp Hsp'; discriminate].
    apply (bodyBelow_mono (State.position (prevState l) + 1)); [lia | assumption].
  - assert (Hq' : started q /\
                  exists s, Statement.start (Parser.statement q) = Some s /\
                            s <= Token.end_ token /\ bodyBelow s (body l)).
    { destruct Hq as [[sp [E1 E2]] | [E1 [sp [E2 E3]]]].
      - destruct (Hsp sp E1) as [Hst [s (Es & Hle & Hbs)]].
        destruct (addToken_started r sp q token Hst E2) as [Hq1 Hq2].
        split; [assumption|]. exists s. rewrite Hq2. repeat split; auto. lia.
      - destruct (first_token_started r token _ sp q E2 E3) as [Hq1 Hq2].
        split; [assumption|]. exists (Token.start token).
        repeat split; auto.
        apply (bodyBelow_mono (State.position (prevState l) + 1)); [lia | assumption]. }
    destruct Hq' as [Hst [s (Es & Hle & Hbs)]].
    destruct Hl' as [[_ ->] | [_ ->]]; (split; [|cbn; lia]); unfold loopRanged; cbn.
    + destruct (seal_ranged (body l) (Parser.statement q) s (Token.end_ token)
                  (State.position ts + 1) Hs Hw Hbs Es Hle ltac:(lia))
        as (G1 & G2 & G3).
      split; [assumption|]. split; [lia|]. split; [assumption|]. split; [assumption|].
      split; [assumption | intros sp Hsp'; discriminate].
    + split; [assumption|]. split; [lia|]. split; [assumption|]. split; [assumption|].
      split.
      * apply (bodyBelow_mono (State.position (prevState l) + 1)); [lia | assumption].
      * intros sp Hsp'. inversion Hsp'; subst. split; [assumption|].
        exists s. repeat split; auto. lia.
Qed.

Lemma StronglySorted_nth {A} (R : A -> A -> Prop) (l : list A) :
  StronglySorted R l ->
  forall i j a b, (i < j)%nat ->
    nth_error l i = Some a -> nth_error l j = Some b -> R a b.
Proof.
  induction 1 as [|x l Hs IH Hx]; intros i j a b Hij Ha Hb.
  - destruct i; discriminate.
  - destruct j as [|j]; [lia|]. cbn in Hb. destruct i as [|i]; cbn in Ha.
    + inversion Ha; subst. rewrite Forall_forall in Hx. apply Hx.
      eapply nth_error_In; eauto.
    + apply (IH i j); auto. lia.
Qed.

Lemma finish_ranged (input : string) (l : Loop) :
  loopRanged input l ->
  StronglySorted endsBefore (ParseResult.body (finish (initState_input input) l)) /\
  Forall wellRanged (ParseResult.body (finish (initState_input input) l)).
Proof.
  intros (Hin & Hpos & Hs & Hw & Hb & Hsp). unfold finish, getStatement. cbn.
  destruct (statementParser l) as [sp|]; [|auto].
  destruct (negb _); [|auto].
  destruct (Hsp sp eq_refl) as [_ [s (Es & Hle & Hbs)]].
  destruct (seal_ranged (body l) (Parser.statement sp) s (length_Z input - 1)
              (length_Z input) Hs Hw Hbs Es ltac:(lia) ltac:(lia)) as (G1 & G2 & _).
  auto.
Qed.

Lemma loopRanged_init (input : string) :
  loopRanged input (mkLoop (initState_input input) None [] []).
Proof.
  unfold loopRanged, length_Z. cbn.
  split; [reflexivity|]. split; [lia|]. split; [constructor|].
  split; [constructor|]. split; [constructor|]. intros sp Hsp. discriminate.
Qed.

(** With a scanner that moves the cursor on, the loop of [parse] ends within
    as many turns as the cursor is short of the end. *)
Lemma parseLoop_returns (scan : State -> Token * State) (r : Resolution)
    (strict : bool) (d : string) (input : string) :
  scannerOkb scan input = true ->
  forall fuel l,
    loopRanged input l ->
    length_Z input - 1 - State.position (prevState l) <= Z.of_nat fuel ->
    exists out, parseLoop scan r strict d fuel (length_Z input - 1) l = Some out.
Proof.
  intros Hscan. induction fuel as [|fuel IH]; intros l Hl Hf; cbn.
  - destruct (Z.ltb_spec (State.position (prevState l)) (length_Z input - 1));
      [lia | eauto].
  - destruct (Z.ltb_spec (State.position (prevState l)) (length_Z input - 1));
      [|eauto].
    destruct (parseStep scan r strict d l) as [l'|e] eqn:E; [|eauto].
    destruct (parseStep_ranged scan r strict d input l l' Hscan Hl H E) as [Hl' Hlt].
    apply IH; [assumption | lia].
Qed.

(** [parse] returns, with a result or an error, on every input the scanner
    handles as [scannerOkb] asks. *)
Lemma parse_returns (scan : State -> Token * State) (r : Resolution)
    (strict : bool) (d : string) (input : string) :
  scannerOkb scan input = true ->
  exists out, parse scan r strict d input = Some out.
Proof.
  intros Hscan. unfold parse, parseFuel.
  destruct (parseLoop_returns scan r strict d input Hscan (String.length input)
              (mkLoop (initState_input input) None [] []) (loopRanged_init input))
    as [out E].
  { unfold length_Z. cbn. lia. }
  change (State.end_ (initState_input input)) with (length_Z input - 1).
  rewrite E. destruct out; eauto.
Qed.

(** The body of every result is sorted by [endsBefore] and each statement
    has [start <= end], when the scanner does what [parse] needs. *)
Lemma parse_body_ranged (scan : State -> Token * State) (r : Resolution)
    (strict : bool) (d : string) (input : string) (res : ParseResult) :
  scannerOkb scan input = true ->
  parse scan r strict d input = Some (Ok res) ->
  StronglySorted endsBefore (ParseResult.body res) /\
  Forall wellRanged (ParseResult.body res).
Proof.
  intros Hscan. unfold parse, parseFuel.
  change (State.end_ (initState_input input)) with (length_Z input - 1).
  destruct (parseLoop _ _ _ _ _ _ _) as [[l|e]|] eqn:E; try discriminate.
  intros H. inversion H; subst; clear H.
  apply (parseLoop_invariant (loopRanged input)) in E.
  - destruct E as [Hl _]. exact (finish_ranged input l Hl).
  - intros l0 l1 Hl0 Hlt Hstep.
    now destruct (parseStep_ranged scan r strict d input l0 l1 Hscan Hl0 Hlt Hstep).
  - apply loopRanged_init.
Qed.

(** Sortedness and ranges, read off for two statements of the body. *)
Lemma ranged_pairwise (body : list Statement) :
  StronglySorted endsBefore body -> Forall wellRanged body ->
  forall i j a b, (i < j)%nat ->
    nth_error body i = Some a -> nth_error body j = Some b ->
    exists sa ea sb eb,
      Statement.start a = Some sa /\ Statement.end_ a = Some ea /\
      Statement.start b = Some sb /\ Statement.end_ b = Some eb /\
      sa <= ea /\ ea < sb /\ sb <= eb.
Proof.
  intros Hs Hw i j a b Hij Ha Hb.
  destruct (StronglySorted_nth _ _ Hs i j a b Hij Ha Hb) as [ea [sb (E1 & E2 & E3)]].
  rewrite Forall_forall in Hw.
  destruct (Hw a (nth_error_In _ _ Ha)) as [sa [ea' (A1 & A2 & A3)]].
  destruct (Hw b (nth_error_In _ _ Hb)) as [sb' [eb (B1 & B2 & B3)]].
  exists sa, ea, sb, eb.
  assert (ea' = ea) by congruence. assert (sb' = sb) by congruence. subst.
  repeat split; assumption.
Qed.

(** C8. Let the scanner, on this input, leave the input alone, start each
    token after the cursor, make it non-empty and move the cursor to its end
    or beyond within the input ([scannerOkb], a check over the cursors of the
    input; the scanner modelled from the specification passes it on every
    input, lemma [scanToken_ok]). Then for every result [parse] returns,
    whatever the alternative of the merge, the strict flag and the dialect:
    any two statements of [body], the first at a smaller index, have their
    offsets set, each with [start <= end], and the first ends before the
    second starts. So [body] is sorted by [start] and no two ranges overlap. *)
Theorem body_sorted_disjoint (scan : State -> Token * State) (r : Resolution)
    (strict : bool) (d : string) (input : string) (res : ParseResult) :
  scannerOkb scan input = true ->
  parse scan r strict d input = Some (Ok res) ->
  forall i j a b, (i < j)%nat ->
    nth_error (ParseResult.body res) i = Some a ->
    nth_error (ParseResult.body res) j = Some b ->
    exists sa ea sb eb,
      Statement.start a = Some sa /\ Statement.end_ a = Some ea /\
      Statement.start b = Some sb /\ Statement.end_ b = Some eb /\
      sa <= ea /\ ea < sb /\ sb <= eb.
Proof.
  intros Hscan Hres.
  destruct (parse_body_ranged scan r strict d input res Hscan Hres) as [Hs Hw].
  now apply ranged_pairwise.
Qed.

Lemma body_sorted_disjoint_witness :
  exists sa ea sb eb,
    Statement.start selectOne = Some sa /\ Statement.end_ selectOne = Some ea /\
    Statement.start insertTwo = Some sb /\ Statement.end_ insertTwo = Some eb /\
    sa <= ea /\ ea < sb /\ sb <= eb.
Proof.
  refine (body_sorted_disjoint Scanner.scanToken StashedDepth true "generic"
            twoStatements twoStatementsResult _ _ 0%nat 1%nat selectOne insertTwo _ _ _).
  - vm_compute. reflexivity.
  - vm_compute. reflexivity.
  - lia.
  - reflexivity.
  - reflexivity.
Defined.

Lemma spanLen_le (f : ascii -> bool) (l : list ascii) :
  (Scanner.spanLen f l <= List.length l)%nat.
Proof.
  induction l as [|c l IH]; cbn; [lia|]. destruct (f c); lia.
Qed.

Lemma untilClose_le (l : list ascii) :
  (Scanner.untilClose l <= List.length l)%nat.
Proof.
  induction l as [|c l IH]; cbn; [lia|].
  destruct l as [|d l]; [cbn; lia|].
  destruct (_ && _)%bool; cbn in *; lia.
Qed.

Lemma untilQuote_le (q : ascii) (l : list ascii) :
  (Scanner.untilQuote q l <= List.length l)%nat.
Proof.
  induction l as [|c l IH]; cbn; [lia|]. destruct (Ascii.eqb c q); lia.
Qed.

(** The scanner takes at least one character and no more than there are. *)
Lemma recognise_bounds (l : list ascii) :
  l <> [] ->
  (1 <= snd (Scanner.recognise l) <= List.length l)%nat.
Proof.
  destruct l as [|c r]; [congruence|]. intros _. unfold Scanner.recognise.
  pose proof (spanLen_le Scanner.isWhitespace r).
  pose proof (spanLen_le Scanner.isWordChar r).
  destruct (Scanner.isWhitespace c); [cbn; lia|].
  destruct r as [|d r'].
  - repeat match goal with |- context [if ?b then _ else _] => destruct b end;
      cbn; lia.
  - pose proof (spanLen_le (fun x => negb (Scanner.isNewline x)) r').
    pose proof (untilClose_le r').
    pose proof (untilQuote_le c (d :: r')).
    repeat match goal with |- context [if ?b then _ else _] => destruct b end;
      cbn [snd List.length] in *; lia.
Qed.

Lemma length_list_ascii (s : string) :
  List.length (list_ascii_of_string s) = String.length s.
Proof. induction s as [|c s IH]; cbn; congruence. Qed.

(** The scanner modelled from the specification meets what [parse] needs, on
    every input. *)
Lemma scanToken_ok (input : string) :
  scannerOkb Scanner.scanToken input = true.
Proof.
  unfold scannerOkb. apply forallb_forall. intros i Hi. apply in_seq in Hi.
  unfold scanStepOk, Scanner.scanToken, cursorState, length_Z.
  cbn [State.input State.start State.end_ State.position].
  replace (Z.to_nat (Z.of_nat i - 1 + 1)) with i by lia.
  pose proof (recognise_bounds (skipn i (list_ascii_of_string input))) as Hb.
  assert (Hlen : List.length (skipn i (list_ascii_of_string input))
                 = (String.length input - i)%nat).
  { rewrite length_skipn, length_list_ascii. reflexivity. }
  destruct (Scanner.recognise (skipn i (list_ascii_of_string input))) as [kind n].
  cbn [snd] in Hb.
  assert (Hne : skipn i (list_ascii_of_string input) <> []).
  { intros E. rewrite E in Hlen. cbn in Hlen. lia. }
  specialize (Hb Hne). rewrite Hlen in Hb.
  cbn [State.input State.position Token.start Token.end_].
  rewrite String.eqb_refl. cbn [andb].
  repeat (apply andb_true_intro; split);
    first [apply Z.ltb_lt | apply Z.leb_le]; lia.
Qed.

(** With that scanner the statements of every result are in order and
    apart, and [parse] returns on every input. *)
Lemma scanned_body_sorted_disjoint (r : Resolution) (strict : bool) (d : string)
    (input : string) :
  (exists out, parse Scanner.scanToken r strict d input = Some out) /\
  forall res, parse Scanner.scanToken r strict d input = Some (Ok res) ->
    forall i j a b, (i < j)%nat ->
      nth_error (ParseResult.body res) i = Some a ->
      nth_error (ParseResult.body res) j = Some b ->
      exists sa ea sb eb,
        Statement.start a = Some sa /\ Statement.end_ a = Some ea /\
        Statement.start b = Some sb /\ Statement.end_ b = Some eb /\
        sa <= ea /\ ea < sb /\ sb <= eb.
Proof.
  split.
  - apply parse_returns, scanToken_ok.
  - intros res Hres.
    destruct (parse_body_ranged _ r strict d input res (scanToken_ok input) Hres).
    now apply ranged_pairwise.
Qed.

(** ** C7: the DEFINER clause of MySQL *)

Lemma mysql_whitespace (p : Parser) (t : Token) :
  mysqlActive p -> isWhitespaceToken t ->
  addToken StashedDepth p t = Ok (Parser.set_prevToken t p).
Proof.
  unfold mysqlActive, active, isWhitespaceToken. intros [Hd Ha] Ht.
  unfold addToken, semicolonEnds, endHandling. rewrite Ha, Ht, Hd. reflexivity.
Qed.

Lemma mysqlActive_set_prevToken (p : Parser) (t : Token) :
  mysqlActive p -> mysqlActive (Parser.set_prevToken t p).
Proof. intros H; exact H. Qed.

(** A run of whitespace tokens only moves [prevToken]. *)
Lemma mysql_whitespaces (ws : list Token) (p : Parser) (t0 : Token) :
  mysqlActive p -> Parser.prevToken p = Some t0 ->
  Forall isWhitespaceToken ws ->
  addTokens StashedDepth p ws = Ok (Parser.set_prevToken (last ws t0) p).
Proof.
  revert p t0. induction ws as [|t ws IH]; intros p t0 Hp Hprev Hws.
  - destruct p; cbn in *; subst; reflexivity.
  - inversion Hws; subst. cbn [addTokens].
    rewrite mysql_whitespace by assumption. cbn [bind].
    rewrite (IH _ t) by (auto using mysqlActive_set_prevToken).
    rewrite last_cons_default. reflexivity.
Qed.

(** Up to the step machine, a token that is no semicolon and no whitespace
    goes through the MySQL rules as follows. *)
Lemma mysql_token (p : Parser) (t : Token) :
  mysqlActive p ->
  Token.type t <> Token.whitespace -> Token.type t <> Token.semicolon ->
  addToken StashedDepth p t
  = bind (definerClause p t) (fun f =>
      match f with Return q => Ok q | Continue q => stepMachine q t end).
Proof.
  unfold mysqlActive, active. intros [Hd Ha] Hw Hs.
  destruct p as [st steps idx prev strict dial]. cbn in Hd, Ha. subst dial.
  unfold addToken, semicolonEnds, endHandling, optionalAndOpeners.
  cbn [Parser.statement Parser.dialect].
  rewrite Ha, (kind_eqb_neq _ _ Hw), (kind_eqb_neq _ _ Hs). reflexivity.
Qed.

Lemma addTokens_app (r : Resolution) (p : Parser) (a b : list Token) :
  addTokens r p (a ++ b) = bind (addTokens r p a) (fun q => addTokens r q b).
Proof.
  revert p. induction a as [|t a IH]; intros p; [reflexivity|].
  cbn [addTokens app]. destruct (addToken r p t) as [q|e]; cbn [bind]; auto.
Qed.

(** DEFINER, in any letter case, starts the clause: counter 0. *)
Lemma definer_keyword (p : Parser) (t : Token) :
  mysqlActive p -> toUpperCase (Token.value t) = "DEFINER" ->
  Token.type t <> Token.whitespace -> Token.type t <> Token.semicolon ->
  addToken StashedDepth p t = Ok (inClause 0 t p).
Proof.
  intros Hp Hv Hw Hs. rewrite mysql_token by assumption.
  unfold definerClause. rewrite (proj1 Hp), Hv. reflexivity.
Qed.

(** [=] at counter 0: counter 1. *)
Lemma definer_equals (p : Parser) (t : Token) :
  mysqlActive p -> Statement.definer (Parser.statement p) = DefNum 0 ->
  Token.value t = "=" ->
  Token.type t <> Token.whitespace -> Token.type t <> Token.semicolon ->
  addToken StashedDepth p t = Ok (inClause 1 t p).
Proof.
  intros Hp Hd Hv Hw Hs. rewrite mysql_token by assumption.
  unfold definerClause. rewrite (proj1 Hp), Hd, Hv. reflexivity.
Qed.

(** At counter 1, a plain token that follows whitespace: counter 2. *)
Lemma definer_principal_first (p : Parser) (t w : Token) :
  mysqlActive p -> Statement.definer (Parser.statement p) = DefNum 1 ->
  Parser.prevToken p = Some w -> isWhitespaceToken w -> plainToken t ->
  addToken StashedDepth p t = Ok (inClause 2 t p).
Proof.
  intros Hp Hd Hprev Hw (Ht1 & Ht2 & Ht3). rewrite mysql_token by assumption.
  unfold definerClause, prevIsWhitespace.
  apply String.eqb_neq in Ht3. rewrite (proj1 Hp), Hd, Hprev, Ht3, Hw. reflexivity.
Qed.

(** At counter 2, a plain token that follows a token other than whitespace is
    swallowed. *)
Lemma definer_principal_more (p : Parser) (t t0 : Token) :
  mysqlActive p -> Statement.definer (Parser.statement p) = DefNum 2 ->
  Parser.prevToken p = Some t0 -> Token.type t0 <> Token.whitespace ->
  plainToken t ->
  addToken StashedDepth p t = Ok (Parser.set_prevToken t p).
Proof.
  intros Hp Hd Hprev Hw (Ht1 & Ht2 & Ht3). rewrite mysql_token by assumption.
  unfold definerClause, prevIsWhitespace.
  apply String.eqb_neq in Ht3.
  rewrite (proj1 Hp), Hd, Hprev, Ht3, (kind_eqb_neq _ _ Hw). reflexivity.
Qed.

(** At counter 2, a plain token that follows whitespace ends the clause: the
    counter becomes [false] and the token goes to the step machine. *)
Lemma definer_ends (p : Parser) (t w : Token) :
  mysqlActive p -> Statement.definer (Parser.statement p) = DefNum 2 ->
  Parser.prevToken p = Some w -> isWhitespaceToken w -> plainToken t ->
  addToken StashedDepth p t
  = stepMachine (Parser.upd (Statement.set_definer DefFalse) p) t.
Proof.
  intros Hp Hd Hprev Hw (Ht1 & Ht2 & Ht3). rewrite mysql_token by assumption.
  unfold definerClause, prevIsWhitespace.
  apply String.eqb_neq in Ht3. rewrite (proj1 Hp), Hd, Hprev, Ht3, Hw. reflexivity.
Qed.

(** At counter 1, a plain token that does not follow whitespace is not taken
    as the principal: the counter becomes [false] and the token goes to the
    step machine. *)
Lemma definer_without_whitespace (p : Parser) (t e : Token) :
  mysqlActive p -> Statement.definer (Parser.statement p) = DefNum 1 ->
  Parser.prevToken p = Some e -> Token.type e <> Token.whitespace ->
  plainToken t ->
  addToken StashedDepth p t
  = stepMachine (Parser.upd (Statement.set_definer DefFalse) p) t.
Proof.
  intros Hp Hd Hprev Hw (Ht1 & Ht2 & Ht3). rewrite mysql_token by assumption.
  unfold definerClause, prevIsWhitespace.
  apply String.eqb_neq in Ht3.
  rewrite (proj1 Hp), Hd, Hprev, Ht3, (kind_eqb_neq _ _ Hw). reflexivity.
Qed.

(** The further tokens of the principal. *)
Lemma principal_rest (rest : list Token) (p : Parser) (t0 : Token) :
  mysqlActive p -> Statement.definer (Parser.statement p) = DefNum 2 ->
  Parser.prevToken p = Some t0 -> Token.type t0 <> Token.whitespace ->
  Forall plainToken rest ->
  addTokens StashedDepth p rest = Ok (Parser.set_prevToken (last rest t0) p).
Proof.
  revert p t0. induction rest as [|t rest IH]; intros p t0 Hp Hd Hprev Hw Hr.
  - destruct p; cbn in *; subst; reflexivity.
  - inversion Hr; subst. cbn [addTokens].
    rewrite (definer_principal_more p t t0) by assumption. cbn [bind].
    rewrite (IH _ t); auto.
    + rewrite last_cons_default. reflexivity.
    + destruct H1 as (? & _). assumption.
Qed.

Lemma addTokens_cons (r : Resolution) (p : Parser) (t : Token) (l : list Token) :
  addTokens r p (t :: l) = bind (addToken r p t) (fun q => addTokens r q l).
Proof. reflexivity. Qed.

Lemma clause_consumed (c : DefinerClause) (p : Parser) :
  mysqlActive p -> wellFormedClause c ->
  addTokens StashedDepth p (clauseHead c)
    = Ok (inClause 0 (last (dc_ws1 c) (dc_keyword c)) p) /\
  addTokens StashedDepth (inClause 0 (last (dc_ws1 c) (dc_keyword c)) p)
      (clauseEquals c)
    = Ok (inClause 1 (last (dc_ws2 c) (dc_w2 c)) p) /\
  addTokens StashedDepth (inClause 1 (last (dc_ws2 c) (dc_w2 c)) p)
      (clausePrincipal c)
    = Ok (inClause 2 (last (dc_rest c) (dc_t1 c)) p) /\
  addTokens StashedDepth (inClause 2 (last (dc_rest c) (dc_t1 c)) p)
      (clauseTail c)
    = Ok (inClause 2 (last (dc_ws3 c) (dc_w3 c)) p) /\
  addTokens StashedDepth p (clauseTokens c)
    = Ok (inClause 2 (last (dc_ws3 c) (dc_w3 c)) p).
Proof.
  intros Hp (K1 & K2 & K3 & W1 & E1 & E2 & E3 & W2 & P & W3).
  assert (A1 : addTokens StashedDepth p (clauseHead c)
               = Ok (inClause 0 (last (dc_ws1 c) (dc_keyword c)) p)).
  { unfold clauseHead. rewrite addTokens_cons.
    rewrite definer_keyword by assumption. cbn [bind].
    rewrite (mysql_whitespaces (dc_ws1 c) _ (dc_keyword c)); auto. }
  assert (A2 : addTokens StashedDepth (inClause 0 (last (dc_ws1 c) (dc_keyword c)) p)
                 (clauseEquals c)
               = Ok (inClause 1 (last (dc_ws2 c) (dc_w2 c)) p)).
  { unfold clauseEquals. rewrite addTokens_cons.
    rewrite definer_equals by auto. cbn [bind].
    rewrite (mysql_whitespaces (dc_w2 c :: dc_ws2 c) _ (dc_equals c)); auto.
    rewrite last_cons_default. reflexivity. }
  assert (A3 : addTokens StashedDepth (inClause 1 (last (dc_ws2 c) (dc_w2 c)) p)
                 (clausePrincipal c)
               = Ok (inClause 2 (last (dc_rest c) (dc_t1 c)) p)).
  { unfold clausePrincipal. rewrite addTokens_cons.
    inversion P as [|? ? Pt Pr]; subst. inversion W2 as [|? ? Wa Wb]; subst.
    rewrite (definer_principal_first _ (dc_t1 c) (last (dc_ws2 c) (dc_w2 c)));
      [ | exact Hp | reflexivity | reflexivity
        | apply last_Forall; assumption | assumption ].
    cbn [bind].
    rewrite (principal_rest (dc_rest c) _ (dc_t1 c));
      [ reflexivity | exact Hp | reflexivity | reflexivity
        | exact (proj1 Pt) | assumption ]. }
  assert (A4 : addTokens StashedDepth (inClause 2 (last (dc_rest c) (dc_t1 c)) p)
                 (clauseTail c)
               = Ok (inClause 2 (last (dc_ws3 c) (dc_w3 c)) p)).
  { unfold clauseTail.
    rewrite (mysql_whitespaces (dc_w3 c :: dc_ws3 c) _ (last (dc_rest c) (dc_t1 c)));
      auto.
    rewrite last_cons_default. reflexivity. }
  repeat split; try assumption.
  unfold clauseTokens.
  rewrite addTokens_app, A1. cbn [bind].
  rewrite addTokens_app, A2. cbn [bind].
  rewrite addTokens_app, A3. cbn [bind]. exact A4.
Qed.

Lemma simResult_refl (r : Resolution) (q : Parser) (t : Token) :
  Parser.steps q = createSteps -> Parser.dialect q = "mysql" ->
  simResult (addToken r q t) (addToken r q t).
Proof.
  intros Hs Hd. unfold simResult.
  destruct (addToken r q t) as [q'|e] eqn:E; [|reflexivity].
  apply addToken_frame in E. destruct E as (E1 & E2 & E3).
  unfold definerSim, sameButDefiner. rewrite E1, E3.
  repeat split; auto.
Qed.

(** The step machine of a CREATE parser does not look at the counter. *)
Lemma stepMachine_definerSim (p1 p2 : Parser) (t : Token) :
  Parser.steps p1 = createSteps -> Parser.steps p2 = createSteps ->
  Parser.currentStepIndex p1 = Parser.currentStepIndex p2 ->
  Parser.isStrict p1 = Parser.isStrict p2 ->
  Parser.dialect p1 = "mysql" -> Parser.dialect p2 = "mysql" ->
  sameButDefiner (Parser.statement p1) (Parser.statement p2) ->
  Statement.definer (Parser.statement p1) = DefFalse ->
  Statement.definer (Parser.statement p2) = DefUndefined ->
  simResult (stepMachine p1 t) (stepMachine p2 t).
Proof.
  destruct p1 as [st1 steps1 idx1 prev1 strict1 dial1].
  destruct p2 as [st2 steps2 idx2 prev2 strict2 dial2].
  destruct st1, st2. unfold sameButDefiner. cbn.
  intros -> -> -> -> -> -> (-> & -> & -> & -> & -> & -> & ->) -> ->.
  unfold stepMachine, stepAt, hasRequiredBefore. cbn.
  destruct (truthy type0).
  { cbn. unfold definerSim, sameButDefiner. cbn. repeat split; auto. }
  destruct idx2 as [|[|idx2]]; cbn.
  - destruct (negb _ && strict2)%bool; cbn; [reflexivity|].
    unfold definerSim, sameButDefiner. cbn. repeat split; auto.
  - destruct (negb _ && strict2)%bool; cbn; [reflexivity|].
    unfold definerSim, sameButDefiner. cbn. repeat split; auto.
  - destruct idx2; reflexivity.
Qed.

Lemma addToken_definerSim (q1 q2 : Parser) (t : Token) :
  definerSim q1 q2 ->
  simResult (addToken StashedDepth q1 t) (addToken StashedDepth q2 t).
Proof.
  intros (S1 & S2 & Si & Ss & D1 & D2 & Hst & Hmode).
  destruct Hmode as [HA | [HB | ->]]; [| |now apply simResult_refl].
  - (* the counter is 2 and whitespace came last *)
    destruct HA as (Hd1 & [w [Hprev Hw]] & Hd2).
    destruct (truthy (Statement.endStatement (Parser.statement q1))) eqn:Ea.
    { rewrite (addToken_ended _ q1 t Ea).
      rewrite (addToken_ended _ q2 t); [reflexivity|].
      destruct Hst as (_ & _ & _ & _ & <- & _). exact Ea. }
    assert (Ea2 : truthy (Statement.endStatement (Parser.statement q2)) = false).
    { destruct Hst as (_ & _ & _ & _ & <- & _). exact Ea. }
    destruct (Token.kind_eqb (Token.type t) Token.semicolon) eqn:Es.
    { unfold addToken, semicolonEnds. rewrite Ea, Ea2, Es, D1, D2. cbn.
      unfold definerSim, sameButDefiner in *. cbn.
      repeat split; try tauto. left. eauto. }
    destruct (Token.kind_eqb (Token.type t) Token.whitespace) eqn:Ew.
    { apply kind_eqb_eq in Ew.
      rewrite !mysql_whitespace by (unfold mysqlActive, active; auto).
      cbn. unfold definerSim, sameButDefiner in *. cbn.
      repeat split; try tauto. left. eauto. }
    assert (Hs : Token.type t <> Token.semicolon).
    { intros E. apply kind_eqb_eq in E. congruence. }
    assert (Hw' : Token.type t <> Token.whitespace).
    { intros E. apply kind_eqb_eq in E. congruence. }
    rewrite !mysql_token by (unfold mysqlActive, active; auto).
    unfold definerClause, prevIsWhitespace. rewrite D1, D2, Hd1, Hd2, Hprev, Hw.
    destruct (String.eqb (toUpperCase (Token.value t)) "DEFINER"); cbn.
    + replace (Parser.set_prevToken t (Parser.upd (Statement.set_definer (DefNum 0)) q2))
        with (Parser.set_prevToken t (Parser.upd (Statement.set_definer (DefNum 0)) q1)).
      * unfold definerSim, sameButDefiner. cbn. repeat split; auto.
      * destruct q1 as [st1 ? ? ? ? ?], q2 as [st2 ? ? ? ? ?]. destruct st1, st2.
        unfold sameButDefiner in Hst. cbn in *.
        destruct Hst as (-> & -> & -> & -> & -> & -> & ->). subst. reflexivity.
    + apply stepMachine_definerSim; auto.
  - (* the counter is spent *)
    destruct HB as (Hd1 & Hd2).
    destruct (truthy (Statement.endStatement (Parser.statement q1))) eqn:Ea.
    { rewrite (addToken_ended _ q1 t Ea).
      rewrite (addToken_ended _ q2 t); [reflexivity|].
      destruct Hst as (_ & _ & _ & _ & <- & _). exact Ea. }
    assert (Ea2 : truthy (Statement.endStatement (Parser.statement q2)) = false).
    { destruct Hst as (_ & _ & _ & _ & <- & _). exact Ea. }
    destruct (Token.kind_eqb (Token.type t) Token.semicolon) eqn:Es.
    { unfold addToken, semicolonEnds. rewrite Ea, Ea2, Es, D1, D2. cbn.
      unfold definerSim, sameButDefiner in *. cbn.
      repeat split; try tauto. }
    destruct (Token.kind_eqb (Token.type t) Token.whitespace) eqn:Ew.
    { apply kind_eqb_eq in Ew.
      rewrite !mysql_whitespace by (unfold mysqlActive, active; auto).
      cbn. unfold definerSim, sameButDefiner in *. cbn.
      repeat split; try tauto. }
    assert (Hs : Token.type t <> Token.semicolon).
    { intros E. apply kind_eqb_eq in E. congruence. }
    assert (Hw' : Token.type t <> Token.whitespace).
    { intros E. apply kind_eqb_eq in E. congruence. }
    rewrite !mysql_token by (unfold mysqlActive, active; auto).
    unfold definerClause, prevIsWhitespace. rewrite D1, D2, Hd1, Hd2.
    destruct (String.eqb (toUpperCase (Token.value t)) "DEFINER"); cbn.
    + replace (Parser.set_prevToken t (Parser.upd (Statement.set_definer (DefNum 0)) q2))
        with (Parser.set_prevToken t (Parser.upd (Statement.set_definer (DefNum 0)) q1)).
      * unfold definerSim, sameButDefiner. cbn. repeat split; auto.
      * destruct q1 as [st1 ? ? ? ? ?], q2 as [st2 ? ? ? ? ?]. destruct st1, st2.
        unfold sameButDefiner in Hst. cbn in *.
        destruct Hst as (-> & -> & -> & -> & -> & -> & ->). subst. reflexivity.
    + apply stepMachine_definerSim; auto.
Qed.

Lemma addTokens_definerSim (tail : list Token) (q1 q2 : Parser) :
  definerSim q1 q2 ->
  simResult (addTokens StashedDepth q1 tail) (addTokens StashedDepth q2 tail).
Proof.
  revert q1 q2. induction tail as [|t tail IH]; intros q1 q2 H; [exact H|].
  rewrite !addTokens_cons.
  pose proof (addToken_definerSim q1 q2 t H) as Hs. unfold simResult in Hs.
  destruct (addToken StashedDepth q1 t) as [q1'|e1],
           (addToken StashedDepth q2 t) as [q2'|e2]; cbn [bind];
    try contradiction.
  - apply IH. exact Hs.
  - exact Hs.
Qed.

(** What the DEFINER rules achieve. In the depth-tracking alternative, let
    a MySQL CREATE parser that has not ended and holds no definer counter
    meet a clause DEFINER = principal in which whitespace follows [=] and
    follows the principal. Then
    - DEFINER and the whitespace after it leave the counter at 0, [=] and the
      whitespace after it at 1, the first token of the principal puts it to
      2, the further tokens of the principal and the whitespace after it
      leave it at 2; nothing but the counter and [prevToken] changes, so the
      steps are not touched;
    - whatever tokens follow, the run with the clause and the run without it
      end alike: with the same error, or with statements that agree on every
      field but [definer] (the type among them). *)
Lemma spaced_definer_clause_is_transparent (c : DefinerClause) (p : Parser) :
  mysqlActive p -> Parser.steps p = createSteps ->
  Statement.definer (Parser.statement p) = DefUndefined ->
  wellFormedClause c ->
  (addTokens StashedDepth p (clauseHead c)
     = Ok (inClause 0 (last (dc_ws1 c) (dc_keyword c)) p) /\
   addTokens StashedDepth (inClause 0 (last (dc_ws1 c) (dc_keyword c)) p)
       (clauseEquals c)
     = Ok (inClause 1 (last (dc_ws2 c) (dc_w2 c)) p) /\
   addTokens StashedDepth (inClause 1 (last (dc_ws2 c) (dc_w2 c)) p)
       (clausePrincipal c)
     = Ok (inClause 2 (last (dc_rest c) (dc_t1 c)) p) /\
   addTokens StashedDepth (inClause 2 (last (dc_rest c) (dc_t1 c)) p)
       (clauseTail c)
     = Ok (inClause 2 (last (dc_ws3 c) (dc_w3 c)) p) /\
   addTokens StashedDepth p (clauseTokens c)
     = Ok (inClause 2 (last (dc_ws3 c) (dc_w3 c)) p)) /\
  (forall tail,
     simResult (addTokens StashedDepth p (clauseTokens c ++ tail))
               (addTokens StashedDepth p tail)).
Proof.
  intros Hp Hs Hd Hc.
  pose proof (clause_consumed c p Hp Hc) as Hcons.
  split; [exact Hcons|].
  intros tail. rewrite addTokens_app.
  destruct Hcons as (_ & _ & _ & _ & ->). cbn [bind].
  apply addTokens_definerSim.
  destruct Hc as (_ & _ & _ & _ & _ & _ & _ & _ & _ & W3).
  unfold definerSim, sameButDefiner. cbn.
  destruct Hp as [Hdial _].
  repeat split; auto. left. repeat split; auto.
  exists (last (dc_ws3 c) (dc_w3 c)). split; [reflexivity|].
  inversion W3; subst. apply last_Forall; assumption.
Qed.

Lemma spaced_definer_clause_is_transparent_witness :
  simResult
    (addTokens StashedDepth mysqlCreate
       (clauseTokens sampleClause ++ [Token.mk Token.keyword "FUNCTION" 21 28]))
    (addTokens StashedDepth mysqlCreate [Token.mk Token.keyword "FUNCTION" 21 28]).
Proof.
  refine (proj2 (spaced_definer_clause_is_transparent sampleClause mysqlCreate _ _ _ _)
            [Token.mk Token.keyword "FUNCTION" 21 28]).
  - split; reflexivity.
  - reflexivity.
  - reflexivity.
  - unfold wellFormedClause, plainToken, isWhitespaceToken. cbn.
    repeat split; try reflexivity; try discriminate;
      repeat (constructor; try reflexivity; try (repeat split; discriminate)).
Defined.

(** C7: the code does not do what the claim, and its own comment at lines
    448-449, say. The clause of the specification's example,
    [DEFINER=u@h], is written without whitespace after [=], as MySQL allows.
    At counter 1 the previous token is then [=], not whitespace, so line 463
    does not take [u] as the principal; line 474 resets the counter to
    [false] and [u] is matched against the second step of CREATE. Hence
    - under every alternative of the merge, a strict MySQL CREATE parser fed
      DEFINER, [=] and [u] throws 'Expected any of these tokens ... instead
      of type="unknown" value="u" (currentStep=1)';
    - the strict parse of the example throws that error, where the claim
      says CREATE_FUNCTION;
    - the non-strict parse of the example gives a statement of type CREATE_U;
    - the same statement without the clause is a CREATE_FUNCTION. *)
Theorem definer_without_space_raises :
  (forall r,
     addTokens r mysqlCreate
       [ Token.mk Token.keyword "DEFINER" 7 13; Token.mk Token.unknown "=" 14 14;
         Token.mk Token.unknown "u" 15 15 ]
     = Err (ExpectedTokens
              [(Token.keyword, "TABLE"); (Token.keyword, "DATABASE");
               (Token.keyword, "TRIGGER"); (Token.keyword, "FUNCTION")]
              Token.unknown "u" 1)) /\
  parse Scanner.scanToken StashedDepth true "mysql" "CREATE DEFINER=u@h FUNCTION f();"
  = Some (Err (ExpectedTokens
                 [(Token.keyword, "TABLE"); (Token.keyword, "DATABASE");
                  (Token.keyword, "TRIGGER"); (Token.keyword, "FUNCTION")]
                 Token.unknown "u" 1)) /\
  option_map (map_result (fun res => map Statement.type (ParseResult.body res)))
    (parse Scanner.scanToken StashedDepth false "mysql"
       "CREATE DEFINER=u@h FUNCTION f();")
  = Some (Ok [Some "CREATE_U"]) /\
  option_map (map_result (fun res => map Statement.type (ParseResult.body res)))
    (parse Scanner.scanToken StashedDepth true "mysql" "CREATE FUNCTION f();")
  = Some (Ok [Some "CREATE_FUNCTION"]).
Proof.
  split; [intros r; destruct r; reflexivity|].
  repeat split; vm_compute; reflexivity.
Qed.

(** With whitespace around [=] the clause is consumed. *)
Lemma definer_with_space_example :
  option_map (map_result (fun res => map Statement.type (ParseResult.body res)))
    (parse Scanner.scanToken StashedDepth true "mysql"
       "CREATE DEFINER = u@h FUNCTION f();")
  = Some (Ok [Some "CREATE_FUNCTION"]).
Proof. vm_compute. reflexivity. Qed.

(** * Further properties of the splitter and the statement parsers *)

(** ** What [parse] throws, and how statements end *)

(** X3. Once the statement's type is assigned, no token changes the type,
    the execution type, the start offset or the step index, whatever the
    steps, the dialect and the alternative of the merge: the parser only
    waits for the end of the statement. *)
Theorem typed_statement_is_inert (r : Resolution) (p q : Parser) (t : Token) :
  truthy (Statement.type (Parser.statement p)) = true ->
  addToken r p t = Ok q ->
  Statement.type (Parser.statement q) = Statement.type (Parser.statement p) /\
  Statement.executionType (Parser.statement q)
    = Statement.executionType (Parser.statement p) /\
  Statement.start (Parser.statement q) = Statement.start (Parser.statement p) /\
  Parser.currentStepIndex q = Parser.currentStepIndex p.
Proof.
  intros Hty H. apply addToken_cases in H.
  destruct H as [_ [-> | [S | [p' [S H]]]]].
  - cbn. auto.
  - unfold same_classification in S. tauto.
  - unfold same_classification in S.
    destruct S as (S1 & S2 & S3 & _ & _ & _ & S7 & _).
    unfold stepMachine in H. rewrite S1, Hty in H. inversion H; subst. auto.
Qed.

Lemma endHandling_sound (r : Resolution) (p : Parser) (t : Token) :
  sound p -> sound (flow_parser (endHandling r p t)).
Proof.
  unfold sound, endHandling. intros (H1 & H2 & H3 & H4).
  destruct r; split_ifs; repeat split; auto; intros; discriminate.
Qed.

Lemma optionalAndOpeners_sound (p : Parser) (t : Token) :
  sound p -> sound (flow_parser (optionalAndOpeners p t)).
Proof.
  unfold sound, optionalAndOpeners. intros (H1 & H2 & H3 & H4).
  split_ifs; repeat split; auto; intros; discriminate.
Qed.

Lemma definerClause_sound (p : Parser) (t : Token) :
  sound p ->
  exists f, definerClause p t = Ok f /\ sound (flow_parser f) /\
            Parser.isStrict (flow_parser f) = Parser.isStrict p.
Proof.
  unfold sound, definerClause, prevIsWhitespace. intros (H1 & H2 & H3 & H4).
  break_parser p.
  destruct definer as [| |n]; cbn.
  1,2: split_ifs; eexists; (split; [reflexivity|]); cbn; repeat split; auto;
       intros; discriminate.
  specialize (H3 n eq_refl). destruct prevToken as [pt|]; [|congruence].
  split_ifs; eexists; (split; [reflexivity|]); cbn; repeat split; auto;
    intros; discriminate.
Qed.

(** The step machine of a sound parser throws only on a token its step does
    not accept, and only in strict mode. *)
Lemma stepMachine_sound (p : Parser) (t : Token) :
  sound p ->
  match stepMachine p t with
  | Ok q => sound q /\ Parser.isStrict q = Parser.isStrict p
  | Err e => Parser.isStrict p = true /\
             exists ex ty v i, e = ExpectedTokens ex ty v i
  end.
Proof.
  intros (H1 & H2 & H3 & H4). unfold stepMachine.
  destruct (truthy (Statement.type (Parser.statement p))) eqn:Ety.
  { unfold sound. rewrite Ety. auto 6. }
  destruct H4 as [H4|H4]; [|discriminate].
  unfold stepAt, hasRequiredBefore.
  destruct p as [st steps idx prev strict dial]. cbn in *.
  simpl in H1.
  repeat (destruct H1 as [H1 | H1];
    [subst steps; cbn in H4;
     destruct idx as [|[|idx]]; try lia; cbn;
     first
       [ destruct (negb _ && strict)%bool eqn:Es; cbn;
         [apply andb_prop in Es; destruct Es as [_ ->]; split; [reflexivity|];
          repeat eexists
         |unfold sound; cbn; repeat split; auto; try (simpl; tauto);
          try (left; cbn; lia); try (right; reflexivity);
          intros; discriminate]
       | unfold sound; cbn; repeat split; auto; try (simpl; tauto);
         try (left; cbn; lia); try (right; reflexivity);
         intros; discriminate ]|]).
  contradiction.
Qed.

Lemma addToken_sound (r : Resolution) (p : Parser) (t : Token) :
  sound p -> active p ->
  match addToken r p t with
  | Ok q => sound q /\ Parser.isStrict q = Parser.isStrict p
  | Err e => Parser.isStrict p = true /\
             exists ex ty v i, e = ExpectedTokens ex ty v i
  end.
Proof.
  intros Hp Ha. unfold active in Ha. unfold addToken. rewrite Ha.
  destruct (semicolonEnds p t).
  { destruct Hp as (H1 & H2 & H3 & H4). unfold sound. cbn. auto 6. }
  pose proof (endHandling_sound r p t Hp) as S1.
  pose proof (endHandling_same r p t) as F1.
  destruct (endHandling r p t) as [p1|p1]; cbn in S1, F1.
  { split; [assumption|]. unfold same_classification in F1. tauto. }
  pose proof (optionalAndOpeners_sound p1 t S1) as S2.
  pose proof (optionalAndOpeners_same p1 t) as F2.
  assert (E2 : Parser.isStrict (flow_parser (optionalAndOpeners p1 t))
               = Parser.isStrict p).
  { unfold same_classification in F1, F2.
    destruct F1 as (_ & _ & _ & _ & _ & _ & _ & <- & _). tauto. }
  destruct (optionalAndOpeners p1 t) as [p2|p2]; cbn in S2, E2; [auto|].
  destruct (definerClause_sound p2 t S2) as [f (E & S3 & F3)].
  rewrite E. cbn [bind]. destruct f as [p3|p3]; cbn in S3, F3.
  { split; [assumption | congruence]. }
  pose proof (stepMachine_sound p3 t S3) as S4.
  destruct (stepMachine p3 t) as [q|e].
  - destruct S4. split; [assumption | congruence].
  - destruct S4 as [S4 S5]. split; [congruence | assumption].
Qed.

(** The parser a token selects is sound, has not ended, and is strict only
    if [parse] is. *)
Lemma selected_sound (token : Token) (strict : bool) (d : string) (sp : Parser) :
  createStatementParserByToken token (mkOptions strict d) = Ok sp ->
  sound sp /\ active sp /\ (Parser.isStrict sp = true -> strict = true).
Proof.
  unfold createStatementParserByToken, createSelectStatementParser,
    createInsertStatementParser, createUpdateStatementParser,
    createDeleteStatementParser, createCreateStatementParser,
    createDropStatementParser, createTruncateStatementParser,
    createUnknownStatementParser, stateMachineStatementParser.
  cbn [opt_isStrict opt_dialect].
  split_ifs; intros E; inversion E; subst; clear E;
    unfold sound, active; cbn; repeat split; auto; try (simpl; tauto);
    try lia; try discriminate; intros; discriminate.
Qed.

Lemma feed_sound (r : Resolution) (strict : bool) (l : Loop) (ts : State)
    (t : Token) (sp : Parser) :
  sound sp -> active sp -> (Parser.isStrict sp = true -> strict = true) ->
  Forall (fun st => Statement.endStatement st = Some ";") (body l) ->
  match feed r l ts t sp with
  | Ok l' => loopSound strict l'
  | Err e => expectedError strict e
  end.
Proof.
  intros Hs Ha Hstrict Hb. unfold feed.
  pose proof (addToken_sound r sp t Hs Ha) as H.
  destruct (addToken r sp t) as [q|e] eqn:E; cbn [bind].
  - destruct H as [Hq Hq']. unfold getStatement, loopSound.
    destruct (truthy (Statement.endStatement (Parser.statement q))) eqn:Et; cbn.
    + split; [intros x Hx; discriminate|].
      apply Forall_app. split; [assumption|]. constructor; [|constructor].
      cbn. destruct Hq as (_ & [Hn | Hn] & _); [|assumption].
      rewrite Hn in Et. discriminate.
    + split; [|assumption]. intros x Hx. inversion Hx; subst.
      split; [assumption|]. split; [exact Et | intros; apply Hstrict; congruence].
  - destruct H as [H1 H2]. right. split; [auto | assumption].
Qed.

Lemma parseStep_sound (scan : State -> Token * State) (r : Resolution)
    (strict : bool) (d : string) (l : Loop) :
  loopSound strict l ->
  match parseStep scan r strict d l with
  | Ok l' => loopSound strict l'
  | Err e => expectedError strict e
  end.
Proof.
  intros [Hsp Hb]. unfold parseStep.
  destruct (scan _) as [t ts].
  destruct (statementParser l) as [sp|] eqn:E.
  - destruct (Hsp sp eq_refl) as (H1 & H2 & H3). now apply feed_sound.
  - destruct (existsb _ _).
    + split; [intros x Hx; discriminate | assumption].
    + destruct (createStatementParserByToken t _) as [sp|e] eqn:Ec; cbn [bind].
      * destruct (selected_sound t strict d sp Ec) as (H1 & H2 & H3).
        now apply feed_sound.
      * left. unfold createStatementParserByToken in Ec. revert Ec.
        split_ifs; intros Ec; inversion Ec; eauto.
Qed.

(** An invariant of the turns, and a property of the errors they can end
    with, carry over to the loop. *)
Lemma parseLoop_outcome (I : Loop -> Prop) (P : Error -> Prop)
    (scan : State -> Token * State) (r : Resolution) (strict : bool)
    (d : string) (topEnd : Z) :
  (forall l, I l ->
     match parseStep scan r strict d l with
     | Ok l' => I l'
     | Err e => P e
     end) ->
  forall fuel l, I l ->
    match parseLoop scan r strict d fuel topEnd l with
    | Some (Ok l') => I l'
    | Some (Err e) => P e
    | None => True
    end.
Proof.
  intros Hstep. induction fuel as [|fuel IH]; intros l Hl; cbn.
  - destruct (_ <? _); auto.
  - destruct (_ <? _); [|assumption].
    specialize (Hstep l Hl).
    destruct (parseStep scan r strict d l) as [l'|e]; [|assumption].
    apply IH. assumption.
Qed.

Lemma loopSound_init (strict : bool) (input : string) :
  loopSound strict (mkLoop (initState_input input) None [] []).
Proof. split; [intros sp H; discriminate | constructor]. Qed.

(** X1. Whatever the scanner, the alternative of the merge, the dialect and
    the number of turns: when [parse] throws, the error is 'Invalid statement
    parser', or, in strict mode only, 'Expected any of these tokens ...
    instead of ...'. The loop never feeds a statement that has ended, the
    [requireBefore] error is never raised, and no property of [undefined] is
    read. *)
Theorem parse_only_throws_on_tokens (scan : State -> Token * State)
    (r : Resolution) (strict : bool) (d : string) (fuel : nat) (input : string)
    (e : Error) :
  parseFuel scan r strict d fuel input = Some (Err e) ->
  (exists v, e = InvalidStatementParser v) \/
  (strict = true /\ exists ex ty v i, e = ExpectedTokens ex ty v i).
Proof.
  unfold parseFuel. intros H.
  pose proof (parseLoop_outcome (loopSound strict) (expectedError strict)
                scan r strict d (State.end_ (initState_input input))
                (parseStep_sound scan r strict d) fuel _
                (loopSound_init strict input)) as G.
  destruct (parseLoop _ _ _ _ _ _ _) as [[l|e']|]; try discriminate.
  inversion H; subst. exact G.
Qed.

(** X2. In every result, the statements of [body] have [endStatement] ";",
    except possibly the last: a statement the input ends in has no
    [endStatement], and its [end] is the last offset of the input. *)
Theorem body_ends_with_semicolons (scan : State -> Token * State)
    (r : Resolution) (strict : bool) (d : string) (fuel : nat) (input : string)
    (res : ParseResult) :
  parseFuel scan r strict d fuel input = Some (Ok res) ->
  exists ended last,
    ParseResult.body res = (ended ++ last)%list /\
    Forall (fun st => Statement.endStatement st = Some ";") ended /\
    (last = [] \/
     exists st, last = [st] /\ Statement.endStatement st = None /\
                Statement.end_ st = Some (length_Z input - 1)).
Proof.
  unfold parseFuel. intros H.
  pose proof (parseLoop_outcome (loopSound strict) (expectedError strict)
                scan r strict d (State.end_ (initState_input input))
                (parseStep_sound scan r strict d) fuel _
                (loopSound_init strict input)) as G.
  destruct (parseLoop _ _ _ _ _ _ _) as [[l|e']|]; try discriminate.
  inversion H; subst; clear H. destruct G as [Hsp Hb].
  unfold finish, getStatement. cbn [ParseResult.body].
  destruct (statementParser l) as [sp|].
  - destruct (Hsp sp eq_refl) as (_ & Ha & _). unfold active in Ha.
    rewrite Ha. cbn [negb].
    exists (body l), [Statement.set_end (State.end_ (initState_input input))
                        (Parser.statement sp)].
    split; [reflexivity|]. split; [assumption|]. right.
    eexists. split; [reflexivity|]. cbn. split; [|reflexivity].
    destruct (Hsp sp eq_refl) as ((_ & [Hn | Hn] & _) & _ & _); [assumption|].
    rewrite Hn in Ha. discriminate.
  - exists (body l), []. rewrite app_nil_r. auto.
Qed.

Lemma typed_statement_is_inert_witness :
  Statement.type (Parser.statement (Parser.set_prevToken
                    (Token.mk Token.whitespace " " 14 14) sqliteTrigger))
    = Statement.type (Parser.statement sqliteTrigger) /\
  Statement.executionType (Parser.statement (Parser.set_prevToken
                    (Token.mk Token.whitespace " " 14 14) sqliteTrigger))
    = Statement.executionType (Parser.statement sqliteTrigger) /\
  Statement.start (Parser.statement (Parser.set_prevToken
                    (Token.mk Token.whitespace " " 14 14) sqliteTrigger))
    = Statement.start (Parser.statement sqliteTrigger) /\
  Parser.currentStepIndex (Parser.set_prevToken
                    (Token.mk Token.whitespace " " 14 14) sqliteTrigger)
    = Parser.currentStepIndex sqliteTrigger.
Proof.
  refine (typed_statement_is_inert StashedDepth sqliteTrigger _
            (Token.mk Token.whitespace " " 14 14) _ _); reflexivity.
Defined.

Lemma parse_only_throws_on_tokens_witness :
  (exists v, InvalidStatementParser "G" = InvalidStatementParser v) \/
  (true = true /\
   exists ex ty v i, InvalidStatementParser "G" = ExpectedTokens ex ty v i).
Proof.
  refine (parse_only_throws_on_tokens Scanner.scanToken StashedDepth true "generic"
            (String.length "GRANT ALL;") "GRANT ALL;" _ _).
  vm_compute. reflexivity.
Defined.

Lemma body_ends_with_semicolons_witness :
  exists ended last,
    ParseResult.body twoStatementsResult = (ended ++ last)%list /\
    Forall (fun st => Statement.endStatement st = Some ";") ended /\
    (last = [] \/
     exists st, last = [st] /\ Statement.endStatement st = None /\
                Statement.end_ st = Some (length_Z twoStatements - 1)).
Proof.
  refine (body_ends_with_semicolons Scanner.scanToken StashedDepth true "generic"
            (String.length twoStatements) twoStatements twoStatementsResult _).
  vm_compute. reflexivity.
Defined.

(** ** The token stream and the cut of the statements *)

(** A turn of the loop that does not throw appends the token scanned and
    moves to the state the scanner left. *)
Lemma parseStep_token (scan : State -> Token * State) (r : Resolution)
    (strict : bool) (d : string) (l l' : Loop) :
  parseStep scan r strict d l = Ok l' ->
  prevState l' = snd (scan (initState_prev (prevState l))) /\
  tokens l' = (tokens l ++ [fst (scan (initState_prev (prevState l)))])%list.
Proof.
  intros H.
  destruct (scan (initState_prev (prevState l))) as [t ts] eqn:E.
  destruct (parseStep_cases scan r strict d l l' H t ts E)
    as [(_ & _ & ->) | [q [_ [[_ ->] | [_ ->]]]]]; cbn; auto.
Qed.

Lemma parseLoop_tokens (scan : State -> Token * State) (r : Resolution)
    (strict : bool) (d : string) (topEnd : Z) (fuel : nat) :
  forall l l', parseLoop scan r strict d fuel topEnd l = Some (Ok l') ->
    exists toks, scanAll scan fuel topEnd (prevState l) = Some toks /\
                 tokens l' = (tokens l ++ toks)%list.
Proof.
  induction fuel as [|fuel IH]; intros l l'; cbn.
  - destruct (_ <? _); [discriminate|]. intros E; inversion E; subst.
    exists []. rewrite app_nil_r. auto.
  - destruct (_ <? _).
    + destruct (parseStep scan r strict d l) as [l1|e] eqn:E1; [|discriminate].
      intros H. destruct (parseStep_token _ _ _ _ _ _ E1) as [Hs Ht].
      destruct (IH l1 l' H) as [toks [G1 G2]].
      destruct (scan (initState_prev (prevState l))) as [t ts]. cbn in Hs, Ht.
      rewrite Hs in G1. rewrite G1. cbn.
      exists (t :: toks). split; [reflexivity|].
      rewrite G2, Ht, <- app_assoc. reflexivity.
    + intros E; inversion E; subst. exists []. rewrite app_nil_r. auto.
Qed.

(** X4. The [tokens] of a result are the tokens the scanner yields when it is
    called in turn over the whole input, blank ones included, in that order:
    no token is dropped or added, whatever the mode, the dialect and the
    alternative of the merge. *)
Theorem tokens_are_the_scan (scan : State -> Token * State) (r : Resolution)
    (strict : bool) (d : string) (fuel : nat) (input : string) (res : ParseResult) :
  parseFuel scan r strict d fuel input = Some (Ok res) ->
  scanAll scan fuel (length_Z input - 1) (initState_input input)
  = Some (ParseResult.tokens res).
Proof.
  unfold parseFuel.
  change (State.end_ (initState_input input)) with (length_Z input - 1).
  destruct (parseLoop _ _ _ _ _ _ _) as [[l|e]|] eqn:E; try discriminate.
  intros H. inversion H; subst; clear H.
  destruct (parseLoop_tokens _ _ _ _ _ _ _ _ E) as [toks [G1 G2]].
  cbn in G1, G2. unfold finish. cbn [ParseResult.tokens]. congruence.
Qed.

Lemma parseLoop_blank (scan : State -> Token * State) (r : Resolution)
    (strict : bool) (d : string) (topEnd : Z) (fuel : nat) :
  forall s b tk toks,
    scanAll scan fuel topEnd s = Some toks ->
    Forall (fun t => blank t = true) toks ->
    exists s', parseLoop scan r strict d fuel topEnd (mkLoop s None b tk)
               = Some (Ok (mkLoop s' None b (tk ++ toks)%list)).
Proof.
  induction fuel as [|fuel IH]; intros s b tk toks; cbn.
  - destruct (_ <? _); [discriminate|]. intros E _; inversion E; subst.
    exists s. rewrite app_nil_r. reflexivity.
  - destruct (_ <? _).
    + unfold parseStep. cbn [prevState statementParser body tokens].
      destruct (scan (initState_prev s)) as [t ts].
      destruct (scanAll scan fuel topEnd ts) as [rest|] eqn:E; [|discriminate].
      cbn. intros H Hb. inversion H; subst. inversion Hb; subst.
      fold (blank t). rewrite H2.
      destruct (IH ts b (tk ++ [t])%list rest E H3) as [s' G].
      exists s'. rewrite G, <- app_assoc. reflexivity.
    + intros E _; inversion E; subst. exists s. rewrite app_nil_r. reflexivity.
Qed.

(** X5. An input of whitespace and comments only gives no error and no
    statement, in every mode and dialect: the result has an empty [body] and
    all the tokens. *)
Theorem blank_input_has_no_statement (scan : State -> Token * State)
    (r : Resolution) (strict : bool) (d : string) (fuel : nat) (input : string)
    (toks : list Token) :
  scanAll scan fuel (length_Z input - 1) (initState_input input) = Some toks ->
  Forall (fun t => blank t = true) toks ->
  parseFuel scan r strict d fuel input
  = Some (Ok (ParseResult.mk "QUERY" 0 (length_Z input - 1) [] toks)).
Proof.
  intros H Hb. unfold parseFuel.
  change (State.end_ (initState_input input)) with (length_Z input - 1).
  destruct (parseLoop_blank scan r strict d _ fuel _ [] [] toks H Hb) as [s' G].
  rewrite G. reflexivity.
Qed.

Lemma tokens_are_the_scan_witness :
  scanAll Scanner.scanToken (String.length twoStatements)
    (length_Z twoStatements - 1) (initState_input twoStatements)
  = Some (ParseResult.tokens twoStatementsResult).
Proof.
  refine (tokens_are_the_scan Scanner.scanToken StashedDepth true "generic"
            (String.length twoStatements) twoStatements twoStatementsResult _).
  vm_compute. reflexivity.
Defined.

Lemma blank_input_has_no_statement_witness :
  parseFuel Scanner.scanToken StashedDepth true "generic"
    (String.length blankInput) blankInput
  = Some (Ok (ParseResult.mk "QUERY" 0 (length_Z blankInput - 1) []
                [ Token.mk Token.whitespace "  " 0 1;
                  Token.mk Token.comment_inline "-- nothing here" 2 16 ])).
Proof.
  refine (blank_input_has_no_statement Scanner.scanToken StashedDepth true
            "generic" (String.length blankInput) blankInput _ _ _).
  - vm_compute. reflexivity.
  - repeat constructor.
Defined.

Lemma closedCut_nil (topEnd : Z) : closedCut topEnd [] [].
Proof. intros rest more H. exact H. Qed.

Lemma closedCut_blank (topEnd : Z) (toks : list Token) (body : list Statement)
    (t : Token) :
  closedCut topEnd toks body -> blank t = true ->
  closedCut topEnd (toks ++ [t]) body.
Proof.
  intros H Hb rest more Hr. rewrite <- app_assoc. cbn.
  apply H. now apply seg_blank.
Qed.

Lemma closedCut_ended (topEnd : Z) (toks : list Token) (body : list Statement)
    (t e : Token) (ts : list Token) (st : Statement) :
  closedCut topEnd toks body ->
  leads t -> Token.type e = Token.semicolon ->
  Statement.start st = Some (Token.start t) ->
  Statement.end_ st = Some (Token.end_ e) ->
  Statement.endStatement st = Some ";" ->
  Forall noSemicolon ts \/ holdsSemicolons st ->
  closedCut topEnd (toks ++ (t :: ts) ++ [e]) (body ++ [st]).
Proof.
  intros H H1 H2 H3 H4 H5 H6 rest more Hr.
  repeat (rewrite <- ?app_assoc; cbn).
  apply H. now apply seg_ended.
Qed.

Lemma selected_leads (t : Token) (o : Options) (sp : Parser) :
  createStatementParserByToken t o = Ok sp -> leads t.
Proof.
  unfold createStatementParserByToken, leads.
  destruct (Token.kind_eqb (Token.type t) Token.keyword) eqn:Ek.
  { intros _. left. now apply kind_eqb_eq. }
  destruct (negb _ && _)%bool eqn:Eu; [|discriminate].
  intros _. right. apply andb_prop in Eu. destruct Eu as [_ Eu].
  now apply kind_eqb_eq.
Qed.

Lemma stepMachine_endStatement (p q : Parser) (t : Token) :
  In (Parser.steps p) knownSteps -> stepMachine p t = Ok q ->
  Statement.endStatement (Parser.statement q)
  = Statement.endStatement (Parser.statement p).
Proof.
  intros Hk. unfold stepMachine, stepAt, hasRequiredBefore.
  destruct (truthy _); [intros E; inversion E; auto|].
  destruct (nth_error _ _) as [s0|]; [cbn|discriminate].
  destruct (nth_error (Parser.steps p) _) as [s1|] eqn:E1; [cbn|discriminate].
  destruct (knownSteps_add _ _ s1 t (Parser.statement p) Hk E1)
    as (_ & _ & _ & G4 & G5).
  rewrite G5. cbn.
  destruct (negb _ && _)%bool; [destruct (Step.validation s1); discriminate|].
  intros E; inversion E; subst; cbn. auto.
Qed.

Lemma semicolon_passed_over (p : Parser) (t : Token) :
  Token.type t = Token.semicolon -> semicolonEnds p t = false ->
  holdsSemicolons (Parser.statement p).
Proof.
  unfold semicolonEnds, holdsSemicolons, includes_opt, eq_opt. intros ->.
  cbn [Token.kind_eqb].
  destruct (Statement.type (Parser.statement p)) as [ty|].
  - destruct (String.eqb_spec ty "CREATE_TRIGGER") as [->|N1]; [auto|].
    destruct (String.eqb_spec ty "CREATE_FUNCTION") as [->|N2]; [auto|].
    unfold statementsWithEnds, includes, existsb.
    apply String.eqb_neq in N1, N2. rewrite N1, N2. cbn [orb andb].
    rewrite !andb_false_r. cbn. discriminate.
  - cbn [andb]. rewrite !andb_false_r. cbn. discriminate.
Qed.

(** How a call of [addToken] ends a statement: on a semicolon token only;
    and a semicolon that does not end it is inside a statement that may hold
    semicolons, which the statement then stays. *)
Lemma addToken_end (r : Resolution) (p q : Parser) (t : Token) :
  In (Parser.steps p) knownSteps ->
  addToken r p t = Ok q ->
  (truthy (Statement.endStatement (Parser.statement q)) = true ->
   Token.type t = Token.semicolon /\
   Statement.endStatement (Parser.statement q) = Some ";") /\
  (truthy (Statement.endStatement (Parser.statement q)) = false ->
   Token.type t = Token.semicolon -> holdsSemicolons (Parser.statement q)) /\
  (holdsSemicolons (Parser.statement p) -> holdsSemicolons (Parser.statement q)).
Proof.
  intros Hk H.
  assert (Hkeep : holdsSemicolons (Parser.statement p) ->
                  holdsSemicolons (Parser.statement q)).
  { intros Hh. assert (Hty : truthy (Statement.type (Parser.statement p)) = true)
      by (destruct Hh as [E|E]; rewrite E; reflexivity).
    unfold holdsSemicolons in *.
    destruct (addToken_cases r p q t H) as [_ [-> | [S | [p' [S H']]]]].
    - exact Hh.
    - unfold same_classification in S. destruct S as (-> & _). exact Hh.
    - unfold same_classification in S. destruct S as (S1 & _).
      unfold stepMachine in H'. rewrite S1, Hty in H'. inversion H'; subst.
      rewrite S1. exact Hh. }
  split; [|split; [|exact Hkeep]].
  - revert H. unfold addToken.
    destruct (truthy (Statement.endStatement (Parser.statement p))) eqn:Ea;
      [discriminate|].
    destruct (semicolonEnds p t) eqn:Es.
    + intros E _. inversion E; subst. split; [|reflexivity].
      unfold semicolonEnds in Es.
      destruct (Token.kind_eqb (Token.type t) Token.semicolon) eqn:Ek;
        [now apply kind_eqb_eq | discriminate].
    + intros H Hq. exfalso.
      assert (E : Statement.endStatement (Parser.statement q)
                  = Statement.endStatement (Parser.statement p)).
      { revert H.
        pose proof (endHandling_same r p t) as S1.
        destruct (endHandling r p t) as [p1|p1]; cbn in S1.
        { intros E; inversion E; subst q. unfold same_classification in S1. tauto. }
        pose proof (optionalAndOpeners_same p1 t) as S2.
        pose proof (same_classification_trans _ _ _ S1 S2) as S12.
        destruct (optionalAndOpeners p1 t) as [p2|p2]; cbn in S2, S12.
        { intros E; inversion E; subst q. unfold same_classification in S12. tauto. }
        destruct (definerClause p2 t) as [f|e] eqn:E3; [|discriminate].
        pose proof (definerClause_same p2 t f E3) as S3.
        pose proof (same_classification_trans _ _ _ S12 S3) as S123.
        cbn [bind]. destruct f as [p3|p3]; cbn in S3, S123.
        { intros E; inversion E; subst q. unfold same_classification in S123. tauto. }
        unfold same_classification in S123.
        destruct S123 as (_ & _ & _ & _ & S5 & S6 & _).
        intros E. apply stepMachine_endStatement in E; [congruence|].
        rewrite S6. exact Hk. }
      rewrite E in Hq. congruence.
  - intros Hq Ht. revert H. unfold addToken.
    destruct (truthy (Statement.endStatement (Parser.statement p))) eqn:Ea;
      [discriminate|].
    destruct (semicolonEnds p t) eqn:Es.
    + intros E. inversion E; subst. cbn in Hq. discriminate.
    + intros _. apply Hkeep. now apply (semicolon_passed_over p t).
Qed.

Lemma parseStep_cut (scan : State -> Token * State) (r : Resolution)
    (strict : bool) (d : string) (topEnd : Z) (l l' : Loop) :
  loopCut topEnd l -> parseStep scan r strict d l = Ok l' -> loopCut topEnd l'.
Proof.
  intros (closed & opened & Ht & Hc & Hsp) H.
  destruct (scan (initState_prev (prevState l))) as [token ts] eqn:E.
  destruct (parseStep_cases scan r strict d l l' H token ts E)
    as [(E1 & Hb & ->) | [q [Hq Hl']]].
  - rewrite E1 in Hsp. subst opened. rewrite app_nil_r in Ht.
    exists (closed ++ [token])%list, []. cbn. rewrite app_nil_r, Ht.
    split; [reflexivity|]. split; [now apply closedCut_blank | reflexivity].
  - destruct Hq as [[sp [E1 E2]] | [E1 [sp [E2 E3]]]].
    + rewrite E1 in Hsp.
      destruct Hsp as (Hs & Ha & Hst & t0 & ts0 & -> & Hl & Hstart & Hsemi).
      pose proof (addToken_sound r sp token Hs Ha) as G. rewrite E2 in G.
      destruct G as [Gs _].
      destruct (addToken_started r sp q token Hst E2) as [Gst Gstart].
      destruct (addToken_end r sp q token (proj1 Hs) E2) as (Ge1 & Ge2 & Ge3).
      destruct Hl' as [[Hend ->] | [Hend ->]].
      * destruct (Ge1 Hend) as [Ek Eend].
        exists (closed ++ (t0 :: ts0) ++ [token])%list, [].
        cbn [tokens body statementParser].
        split; [rewrite Ht, app_nil_r, <- app_assoc; reflexivity|].
        split; [|reflexivity].
        apply closedCut_ended; auto; cbn; [congruence|].
        destruct Hsemi as [Hsemi|Hsemi]; [left; assumption | right; auto].
      * exists closed, (t0 :: ts0 ++ [token])%list.
        cbn [tokens body statementParser].
        split; [rewrite Ht, <- app_assoc; reflexivity|].
        split; [assumption|].
        split; [exact Gs|]. split; [exact Hend|]. split; [exact Gst|].
        exists t0, (ts0 ++ [token])%list.
        split; [reflexivity|]. split; [assumption|]. split; [congruence|].
        destruct Hsemi as [Hsemi|Hsemi]; [|right; auto].
        destruct (Token.kind_eqb (Token.type token) Token.semicolon) eqn:Ek.
        -- right. apply Ge2; [assumption | now apply kind_eqb_eq].
        -- left. apply Forall_app. split; [assumption|].
           constructor; [|constructor]. intros Heq. apply kind_eqb_eq in Heq.
           congruence.
    + rewrite E1 in Hsp. subst opened. rewrite app_nil_r in Ht.
      destruct (selected_sound token strict d sp E2) as (Hs & Ha & _).
      pose proof (addToken_sound r sp token Hs Ha) as G. rewrite E3 in G.
      destruct G as [Gs _].
      destruct (first_token_started r token _ sp q E2 E3) as [Gst Gstart].
      destruct (addToken_end r sp q token (proj1 Hs) E3) as (Ge1 & _ & _).
      pose proof (selected_leads token _ sp E2) as Hlead.
      destruct Hl' as [[Hend ->] | [Hend ->]].
      * destruct (Ge1 Hend) as [Ek _]. destruct Hlead; congruence.
      * exists closed, [token]. cbn [tokens body statementParser].
        split; [rewrite Ht; reflexivity|]. split; [assumption|].
        split; [exact Gs|]. split; [exact Hend|]. split; [exact Gst|].
        exists token, []. repeat split; auto.
Qed.

(** The statements of a result cut its tokens into groups, as [segments]
    says. *)
Lemma parse_segments (scan : State -> Token * State) (r : Resolution)
    (strict : bool) (d : string) (fuel : nat) (input : string) (res : ParseResult) :
  parseFuel scan r strict d fuel input = Some (Ok res) ->
  segments (length_Z input - 1) (ParseResult.tokens res) (ParseResult.body res).
Proof.
  unfold parseFuel.
  change (State.end_ (initState_input input)) with (length_Z input - 1).
  destruct (parseLoop _ _ _ _ _ _ _) as [[l|e]|] eqn:E; try discriminate.
  intros H. inversion H; subst; clear H.
  apply (parseLoop_invariant (loopCut (length_Z input - 1))) in E.
  - destruct E as [(closed & opened & Ht & Hc & Hsp) _].
    unfold finish, getStatement. cbn [ParseResult.tokens ParseResult.body].
    rewrite Ht. destruct (statementParser l) as [sp|].
    + destruct Hsp as (Hs & Ha & Hst & t0 & ts0 & -> & Hl & Hstart & Hsemi).
      unfold active in Ha. rewrite Ha. cbn [negb].
      apply Hc. apply seg_last; auto.
      cbn. destruct Hs as (_ & [Hn | Hn] & _); [assumption|].
      rewrite Hn in Ha. discriminate.
    + subst opened. rewrite <- (app_nil_r (body l)). apply Hc. constructor.
  - intros l0 l1 Hl0 _ Hstep. eapply parseStep_cut; eauto.
  - exists [], []. cbn. repeat split. apply closedCut_nil.
Qed.

(** X6. The statements of a result cut its token stream into consecutive
    groups: every statement starts at the start of a keyword or unknown token
    and ends at the end of the semicolon token that ended it, or, for the
    last one, at the last offset of the input; the tokens between two
    statements are whitespace and comments; and a semicolon token inside a
    statement occurs in CREATE TRIGGER and CREATE FUNCTION statements only. *)
Theorem statements_cut_the_tokens (scan : State -> Token * State)
    (r : Resolution) (strict : bool) (d : string) (fuel : nat) (input : string)
    (res : ParseResult) :
  parseFuel scan r strict d fuel input = Some (Ok res) ->
  segments (length_Z input - 1) (ParseResult.tokens res) (ParseResult.body res).
Proof. apply parse_segments. Qed.

Lemma statements_cut_the_tokens_witness :
  segments (length_Z twoStatements - 1) (ParseResult.tokens twoStatementsResult)
    (ParseResult.body twoStatementsResult).
Proof.
  refine (statements_cut_the_tokens Scanner.scanToken StashedDepth true "generic"
            (String.length twoStatements) twoStatements twoStatementsResult _).
  vm_compute. reflexivity.
Defined.

Lemma blank_isSemicolon (t : Token) : blank t = true -> isSemicolon t = false.
Proof. unfold blank, isSemicolon. destruct (Token.type t); cbn; congruence. Qed.

Lemma leads_isSemicolon (t : Token) : leads t -> isSemicolon t = false.
Proof. unfold leads, isSemicolon. intros [-> | ->]; reflexivity. Qed.

Lemma noSemicolon_filter (ts : list Token) :
  Forall noSemicolon ts -> filter isSemicolon ts = [].
Proof.
  induction 1 as [|t ts Ht _ IH]; [reflexivity|]. cbn.
  unfold noSemicolon in Ht. unfold isSemicolon at 1.
  destruct (Token.kind_eqb (Token.type t) Token.semicolon) eqn:E; [|exact IH].
  apply kind_eqb_eq in E. contradiction.
Qed.

Lemma segments_semicolons (topEnd : Z) (toks : list Token) (body : list Statement) :
  segments topEnd toks body ->
  Forall (fun st => ~ holdsSemicolons st) body ->
  List.length (filter isSemicolon toks) = List.length (filter hasEnded body).
Proof.
  induction 1 as [|t toks body Hb _ IH|t ts e st toks body Hl He _ _ Hend Hs _ IH
                 |t ts st Hl _ _ Hend Hs]; intros Hno.
  - reflexivity.
  - cbn. rewrite (blank_isSemicolon t Hb). auto.
  - inversion Hno; subst. cbn. rewrite (leads_isSemicolon t Hl).
    rewrite filter_app. destruct Hs as [Hs|Hs]; [|contradiction].
    rewrite (noSemicolon_filter ts Hs). cbn.
    unfold isSemicolon at 1, hasEnded at 1. rewrite He, Hend. cbn.
    f_equal. auto.
  - inversion Hno; subst. cbn. rewrite (leads_isSemicolon t Hl).
    destruct Hs as [Hs|Hs]; [|contradiction].
    rewrite (noSemicolon_filter ts Hs).
    unfold hasEnded. rewrite Hend. reflexivity.
Qed.

(** X7. When no statement of the result is a CREATE_TRIGGER or a
    CREATE_FUNCTION, every semicolon token ends one statement: the result
    has as many semicolon tokens as statements with [endStatement]. *)
Theorem one_statement_per_semicolon (scan : State -> Token * State)
    (r : Resolution) (strict : bool) (d : string) (fuel : nat) (input : string)
    (res : ParseResult) :
  parseFuel scan r strict d fuel input = Some (Ok res) ->
  Forall (fun st => ~ holdsSemicolons st) (ParseResult.body res) ->
  List.length (filter isSemicolon (ParseResult.tokens res))
  = List.length (filter hasEnded (ParseResult.body res)).
Proof.
  intros H. apply (segments_semicolons (length_Z input - 1)).
  eapply parse_segments; eauto.
Qed.

Lemma one_statement_per_semicolon_witness :
  List.length (filter isSemicolon (ParseResult.tokens twoStatementsResult))
  = List.length (filter hasEnded (ParseResult.body twoStatementsResult)).
Proof.
  refine (one_statement_per_semicolon Scanner.scanToken StashedDepth true "generic"
            (String.length twoStatements) twoStatements twoStatementsResult _ _).
  - vm_compute. reflexivity.
  - repeat constructor; intros [H|H]; discriminate H.
Defined.

Lemma parseStep_within (scan : State -> Token * State) (r : Resolution)
    (strict : bool) (d : string) (input : string) (l l' : Loop) :
  scannerOkb scan input = true ->
  loopWithin input l ->
  State.position (prevState l) < length_Z input - 1 ->
  parseStep scan r strict d l = Ok l' ->
  loopWithin input l'.
Proof.
  intros Hscan [Hr Ht] Hlt H.
  split; [exact (proj1 (parseStep_ranged scan r strict d input l l' Hscan Hr Hlt H))|].
  destruct (parseStep_token scan r strict d l l' H) as [_ ->].
  apply Forall_app. split; [assumption|]. constructor; [|constructor].
  destruct Hr as (Hin & Hpos & _).
  pose proof (scannerOkb_at scan input (State.position (prevState l)) Hscan
                (conj (proj1 Hpos) Hlt)) as Hok.
  unfold scanStepOk in Hok. rewrite initState_prev_cursor, Hin.
  destruct (scan (cursorState input (State.position (prevState l)))) as [t ts].
  repeat (apply andb_prop in Hok; destruct Hok as [Hok ?]).
  repeat match goal with
         | H : (_ <? _) = true |- _ => apply Z.ltb_lt in H
         | H : (_ <=? _) = true |- _ => apply Z.leb_le in H
         end.
  unfold tokenWithin. cbn [fst]. lia.
Qed.

Lemma segments_within (input : string) (toks : list Token) (body : list Statement) :
  segments (length_Z input - 1) toks body ->
  Forall (tokenWithin input) toks ->
  Forall (fun st => exists s e, Statement.start st = Some s /\
                      Statement.end_ st = Some e /\
                      0 <= s /\ e <= length_Z input - 1) body.
Proof.
  induction 1 as [|t toks body Hb _ IH|t ts e st toks body _ _ Hs He _ _ _ IH
                 |t ts st _ Hs He _ _]; intros Hw.
  - constructor.
  - inversion Hw; subst. auto.
  - inversion Hw as [|? ? Ht Hrest]; subst.
    apply Forall_app in Hrest. destruct Hrest as [_ Hrest].
    inversion Hrest as [|? ? Hte Hrest']; subst.
    constructor; [|auto].
    exists (Token.start t), (Token.end_ e). unfold tokenWithin in *.
    repeat split; auto; lia.
  - inversion Hw as [|? ? Ht Hrest]; subst.
    constructor; [|constructor].
    exists (Token.start t), (length_Z input - 1). unfold tokenWithin in *.
    repeat split; auto; lia.
Qed.

(** X12. With a scanner that moves the cursor on and stays within the input,
    the range of every statement of a result is a range of the input:
    0 <= start <= end <= input.length - 1. *)
Theorem statements_within_input (scan : State -> Token * State)
    (r : Resolution) (strict : bool) (d : string) (input : string)
    (res : ParseResult) :
  scannerOkb scan input = true ->
  parse scan r strict d input = Some (Ok res) ->
  Forall (statementWithin input) (ParseResult.body res).
Proof.
  intros Hscan H.
  destruct (parse_body_ranged scan r strict d input res Hscan H) as [_ Hw].
  pose proof (parse_segments scan r strict d _ input res H) as Hseg.
  assert (Ht : Forall (tokenWithin input) (ParseResult.tokens res)).
  { revert H. unfold parse, parseFuel.
    change (State.end_ (initState_input input)) with (length_Z input - 1).
    destruct (parseLoop _ _ _ _ _ _ _) as [[l|e]|] eqn:E; try discriminate.
    intros H. inversion H; subst; clear H.
    apply (parseLoop_invariant (loopWithin input)) in E.
    - exact (proj2 (proj1 E)).
    - intros l0 l1 Hl0 Hlt Hstep. eapply parseStep_within; eauto.
    - split; [apply loopRanged_init | constructor]. }
  pose proof (segments_within input _ _ Hseg Ht) as Hb.
  rewrite Forall_forall in *. intros st Hst.
  destruct (Hw st Hst) as (s & e & E1 & E2 & Hle).
  destruct (Hb st Hst) as (s' & e' & E1' & E2' & H0 & H1).
  exists s, e. repeat split; auto; congruence.
Qed.

Lemma statements_within_input_witness :
  Forall (statementWithin twoStatements) (ParseResult.body twoStatementsResult).
Proof.
  refine (statements_within_input Scanner.scanToken StashedDepth true "generic"
            twoStatements twoStatementsResult _ _); vm_compute; reflexivity.
Defined.

(** ** Modes and dialects *)

Lemma stepMachine_recognised (p q : Parser) (t : Token) :
  strictParser p -> stepMachine p t = Ok q -> strictParser q.
Proof.
  intros (H1 & H2 & H3). unfold stepMachine.
  destruct (truthy _); [intros E; inversion E; subst; repeat split; assumption|].
  unfold stepAt, hasRequiredBefore.
  destruct p as [st steps idx prev strict dial]. cbn in *. subst strict.
  simpl in H2.
  repeat (destruct H2 as [H2 | H2];
    [subst steps; destruct idx as [|[|idx]]; cbn;
     try (destruct idx; discriminate); try discriminate;
     rewrite ?andb_true_r;
     try (intros E; inversion E; subst; clear E;
          unfold strictParser, recognised; cbn; repeat split; auto;
          simpl; tauto)|]);
    try contradiction.
  all: unfold isValidToken; cbn.
  all: match goal with
       | |- context [Token.kind_eqb ?a Token.keyword] =>
           destruct (Token.kind_eqb a Token.keyword); cbn
       end; try discriminate.
  all: repeat match goal with
         | |- context [String.eqb ?v ?k] =>
             destruct (String.eqb_spec v k) as [Ev|_]; cbn; rewrite ?Ev
         end; try discriminate.
  all: intros E; inversion E; subst; clear E;
       unfold strictParser, recognised; cbn; repeat split; auto; simpl; tauto.
Qed.

Lemma addToken_recognised (r : Resolution) (p q : Parser) (t : Token) :
  strictParser p -> addToken r p t = Ok q -> strictParser q.
Proof.
  intros Hp H. destruct (addToken_cases r p q t H) as [_ [-> | [S | [p' [S H']]]]].
  - exact Hp.
  - destruct Hp as (H1 & H2 & H3). unfold same_classification in S.
    destruct S as (S1 & _ & _ & _ & _ & S6 & _ & S8 & _).
    unfold strictParser, recognised. rewrite S1, S6, S8. auto.
  - apply (stepMachine_recognised p' q t); [|assumption].
    destruct Hp as (H1 & H2 & H3). unfold same_classification in S.
    destruct S as (S1 & _ & _ & _ & _ & S6 & _ & S8 & _).
    unfold strictParser, recognised. rewrite S1, S6, S8. auto.
Qed.

Lemma selected_strict (token : Token) (d : string) (sp : Parser) :
  createStatementParserByToken token (mkOptions true d) = Ok sp ->
  strictParser sp.
Proof.
  unfold createStatementParserByToken, createSelectStatementParser,
    createInsertStatementParser, createUpdateStatementParser,
    createDeleteStatementParser, createCreateStatementParser,
    createDropStatementParser, createTruncateStatementParser,
    stateMachineStatementParser.
  cbn [opt_isStrict opt_dialect negb andb].
  split_ifs; intros E; inversion E; subst; clear E;
    unfold strictParser, recognised; cbn; repeat split; auto; simpl; tauto.
Qed.

Lemma parseStep_strict (scan : State -> Token * State) (r : Resolution)
    (d : string) (l l' : Loop) :
  loopStrict l -> parseStep scan r true d l = Ok l' -> loopStrict l'.
Proof.
  intros [Hb Hsp] H.
  destruct (scan (initState_prev (prevState l))) as [token ts] eqn:E.
  destruct (parseStep_cases scan r true d l l' H token ts E)
    as [(E1 & _ & ->) | [q [Hq Hl']]].
  - split; [assumption | intros sp Hx; discriminate].
  - assert (Gq : strictParser q).
    { destruct Hq as [[sp [E1 E2]] | [_ [sp [E2 E3]]]].
      - eapply addToken_recognised; eauto.
      - eapply addToken_recognised; [|eassumption].
        eapply selected_strict; eauto. }
    destruct Hl' as [[_ ->] | [_ ->]]; split; cbn.
    + apply Forall_app. split; [assumption|]. constructor; [|constructor].
      exact (proj2 (proj2 Gq)).
    + intros sp Hx. discriminate.
    + assumption.
    + intros sp Hx. inversion Hx; subst. assumption.
Qed.

(** X8. In strict mode every statement of a result has one of the eleven
    types SELECT, INSERT, UPDATE, DELETE, TRUNCATE, CREATE_TABLE,
    CREATE_DATABASE, CREATE_TRIGGER, CREATE_FUNCTION, DROP_TABLE and
    DROP_DATABASE, or no type at all (a CREATE or DROP cut short before its
    object keyword); the type UNKNOWN does not occur. *)
Theorem strict_types_are_recognised (scan : State -> Token * State)
    (r : Resolution) (d : string) (fuel : nat) (input : string)
    (res : ParseResult) :
  parseFuel scan r true d fuel input = Some (Ok res) ->
  Forall recognised (ParseResult.body res).
Proof.
  unfold parseFuel.
  destruct (parseLoop _ _ _ _ _ _ _) as [[l|e]|] eqn:E; try discriminate.
  intros H. inversion H; subst; clear H.
  apply (parseLoop_invariant loopStrict) in E.
  - destruct E as [[Hb Hsp] _]. unfold finish, getStatement. cbn [ParseResult.body].
    destruct (statementParser l) as [sp|]; [|assumption].
    destruct (negb _); [|assumption].
    apply Forall_app. split; [assumption|]. constructor; [|constructor].
    exact (proj2 (proj2 (Hsp sp eq_refl))).
  - intros l0 l1 Hl0 _ Hstep. eapply parseStep_strict; eauto.
  - split; [constructor | intros sp Hx; discriminate].
Qed.

Lemma strict_types_are_recognised_witness :
  Forall recognised (ParseResult.body twoStatementsResult).
Proof.
  refine (strict_types_are_recognised Scanner.scanToken StashedDepth "generic"
            (String.length twoStatements) twoStatements twoStatementsResult _).
  vm_compute. reflexivity.
Defined.

(** A CREATE cut short by its semicolon has no type, in strict mode too. *)
Lemma strict_create_without_object :
  parseSummary true "generic" "CREATE;"
  = Some (Ok [(None, Some 0, Some 6, Some (ExecStr "UNKNOWN"), Some ";")]).
Proof. vm_compute. reflexivity. Qed.

Lemma selected_dialect (t : Token) (strict : bool) (d d' : string) :
  isCreate t = false ->
  createStatementParserByToken t (mkOptions strict d)
  = createStatementParserByToken t (mkOptions strict d').
Proof.
  unfold isCreate, createStatementParserByToken.
  destruct (Token.kind_eqb (Token.type t) Token.keyword); [|reflexivity].
  cbn [andb]. intros ->. reflexivity.
Qed.

Lemma parseStep_dialect (scan : State -> Token * State) (r : Resolution)
    (strict : bool) (d d' : string) (l : Loop) :
  isCreate (fst (scan (initState_prev (prevState l)))) = false ->
  parseStep scan r strict d l = parseStep scan r strict d' l.
Proof.
  unfold parseStep. destruct (scan _) as [t ts]. cbn [fst]. intros H.
  destruct (statementParser l); [reflexivity|].
  rewrite (selected_dialect t strict d d' H). reflexivity.
Qed.

Lemma parseLoop_dialect (scan : State -> Token * State) (r : Resolution)
    (strict : bool) (d d' : string) (topEnd : Z) (fuel : nat) :
  forall l toks,
    scanAll scan fuel topEnd (prevState l) = Some toks ->
    Forall (fun t => isCreate t = false) toks ->
    parseLoop scan r strict d fuel topEnd l
    = parseLoop scan r strict d' fuel topEnd l.
Proof.
  induction fuel as [|fuel IH]; intros l toks; cbn.
  - reflexivity.
  - destruct (_ <? _); [|reflexivity].
    destruct (scan (initState_prev (prevState l))) as [t ts] eqn:E.
    destruct (scanAll scan fuel topEnd ts) as [rest|] eqn:Er; [|discriminate].
    cbn. intros H Hc. inversion H; subst. inversion Hc; subst.
    rewrite <- (parseStep_dialect scan r strict d d' l) by (rewrite E; assumption).
    destruct (parseStep scan r strict d l) as [l1|e] eqn:E1; [|reflexivity].
    apply (IH l1 rest); [|assumption].
    destruct (parseStep_token _ _ _ _ _ _ E1) as [-> _]. rewrite E. exact Er.
Qed.

(** X9. The dialect matters for CREATE statements only: on an input whose
    tokens hold no keyword CREATE, [parse] gives the same outcome, result or
    error, under any two dialects. *)
Theorem dialect_matters_for_create_only (scan : State -> Token * State)
    (r : Resolution) (strict : bool) (d d' : string) (fuel : nat)
    (input : string) (toks : list Token) :
  scanAll scan fuel (length_Z input - 1) (initState_input input) = Some toks ->
  Forall (fun t => isCreate t = false) toks ->
  parseFuel scan r strict d fuel input = parseFuel scan r strict d' fuel input.
Proof.
  intros H Hc. unfold parseFuel.
  change (State.end_ (initState_input input)) with (length_Z input - 1).
  rewrite (parseLoop_dialect scan r strict d d' (length_Z input - 1) fuel
             (mkLoop (initState_input input) None [] []) toks H Hc).
  reflexivity.
Qed.

Lemma dialect_matters_for_create_only_witness :
  parseFuel Scanner.scanToken StashedDepth true "psql"
    (String.length twoStatements) twoStatements
  = parseFuel Scanner.scanToken StashedDepth true "mysql"
      (String.length twoStatements) twoStatements.
Proof.
  refine (dialect_matters_for_create_only Scanner.scanToken StashedDepth true
            "psql" "mysql" (String.length twoStatements) twoStatements
            (ParseResult.tokens twoStatementsResult) _ _).
  - vm_compute. reflexivity.
  - vm_compute. repeat constructor.
Defined.

Lemma parseLoop_more_fuel (scan : State -> Token * State) (r : Resolution)
    (strict : bool) (d : string) (topEnd : Z) (fuel : nat) :
  forall l out fuel', parseLoop scan r strict d fuel topEnd l = Some out ->
    (fuel <= fuel')%nat ->
    parseLoop scan r strict d fuel' topEnd l = Some out.
Proof.
  induction fuel as [|fuel IH]; intros l out fuel'; cbn.
  - destruct (_ <? _) eqn:E; [discriminate|]. intros H _.
    destruct fuel'; cbn; rewrite E; assumption.
  - destruct (_ <? _) eqn:E.
    + intros H Hle. destruct fuel' as [|fuel']; [lia|]. cbn. rewrite E.
      destruct (parseStep scan r strict d l) as [l1|e]; [|assumption].
      apply IH; [assumption | lia].
    + intros H _. destruct fuel'; cbn; rewrite E; assumption.
Qed.

(** X10. With a scanner that moves the cursor on by at least one character
    per token and stays within the input, [parse] returns, with a result or
    an error, after at most [input.length] turns of its loop: allowing more
    turns does not change the outcome. *)
Theorem parse_returns_within_length (scan : State -> Token * State)
    (r : Resolution) (strict : bool) (d : string) (input : string) :
  scannerOkb scan input = true ->
  exists out, forall fuel, (String.length input <= fuel)%nat ->
    parseFuel scan r strict d fuel input = Some out.
Proof.
  intros Hscan.
  destruct (parseLoop_returns scan r strict d input Hscan (String.length input)
              (mkLoop (initState_input input) None [] []) (loopRanged_init input))
    as [out E].
  { unfold length_Z. cbn. lia. }
  exists (match out with Ok l => Ok (finish (initState_input input) l)
                       | Err e => Err e end).
  intros fuel Hf. unfold parseFuel.
  change (State.end_ (initState_input input)) with (length_Z input - 1).
  rewrite (parseLoop_more_fuel scan r strict d _ _ _ out fuel E Hf).
  destruct out; reflexivity.
Qed.

Lemma parse_returns_within_length_witness :
  exists out, forall fuel, (String.length twoStatements <= fuel)%nat ->
    parseFuel Scanner.scanToken StashedDepth true "generic" fuel twoStatements
    = Some out.
Proof.
  refine (parse_returns_within_length Scanner.scanToken StashedDepth true
            "generic" twoStatements _).
  vm_compute. reflexivity.
Defined.

Lemma endHandling_relax (r : Resolution) (p : Parser) (t : Token) :
  endHandling r (relax p) t = map_flow relax (endHandling r p t).
Proof.
  unfold endHandling. cbn [relax Parser.statement Parser.dialect].
  destruct r; split_ifs; reflexivity.
Qed.

Lemma optionalAndOpeners_relax (p : Parser) (t : Token) :
  optionalAndOpeners (relax p) t = map_flow relax (optionalAndOpeners p t).
Proof.
  unfold optionalAndOpeners. cbn [relax Parser.statement Parser.dialect].
  split_ifs; reflexivity.
Qed.

Lemma definerClause_relax (p : Parser) (t : Token) :
  definerClause (relax p) t = map_result (map_flow relax) (definerClause p t).
Proof.
  unfold definerClause, prevIsWhitespace.
  cbn [relax Parser.statement Parser.dialect Parser.prevToken].
  destruct (Parser.prevToken p); split_ifs; reflexivity.
Qed.

Lemma stepMachine_relax (p q : Parser) (t : Token) :
  stepMachine p t = Ok q -> stepMachine (relax p) t = Ok (relax q).
Proof.
  unfold stepMachine, stepAt, hasRequiredBefore.
  cbn [relax Parser.statement Parser.steps Parser.currentStepIndex
       Parser.prevToken Parser.isStrict Parser.dialect].
  destruct (truthy _); [intros E; inversion E; reflexivity|].
  destruct (nth_error _ _) as [s0|]; [cbn [bind]|discriminate].
  destruct (nth_error _ _) as [s1|]; [cbn [bind]|discriminate].
  destruct (Step.requireBefore s1).
  - destruct (Parser.prevToken p); cbn [bind]; [|discriminate].
    destruct (negb _); [discriminate|].
    rewrite andb_false_r.
    destruct (negb _ && _)%bool; [destruct (Step.validation s1); discriminate|].
    intros E; inversion E; reflexivity.
  - cbn [bind negb]. rewrite andb_false_r.
    destruct (negb _ && _)%bool; [destruct (Step.validation s1); discriminate|].
    intros E; inversion E; reflexivity.
Qed.

(** A token the strict parser takes, the non-strict parser takes alike. *)
Lemma addToken_relax (r : Resolution) (p q : Parser) (t : Token) :
  addToken r p t = Ok q -> addToken r (relax p) t = Ok (relax q).
Proof.
  unfold addToken.
  change (Parser.statement (relax p)) with (Parser.statement p).
  destruct (truthy _); [discriminate|].
  change (semicolonEnds (relax p) t) with (semicolonEnds p t).
  destruct (semicolonEnds p t); [intros E; inversion E; reflexivity|].
  rewrite endHandling_relax.
  destruct (endHandling r p t) as [p1|p1]; cbn [map_flow];
    [intros E; inversion E; reflexivity|].
  rewrite optionalAndOpeners_relax.
  destruct (optionalAndOpeners p1 t) as [p2|p2]; cbn [map_flow];
    [intros E; inversion E; reflexivity|].
  rewrite definerClause_relax.
  destruct (definerClause p2 t) as [f|e]; cbn [map_result bind]; [|discriminate].
  destruct f as [p3|p3]; cbn [map_flow]; [intros E; inversion E; reflexivity|].
  apply stepMachine_relax.
Qed.

Lemma selected_relax (t : Token) (d : string) (sp : Parser) :
  createStatementParserByToken t (mkOptions true d) = Ok sp ->
  createStatementParserByToken t (mkOptions false d) = Ok (relax sp).
Proof.
  unfold createStatementParserByToken. cbn [opt_isStrict negb andb].
  split_ifs; intros E; inversion E; reflexivity.
Qed.

Lemma feed_relax (r : Resolution) (l l' : Loop) (ts : State) (t : Token)
    (sp : Parser) :
  feed r l ts t sp = Ok l' ->
  feed r (relaxLoop l) ts t (relax sp) = Ok (relaxLoop l').
Proof.
  unfold feed.
  destruct (addToken r sp t) as [q|e] eqn:E; cbn [bind]; [|discriminate].
  rewrite (addToken_relax r sp q t E). cbn [bind].
  unfold getStatement. change (Parser.statement (relax q)) with (Parser.statement q).
  destruct (truthy _); intros H; inversion H; reflexivity.
Qed.

Lemma parseStep_relax (scan : State -> Token * State) (r : Resolution)
    (d : string) (l l' : Loop) :
  parseStep scan r true d l = Ok l' ->
  parseStep scan r false d (relaxLoop l) = Ok (relaxLoop l').
Proof.
  unfold parseStep. change (prevState (relaxLoop l)) with (prevState l).
  destruct (scan _) as [t ts].
  change (statementParser (relaxLoop l)) with (option_map relax (statementParser l)).
  change (body (relaxLoop l)) with (body l).
  change (tokens (relaxLoop l)) with (tokens l).
  destruct (statementParser l) as [sp|] eqn:Esp; cbn [option_map].
  - apply feed_relax.
  - destruct (existsb _ _); [intros E; inversion E; reflexivity|].
    destruct (createStatementParserByToken t (mkOptions true d)) as [sp|e] eqn:Ec;
      cbn [bind]; [|discriminate].
    rewrite (selected_relax t d sp Ec). cbn [bind]. intros H.
    apply feed_relax in H. revert H. unfold relaxLoop at 1. rewrite Esp. cbn.
    auto.
Qed.

Lemma parseLoop_relax (scan : State -> Token * State) (r : Resolution)
    (d : string) (topEnd : Z) (fuel : nat) :
  forall l l', parseLoop scan r true d fuel topEnd l = Some (Ok l') ->
    parseLoop scan r false d fuel topEnd (relaxLoop l) = Some (Ok (relaxLoop l')).
Proof.
  induction fuel as [|fuel IH]; intros l l'; cbn.
  - destruct (_ <? _); [discriminate|]. intros E; inversion E; reflexivity.
  - destruct (_ <? _); [|intros E; inversion E; reflexivity].
    destruct (parseStep scan r true d l) as [l1|e] eqn:E1; [|discriminate].
    rewrite (parseStep_relax scan r d l l1 E1). apply IH.
Qed.

(** X11. Non-strict mode extends strict mode: an input that [parse] accepts
    in strict mode gives the very same result in non-strict mode. *)
Theorem strict_result_is_nonstrict_result (scan : State -> Token * State)
    (r : Resolution) (d : string) (fuel : nat) (input : string)
    (res : ParseResult) :
  parseFuel scan r true d fuel input = Some (Ok res) ->
  parseFuel scan r false d fuel input = Some (Ok res).
Proof.
  unfold parseFuel.
  destruct (parseLoop scan r true d fuel _ _) as [[l|e]|] eqn:E; try discriminate.
  intros H. inversion H; subst; clear H.
  apply parseLoop_relax in E. unfold relaxLoop at 1 in E. cbn in E.
  cbn. rewrite E. f_equal. f_equal. unfold finish, relaxLoop, getStatement. cbn.
  destruct (statementParser l); reflexivity.
Qed.

Lemma strict_result_is_nonstrict_result_witness :
  parseFuel Scanner.scanToken StashedDepth false "generic"
    (String.length twoStatements) twoStatements
  = Some (Ok twoStatementsResult).
Proof.
  refine (strict_result_is_nonstrict_result Scanner.scanToken StashedDepth
            "generic" (String.length twoStatements) twoStatements
            twoStatementsResult _).
  vm_compute. reflexivity.
Defined.

Lemma first_token_follows (r : Resolution) (token : Token) (o : Options)
    (sp q : Parser) :
  createStatementParserByToken token o = Ok sp ->
  addToken r sp token = Ok q ->
  follows token q.
Proof.
  unfold createStatementParserByToken.
  destruct (Token.kind_eqb (Token.type token) Token.keyword) eqn:Ek.
  - apply kind_eqb_eq in Ek.
    repeat match goal with
           | |- context [String.eqb (toUpperCase (Token.value token)) ?k] =>
               destruct (String.eqb_spec (toUpperCase (Token.value token)) k) as [Ev|_];
               [ intros E; inversion E; subst sp; clear E;
                 unfold addToken, semicolonEnds, endHandling, optionalAndOpeners,
                   definerClause, stepMachine, isValidToken,
                   createSelectStatementParser, createInsertStatementParser,
                   createUpdateStatementParser, createDeleteStatementParser,
                   createCreateStatementParser, createDropStatementParser,
                   createTruncateStatementParser, stateMachineStatementParser;
                 cbn [opt_dialect opt_isStrict];
                 try (destruct (includes dialectsWithOpenBlocks (opt_dialect o)));
                 cbn; rewrite Ek, Ev; cbn;
                 rewrite ?andb_false_r; cbn;
                 destruct r; cbn; rewrite ?andb_false_r; cbn; split_ifs;
                 intros E; inversion E; subst; clear E;
                 unfold follows, typedBy; cbn; rewrite Ek, Ev; cbn;
                 repeat split; eauto; try discriminate; try lia
               | ]
           end.
    rewrite Ek. cbn. rewrite andb_false_r. discriminate.
  - destruct (negb (opt_isStrict o) && _)%bool eqn:Eu; [|discriminate].
    apply andb_prop in Eu. destruct Eu as [_ Eu]. apply kind_eqb_eq in Eu.
    intros E; inversion E; subst sp; clear E.
    unfold addToken, semicolonEnds, endHandling, optionalAndOpeners,
      definerClause, stepMachine, isValidToken, createUnknownStatementParser,
      stateMachineStatementParser.
    cbn. rewrite Eu. cbn. destruct r; cbn.
    all: intros E; inversion E; subst; clear E.
    all: unfold follows, typedBy; cbn; rewrite Eu; repeat split; eauto;
         try lia; discriminate.
Qed.

Lemma follows_same (t : Token) (p q : Parser) :
  follows t p -> same_classification p q -> follows t q.
Proof.
  unfold follows, typedBy, same_classification.
  intros (H1 & H2 & H3 & H4) (S1 & _ & S3 & _ & _ & S6 & S7 & _).
  rewrite S1, S3, S6, S7. auto.
Qed.

Lemma follows_typed (t : Token) (p : Parser) :
  follows t p ->
  truthy (Statement.type (Parser.statement p)) = true \/
  Statement.type (Parser.statement p) = None.
Proof.
  unfold follows, typedBy. intros (_ & _ & H & _).
  destruct (Token.type t); try contradiction.
  - destruct (includes plainKeywords (toUpperCase (Token.value t))) eqn:E.
    + rewrite H. left. apply includes_In in E. simpl in E.
      repeat (destruct E as [E | E]; [rewrite <- E; reflexivity|]). contradiction.
    + destruct H as [[Hk | Hk] [Hn | [v Hv]]]; auto; left; rewrite Hv, Hk;
        reflexivity.
  - rewrite H. left. reflexivity.
Qed.

Lemma stepMachine_follows (t : Token) (p q : Parser) (t' : Token) :
  follows t p -> stepMachine p t' = Ok q -> follows t q.
Proof.
  intros Hf. destruct (follows_typed t p Hf) as [Hty | Hty];
    unfold stepMachine; rewrite Hty.
  { intros E; inversion E; subst. assumption. }
  cbn [truthy]. destruct Hf as (H1 & H2 & H3 & H4).
  unfold stepAt, hasRequiredBefore.
  destruct p as [st steps idx prev strict dial]. cbn in *.
  destruct idx as [|[|idx]]; [lia| |].
  - destruct (H4 Hty) as [[Hk ->] | [Hk ->]]; cbn.
    all: destruct (negb _ && strict)%bool; [discriminate|].
    all: intros E; inversion E; subst; clear E.
    all: unfold follows, typedBy in *; cbn.
    all: destruct (Token.type t); try contradiction.
    all: rewrite Hk in *; cbn in *.
    all: try congruence.
    all: repeat split; eauto; try lia; discriminate.
  - destruct (H4 Hty) as [[Hk ->] | [Hk ->]]; destruct idx; cbn; discriminate.
Qed.

Lemma addToken_follows (r : Resolution) (t : Token) (p q : Parser) (t' : Token) :
  follows t p -> addToken r p t' = Ok q -> follows t q.
Proof.
  intros Hp H. destruct (addToken_cases r p q t' H) as [_ [-> | [S | [p' [S H']]]]].
  - exact Hp.
  - eapply follows_same; eauto.
  - eapply stepMachine_follows; [|eassumption]. eapply follows_same; eauto.
Qed.

Lemma parseStep_follows (scan : State -> Token * State) (r : Resolution)
    (strict : bool) (d : string) (l l' : Loop) :
  loopFollows l -> parseStep scan r strict d l = Ok l' -> loopFollows l'.
Proof.
  intros [Hb Hsp] H.
  destruct (scan (initState_prev (prevState l))) as [token ts] eqn:E.
  assert (Hb' : Forall (fun st => exists t, In t (tokens l ++ [token])%list /\
                          Statement.start st = Some (Token.start t) /\ typedBy t st)
                       (body l)).
  { eapply Forall_impl; [|exact Hb]. cbn. intros st (t & H1 & H2).
    exists t. split; [apply in_or_app; auto | assumption]. }
  destruct (parseStep_cases scan r strict d l l' H token ts E)
    as [(E1 & _ & ->) | [q [Hq Hl']]].
  - split; [exact Hb' | intros sp Hx; discriminate].
  - assert (Gq : exists t, In t (tokens l ++ [token])%list /\ follows t q).
    { destruct Hq as [[sp [E1 E2]] | [_ [sp [E2 E3]]]].
      - destruct (Hsp sp E1) as (t & Hin & Hf). exists t.
        split; [apply in_or_app; auto|]. eapply addToken_follows; eauto.
      - exists token. split; [apply in_or_app; right; left; reflexivity|].
        eapply first_token_follows; eauto. }
    destruct Hl' as [[_ ->] | [_ ->]]; split; cbn [body tokens statementParser].
    + apply Forall_app. split; [exact Hb'|]. constructor; [|constructor].
      destruct Gq as (t & Hin & Hs & _ & Hty & _). exists t. auto.
    + intros sp Hx. discriminate.
    + exact Hb'.
    + intros sp Hx. inversion Hx; subst. exact Gq.
Qed.

(** X13. The type of every statement of a result goes with the token it
    starts at: the statement starts at the start of one of the tokens, and
    its type is SELECT, INSERT, UPDATE, DELETE or TRUNCATE when that token is
    this keyword; CREATE_ or DROP_ followed by an object word, or no type,
    when it is CREATE or DROP; and UNKNOWN when it is a token of type
    unknown. *)
Theorem type_follows_leading_token (scan : State -> Token * State)
    (r : Resolution) (strict : bool) (d : string) (fuel : nat) (input : string)
    (res : ParseResult) :
  parseFuel scan r strict d fuel input = Some (Ok res) ->
  Forall (fun st => exists t, In t (ParseResult.tokens res) /\
                      Statement.start st = Some (Token.start t) /\ typedBy t st)
         (ParseResult.body res).
Proof.
  unfold parseFuel.
  destruct (parseLoop _ _ _ _ _ _ _) as [[l|e]|] eqn:E; try discriminate.
  intros H. inversion H; subst; clear H.
  apply (parseLoop_invariant loopFollows) in E.
  - destruct E as [[Hb Hsp] _]. unfold finish, getStatement.
    cbn [ParseResult.body ParseResult.tokens].
    destruct (statementParser l) as [sp|]; [|assumption].
    destruct (negb _); [|assumption].
    apply Forall_app. split; [assumption|]. constructor; [|constructor].
    destruct (Hsp sp eq_refl) as (t & Hin & Hs & _ & Hty & _). exists t. auto.
  - intros l0 l1 Hl0 _ Hstep. eapply parseStep_follows; eauto.
  - split; [constructor | intros sp Hx; discriminate].
Qed.

Lemma type_follows_leading_token_witness :
  Forall (fun st => exists t, In t (ParseResult.tokens twoStatementsResult) /\
                      Statement.start st = Some (Token.start t) /\ typedBy t st)
         (ParseResult.body twoStatementsResult).
Proof.
  refine (type_follows_leading_token Scanner.scanToken StashedDepth true "generic"
            (String.length twoStatements) twoStatements twoStatementsResult _).
  vm_compute. reflexivity.
Defined.

(** ** The statement parsers *)

(** X14. The second step of CREATE and DROP. A token that reaches the step
    machine of a CREATE parser waiting for its object word is taken, in
    strict mode, only if it is one of the keywords TABLE, DATABASE, TRIGGER
    and FUNCTION in any letter case, and otherwise throws 'Expected any of
    these tokens ... (currentStep=1)'; non-strict mode takes any token. The
    token taken gives the type CREATE_ followed by its upper-cased value,
    and the execution type the table has for it. Likewise for DROP with
    TABLE and DATABASE. All three alternatives of the merge agree here. *)
Theorem object_word_step (r : Resolution) (p : Parser) (t : Token) :
  awaitsObject p -> reachesStep p t = true ->
  (Parser.steps p = createSteps ->
   addToken r p t
   = if (Parser.isStrict p
         && negb (isObjectKeyword ["TABLE"; "DATABASE"; "TRIGGER"; "FUNCTION"] t))%bool
     then Err (ExpectedTokens
                 [(Token.keyword, "TABLE"); (Token.keyword, "DATABASE");
                  (Token.keyword, "TRIGGER"); (Token.keyword, "FUNCTION")]
                 (Token.type t) (Token.value t) 1)
     else Ok (withObject "CREATE_" t p)) /\
  (Parser.steps p = dropSteps ->
   addToken r p t
   = if (Parser.isStrict p
         && negb (isObjectKeyword ["TABLE"; "DATABASE"] t))%bool
     then Err (ExpectedTokens
                 [(Token.keyword, "TABLE"); (Token.keyword, "DATABASE")]
                 (Token.type t) (Token.value t) 1)
     else Ok (withObject "DROP_" t p)).
Proof.
  intros (Ha & Hty & Hidx & Hdef) Hr.
  unfold reachesStep in Hr.
  repeat (apply andb_prop in Hr; destruct Hr as [Hr ?]).
  repeat match goal with
         | H : negb _ = true |- _ => apply negb_true_iff in H
         end.
  unfold active in Ha.
  assert (Hstep : addToken r p t = stepMachine p t).
  { unfold addToken, semicolonEnds, endHandling, optionalAndOpeners.
    rewrite Ha, Hr, Hty. cbn [includes_opt eq_opt].
    rewrite !andb_false_r. cbn [andb].
    assert (E1 : (String.eqb (Parser.dialect p) "psql"
                  && includes ["OR"; "REPLACE"] (toUpperCase (Token.value t)))%bool
                 = false).
    { destruct (String.eqb (Parser.dialect p) "psql"); [|reflexivity].
      cbn [andb] in *. unfold includes, existsb in *.
      repeat match goal with
             | H : (_ || _)%bool = false |- _ =>
                 apply orb_false_elim in H; destruct H
             end.
      repeat match goal with H : _ = false |- _ => rewrite H end. reflexivity. }
    assert (E2 : (includes dialectsWithOpenBlocks (Parser.dialect p)
                  && includes blockOpeners (toUpperCase (Token.value t)))%bool
                 = false).
    { unfold dialectsWithOpenBlocks, blockOpeners.
      unfold includes at 1. cbn [existsb]. rewrite orb_false_r.
      rewrite String.eqb_sym.
      destruct (String.eqb "psql" (Parser.dialect p)) eqn:Ep; [|reflexivity].
      rewrite String.eqb_sym in Ep. rewrite Ep in *.
      cbn [andb] in *. unfold includes, existsb in *.
      repeat match goal with
             | H : (_ || _)%bool = false |- _ =>
                 apply orb_false_elim in H; destruct H
             end.
      repeat match goal with H : _ = false |- _ => rewrite H end. reflexivity. }
    assert (E3 : forall q, Parser.statement q = Parser.statement p ->
                   Parser.dialect q = Parser.dialect p ->
                   definerClause q t = Ok (Continue q)).
    { intros q Hs Hd. unfold definerClause. rewrite Hs, Hd.
      match goal with H : (_ && String.eqb _ "DEFINER")%bool = false |- _ =>
        rewrite H end.
      destruct (Statement.definer (Parser.statement p)) as [| |n] eqn:Ed;
        [reflexivity | reflexivity | exfalso; exact (Hdef n eq_refl)]. }
    destruct r; rewrite ?H1, ?E1, ?E2; cbn [andb];
      rewrite (E3 p eq_refl eq_refl); reflexivity. }
  split; intros Hs; rewrite Hstep; unfold stepMachine, stepAt, hasRequiredBefore,
    isObjectKeyword, withObject; rewrite Hty, Hidx, Hs; cbn;
    unfold isValidToken; cbn;
    destruct (Token.kind_eqb (Token.type t) Token.keyword); cbn;
    destruct (Parser.isStrict p); cbn; try reflexivity;
    repeat match goal with
           | |- context [String.eqb ?v ?k] =>
               destruct (String.eqb_spec v k) as [Ev|_]; cbn
           end; rewrite <- ?Hs; reflexivity.
Qed.

Lemma object_word_step_witness :
  (Parser.steps awaitingCreate = createSteps ->
   addToken StashedDepth awaitingCreate (Token.mk Token.keyword "trigger" 7 13)
   = if (Parser.isStrict awaitingCreate
         && negb (isObjectKeyword ["TABLE"; "DATABASE"; "TRIGGER"; "FUNCTION"]
                    (Token.mk Token.keyword "trigger" 7 13)))%bool
     then Err (ExpectedTokens
                 [(Token.keyword, "TABLE"); (Token.keyword, "DATABASE");
                  (Token.keyword, "TRIGGER"); (Token.keyword, "FUNCTION")]
                 Token.keyword "trigger" 1)
     else Ok (withObject "CREATE_" (Token.mk Token.keyword "trigger" 7 13)
                awaitingCreate)) /\
  (Parser.steps awaitingCreate = dropSteps ->
   addToken StashedDepth awaitingCreate (Token.mk Token.keyword "trigger" 7 13)
   = if (Parser.isStrict awaitingCreate
         && negb (isObjectKeyword ["TABLE"; "DATABASE"]
                    (Token.mk Token.keyword "trigger" 7 13)))%bool
     then Err (ExpectedTokens
                 [(Token.keyword, "TABLE"); (Token.keyword, "DATABASE")]
                 Token.keyword "trigger" 1)
     else Ok (withObject "DROP_" (Token.mk Token.keyword "trigger" 7 13)
                awaitingCreate)).
Proof.
  refine (object_word_step StashedDepth awaitingCreate
            (Token.mk Token.keyword "trigger" 7 13) _ _).
  - unfold awaitsObject, active. cbn. repeat split; try reflexivity.
    intros n. discriminate.
  - reflexivity.
Defined.

(** The strict parser takes [trigger] in lower case. *)
Lemma object_word_example :
  option_map (map_result (fun res => map Statement.type (ParseResult.body res)))
    (parse Scanner.scanToken StashedDepth true "generic" "create trigger t;")
  = Some (Ok [Some "CREATE_TRIGGER"]).
Proof. vm_compute. reflexivity. Qed.

Lemma endHandling_forgetPrev (r : Resolution) (p : Parser) (t : Token) :
  map_flow forgetPrev (endHandling r (forgetPrev p) t)
  = map_flow forgetPrev (endHandling r p t) /\
  (forall q, endHandling r p t = Continue q ->
     endHandling r (forgetPrev p) t = Continue (forgetPrev q)).
Proof.
  unfold endHandling. cbn [forgetPrev Parser.statement Parser.dialect].
  destruct r; split_ifs; split; try reflexivity; intros q E; inversion E;
    reflexivity.
Qed.

Lemma optionalAndOpeners_forgetPrev (p : Parser) (t : Token) :
  map_flow forgetPrev (optionalAndOpeners (forgetPrev p) t)
  = map_flow forgetPrev (optionalAndOpeners p t) /\
  (forall q, optionalAndOpeners p t = Continue q ->
     optionalAndOpeners (forgetPrev p) t = Continue (forgetPrev q)).
Proof.
  unfold optionalAndOpeners. cbn [forgetPrev Parser.statement Parser.dialect].
  split_ifs; split; try reflexivity; intros q E; inversion E; reflexivity.
Qed.

Lemma definerClause_noDefiner (p : Parser) (t : Token) :
  Parser.dialect p <> "mysql" ->
  Statement.definer (Parser.statement p) = DefUndefined ->
  definerClause p t = Ok (Continue p).
Proof.
  intros Hd Hu. unfold definerClause. rewrite Hu.
  apply String.eqb_neq in Hd. rewrite Hd. reflexivity.
Qed.

Lemma stepMachine_forgetPrev (p : Parser) (t : Token) :
  In (Parser.steps p) knownSteps ->
  map_result forgetPrev (stepMachine (forgetPrev p) t)
  = map_result forgetPrev (stepMachine p t).
Proof.
  intros Hk. unfold stepMachine, stepAt, hasRequiredBefore.
  cbn [forgetPrev Parser.statement Parser.steps Parser.currentStepIndex
       Parser.prevToken Parser.isStrict Parser.dialect].
  destruct (truthy _); [reflexivity|].
  destruct (nth_error _ _) as [s0|]; [cbn [bind]|reflexivity].
  destruct (nth_error (Parser.steps p) _) as [s1|] eqn:E1; [cbn [bind]|reflexivity].
  destruct (knownSteps_add _ _ s1 t (Parser.statement p) Hk E1)
    as (_ & _ & _ & _ & G5).
  rewrite G5. reflexivity.
Qed.

(** Outside a definer clause the previous token is not read: forgetting it
    changes nothing but itself. *)
Lemma addToken_forgetPrev (r : Resolution) (p : Parser) (t : Token) :
  noDefiner p ->
  map_result forgetPrev (addToken r (forgetPrev p) t)
  = map_result forgetPrev (addToken r p t).
Proof.
  intros (Hk & Hd & Hu). unfold addToken.
  change (Parser.statement (forgetPrev p)) with (Parser.statement p).
  destruct (truthy _); [reflexivity|].
  change (semicolonEnds (forgetPrev p) t) with (semicolonEnds p t).
  destruct (semicolonEnds p t); [reflexivity|].
  destruct (endHandling_forgetPrev r p t) as [F1 F2].
  pose proof (endHandling_same r p t) as S1.
  destruct (endHandling r p t) as [p1|p1] eqn:E1.
  { destruct (endHandling r (forgetPrev p) t); cbn in F1; [|discriminate].
    cbn. congruence. }
  rewrite (F2 p1 eq_refl). cbn in S1.
  destruct (optionalAndOpeners_forgetPrev p1 t) as [G1 G2].
  pose proof (optionalAndOpeners_same p1 t) as S2.
  destruct (optionalAndOpeners p1 t) as [p2|p2] eqn:E2.
  { destruct (optionalAndOpeners (forgetPrev p1) t); cbn in G1; [|discriminate].
    cbn. congruence. }
  rewrite (G2 p2 eq_refl). cbn in S2.
  pose proof (same_classification_trans _ _ _ S1 S2) as S12.
  unfold same_classification in S12.
  destruct S12 as (_ & _ & _ & _ & _ & S6 & _ & _ & S9).
  assert (Hu2 : Statement.definer (Parser.statement p2) = DefUndefined).
  { revert E1 E2. unfold endHandling, optionalAndOpeners.
    destruct r; split_ifs; intros E1 E2; inversion E1; subst; inversion E2; subst;
      cbn; assumption. }
  rewrite (definerClause_noDefiner p2 t) by (rewrite ?S9; assumption).
  rewrite (definerClause_noDefiner (forgetPrev p2) t)
    by (cbn; rewrite ?S9; assumption).
  cbn [bind]. apply stepMachine_forgetPrev. rewrite S6. exact Hk.
Qed.

Lemma addTokens_forgetPrev (r : Resolution) (ts : list Token) :
  forall p, noDefiner p ->
    map_result forgetPrev (addTokens r (forgetPrev p) ts)
    = map_result forgetPrev (addTokens r p ts).
Proof.
  induction ts as [|t ts IH]; intros p Hp; [reflexivity|].
  rewrite !addTokens_cons.
  pose proof (addToken_forgetPrev r p t Hp) as H.
  assert (Hp' : noDefiner (forgetPrev p)) by exact Hp.
  destruct (addToken r p t) as [q|e] eqn:E;
    destruct (addToken r (forgetPrev p) t) as [q'|e'] eqn:E'; cbn [map_result] in H;
    try discriminate; cbn [bind].
  - assert (H' : forgetPrev q' = forgetPrev q) by congruence.
    rewrite <- (IH q (addToken_noDefiner r p q t Hp E)).
    rewrite <- (IH q' (addToken_noDefiner r _ q' t Hp' E')).
    rewrite H'. reflexivity.
  - exact H.
Qed.



(** CREATE OR REPLACE FUNCTION is a CREATE_FUNCTION under psql. *)
Lemma psql_or_replace_example :
  option_map (map_result (fun res => map Statement.type (ParseResult.body res)))
    (parse Scanner.scanToken StashedDepth true "psql"
       "CREATE OR REPLACE FUNCTION f() RETURNS int;")
  = Some (Ok [Some "CREATE_FUNCTION"]).
Proof. vm_compute. reflexivity. Qed.

Lemma upper_ascii_idem (c : ascii) : upper_ascii (upper_ascii c) = upper_ascii c.
Proof. destruct c as [[] [] [] [] [] [] [] []]; reflexivity. Qed.

Lemma toUpperCase_idem (s : string) : toUpperCase (toUpperCase s) = toUpperCase s.
Proof.
  induction s as [|c s IH]; [reflexivity|]. cbn [toUpperCase].
  rewrite upper_ascii_idem, IH. reflexivity.
Qed.

Lemma toUpperCase_equals (s : string) :
  String.eqb (toUpperCase s) "=" = String.eqb s "=".
Proof.
  destruct s as [|c s]; [reflexivity|]. cbn [toUpperCase String.eqb].
  replace (Ascii.eqb (upper_ascii c) "=") with (Ascii.eqb c "=")
    by (destruct c as [[] [] [] [] [] [] [] []]; reflexivity).
  destruct s; reflexivity.
Qed.

Lemma endHandling_upcase (r : Resolution) (p : Parser) (t : Token) :
  r <> UpstreamEnd ->
  endHandling r (mapPrev upcase p) (upcase t)
  = map_flow (mapPrev upcase) (endHandling r p t).
Proof.
  intros Hr. unfold endHandling.
  cbn [mapPrev upcase Token.value Token.type Parser.statement Parser.dialect].
  rewrite toUpperCase_idem.
  destruct r; [| |contradiction]; split_ifs; reflexivity.
Qed.

Lemma optionalAndOpeners_upcase (p : Parser) (t : Token) :
  optionalAndOpeners (mapPrev upcase p) (upcase t)
  = map_flow (mapPrev upcase) (optionalAndOpeners p t).
Proof.
  unfold optionalAndOpeners.
  cbn [mapPrev upcase Token.value Token.type Parser.statement Parser.dialect].
  rewrite toUpperCase_idem. split_ifs; reflexivity.
Qed.

Lemma definerClause_upcase (p : Parser) (t : Token) :
  definerClause (mapPrev upcase p) (upcase t)
  = map_outcome (map_flow (mapPrev upcase)) upcaseError (definerClause p t).
Proof.
  unfold definerClause, prevIsWhitespace.
  cbn [mapPrev upcase Token.value Token.type Parser.statement Parser.dialect
       Parser.prevToken].
  rewrite toUpperCase_idem, toUpperCase_equals.
  destruct (Parser.prevToken p); cbn [option_map upcase Token.type];
    split_ifs; reflexivity.
Qed.

Lemma stepMachine_upcase (p : Parser) (t : Token) :
  In (Parser.steps p) knownSteps ->
  stepMachine (mapPrev upcase p) (upcase t)
  = map_outcome (mapPrev upcase) upcaseError (stepMachine p t).
Proof.
  intros Hk. unfold stepMachine.
  cbn [mapPrev Parser.statement].
  destruct (truthy _); [reflexivity|].
  unfold stepAt, hasRequiredBefore, isValidToken.
  destruct p as [st steps idx prev strict dial].
  cbn [mapPrev Parser.statement Parser.steps Parser.currentStepIndex
       Parser.prevToken Parser.isStrict Parser.dialect] in *.
  simpl in Hk.
  repeat (destruct Hk as [Hk | Hk];
    [subst steps; destruct idx as [|[|idx]];
     try (destruct idx; reflexivity); try reflexivity;
     cbn; rewrite ?toUpperCase_idem; split_ifs; reflexivity|]).
  contradiction.
Qed.

(** [addToken] reads the value of a token in upper case only, but for the
    [END] of the [UpstreamEnd] alternative. *)
Lemma addToken_upcase (r : Resolution) (p : Parser) (t : Token) :
  r <> UpstreamEnd -> In (Parser.steps p) knownSteps ->
  addToken r (mapPrev upcase p) (upcase t)
  = map_outcome (mapPrev upcase) upcaseError (addToken r p t).
Proof.
  intros Hr Hk. unfold addToken.
  change (Parser.statement (mapPrev upcase p)) with (Parser.statement p).
  destruct (truthy _); [reflexivity|].
  change (semicolonEnds (mapPrev upcase p) (upcase t)) with (semicolonEnds p t).
  destruct (semicolonEnds p t); [reflexivity|].
  rewrite (endHandling_upcase r p t Hr).
  pose proof (endHandling_same r p t) as S1.
  destruct (endHandling r p t) as [p1|p1]; cbn [map_flow]; [reflexivity|].
  rewrite optionalAndOpeners_upcase.
  pose proof (optionalAndOpeners_same p1 t) as S2.
  destruct (optionalAndOpeners p1 t) as [p2|p2]; cbn [map_flow]; [reflexivity|].
  rewrite definerClause_upcase.
  destruct (definerClause p2 t) as [f|e] eqn:E3; cbn [map_outcome bind].
  - pose proof (definerClause_same p2 t f E3) as S3.
    destruct f as [p3|p3]; cbn [map_flow]; [reflexivity|].
    apply stepMachine_upcase.
    cbn in S1, S2, S3. unfold same_classification in S1, S2, S3.
    destruct S1 as (_ & _ & _ & _ & _ & S1 & _).
    destruct S2 as (_ & _ & _ & _ & _ & S2 & _).
    destruct S3 as (_ & _ & _ & _ & _ & S3 & _).
    rewrite S3, S2, S1. exact Hk.
  - revert E3. unfold definerClause, prevIsWhitespace.
    destruct (Parser.prevToken p2); split_ifs; intros E; inversion E; reflexivity.
Qed.

Lemma selected_upcase (t : Token) (o : Options) :
  createStatementParserByToken (upcase t) o
  = map_outcome (mapPrev upcase) upcaseError (createStatementParserByToken t o).
Proof.
  unfold createStatementParserByToken.
  cbn [upcase Token.value Token.type]. rewrite toUpperCase_idem.
  split_ifs; reflexivity.
Qed.

Lemma feed_upcase (r : Resolution) (l : Loop) (ts : State) (t : Token)
    (sp : Parser) :
  r <> UpstreamEnd -> In (Parser.steps sp) knownSteps ->
  feed r (upcaseLoop l) ts (upcase t) (mapPrev upcase sp)
  = map_outcome upcaseLoop upcaseError (feed r l ts t sp).
Proof.
  intros Hr Hk. unfold feed. rewrite (addToken_upcase r sp t Hr Hk).
  destruct (addToken r sp t) as [q|e]; cbn [map_outcome bind]; [|reflexivity].
  unfold getStatement.
  change (Parser.statement (mapPrev upcase q)) with (Parser.statement q).
  destruct (truthy _); cbn [map_outcome]; unfold upcaseLoop; cbn;
    rewrite map_app; reflexivity.
Qed.

Lemma parseStep_upcase (scan : State -> Token * State) (r : Resolution)
    (strict : bool) (d : string) (l : Loop) :
  r <> UpstreamEnd -> loopSound strict l ->
  parseStep (upcaseScan scan) r strict d (upcaseLoop l)
  = map_outcome upcaseLoop upcaseError (parseStep scan r strict d l).
Proof.
  intros Hr [Hsp _]. unfold parseStep, upcaseScan.
  change (prevState (upcaseLoop l)) with (prevState l).
  destruct (scan _) as [t ts].
  change (statementParser (upcaseLoop l))
    with (option_map (mapPrev upcase) (statementParser l)).
  destruct (statementParser l) as [sp|] eqn:Esp; cbn [option_map].
  - apply feed_upcase; [assumption|].
    destruct (Hsp sp eq_refl) as ((Hk & _) & _). exact Hk.
  - change (Token.type (upcase t)) with (Token.type t).
    destruct (existsb _ _).
    + cbn [map_outcome]. unfold upcaseLoop. cbn. rewrite map_app. reflexivity.
    + rewrite selected_upcase.
      destruct (createStatementParserByToken t _) as [sp|e] eqn:Ec;
        cbn [map_outcome bind]; [|reflexivity].
      rewrite (feed_upcase r l ts t sp Hr).
      * reflexivity.
      * destruct (selected_sound t strict d sp Ec) as ((Hk & _) & _). exact Hk.
Qed.

Lemma parseLoop_upcase (scan : State -> Token * State) (r : Resolution)
    (strict : bool) (d : string) (topEnd : Z) (fuel : nat) :
  r <> UpstreamEnd ->
  forall l, loopSound strict l ->
    parseLoop (upcaseScan scan) r strict d fuel topEnd (upcaseLoop l)
    = option_map (map_outcome upcaseLoop upcaseError)
        (parseLoop scan r strict d fuel topEnd l).
Proof.
  intros Hr. induction fuel as [|fuel IH]; intros l Hl; cbn [parseLoop].
  - change (prevState (upcaseLoop l)) with (prevState l).
    destruct (_ <? _); reflexivity.
  - change (prevState (upcaseLoop l)) with (prevState l).
    destruct (_ <? _); [|reflexivity].
    rewrite (parseStep_upcase scan r strict d l Hr Hl).
    pose proof (parseStep_sound scan r strict d l Hl) as Hs.
    destruct (parseStep scan r strict d l) as [l1|e]; cbn [map_outcome];
      [|reflexivity].
    apply IH. exact Hs.
Qed.

(** X16. Letter case is ignored: when the scanner hands every token over
    with its value in upper case, [parse] gives the same statements, and
    throws in the same cases the same error with the quoted token value in
    upper case. This holds for the alternatives of the merge that compare
    [END] in upper case. *)
Theorem letter_case_is_ignored (scan : State -> Token * State)
    (r : Resolution) (strict : bool) (d : string) (fuel : nat) (input : string) :
  r <> UpstreamEnd ->
  parseFuel (upcaseScan scan) r strict d fuel input
  = option_map (map_outcome upcaseResult upcaseError)
      (parseFuel scan r strict d fuel input).
Proof.
  intros Hr. unfold parseFuel.
  pose proof (parseLoop_upcase scan r strict d (State.end_ (initState_input input))
                fuel Hr _ (loopSound_init strict input)) as H.
  unfold upcaseLoop at 1 in H.
  cbn [prevState statementParser body tokens option_map map] in H.
  rewrite H.
  destruct (parseLoop scan r strict d fuel _ _) as [[l|e]|]; cbn; [|reflexivity..].
  unfold finish, upcaseResult, upcaseLoop, getStatement. cbn.
  destruct (statementParser l); reflexivity.
Qed.

Lemma letter_case_is_ignored_witness :
  parseFuel (upcaseScan Scanner.scanToken) StashedDepth true "generic"
    (String.length lowerSelect) lowerSelect
  = option_map (map_outcome upcaseResult upcaseError)
      (parseFuel Scanner.scanToken StashedDepth true "generic"
         (String.length lowerSelect) lowerSelect).
Proof.
  refine (letter_case_is_ignored Scanner.scanToken StashedDepth true "generic"
            (String.length lowerSelect) lowerSelect _).
  discriminate.
Defined.

(** The [UpstreamEnd] alternative compares [END] as written: a lower-case
    [end] does not let a sqlite trigger end, an upper-case one does. *)
Lemma upstreamEnd_reads_END_as_written :
  map_result (fun q => Statement.canEnd (Parser.statement q))
    (addToken UpstreamEnd sqliteTrigger (Token.mk Token.keyword "end" 30 32))
  = Ok false /\
  map_result (fun q => Statement.canEnd (Parser.statement q))
    (addToken UpstreamEnd sqliteTrigger
       (upcase (Token.mk Token.keyword "end" 30 32)))
  = Ok true.
Proof. split; reflexivity. Qed.

(** ** The alternatives of the merge *)

(** A plain parser takes every token, whatever the alternative: a semicolon
    ends the statement, any other token changes at most [prevToken]. *)
Lemma addToken_plain (r : Resolution) (p : Parser) (t : Token) :
  plainParser p ->
  exists q, addToken r p t = Ok q /\
    forgetPrev q
    = (if Token.kind_eqb (Token.type t) Token.semicolon
       then forgetPrev (Parser.upd (Statement.set_endStatement ";") p)
       else forgetPrev p) /\
    (Token.kind_eqb (Token.type t) Token.semicolon = false -> plainParser q).
Proof.
  intros (Hk & Hd & Hu & Hty & Ha). unfold active in Ha.
  unfold addToken, semicolonEnds, endHandling, optionalAndOpeners.
  rewrite Ha, Hd. cbn [includes dialectsWithEnds dialectsWithOpenBlocks existsb
                       String.eqb Ascii.eqb Bool.eqb andb orb].
  destruct (Token.kind_eqb (Token.type t) Token.semicolon) eqn:Ek.
  { eexists. split; [reflexivity|]. split; [reflexivity | discriminate]. }
  assert (Hstep : forall q, Parser.statement q = Parser.statement p ->
                    Parser.dialect q = Parser.dialect p ->
                    bind (definerClause q t)
                      (fun f => match f with
                                | Return q0 => Ok q0
                                | Continue p3 => stepMachine p3 t
                                end) = Ok q).
  { intros q Hs Hdq.
    rewrite (definerClause_noDefiner q t) by (rewrite ?Hs, ?Hdq, ?Hd; auto; discriminate).
    cbn [bind]. unfold stepMachine. rewrite Hs, Hty. reflexivity. }
  assert (Hrest :
    match
      (if (String.eqb (Parser.dialect p) "psql"
           && (String.eqb (toUpperCase (Token.value t)) "OR"
               || (String.eqb (toUpperCase (Token.value t)) "REPLACE" || false)))%bool
       then Return (Parser.set_prevToken t p)
       else
        if ((String.eqb (Parser.dialect p) "psql" || false)
            && includes blockOpeners (toUpperCase (Token.value t)))%bool
        then Return (Parser.upd (fun s =>
               Statement.set_openBlocks (js_incr (Statement.openBlocks s)) s) p)
        else Continue p)
    with
    | Return q0 => Ok q0
    | Continue p2 =>
        bind (definerClause p2 t)
          (fun f => match f with
                    | Return q0 => Ok q0
                    | Continue p3 => stepMachine p3 t
                    end)
    end = Ok p).
  { rewrite Hd. cbn [String.eqb Ascii.eqb Bool.eqb andb orb].
    exact (Hstep p eq_refl eq_refl). }
  destruct r.
  - destruct (Token.kind_eqb (Token.type t) Token.whitespace).
    + eexists. split; [reflexivity|]. split; [reflexivity|].
      intros _. unfold plainParser, active. cbn. auto.
    + rewrite Hrest. eexists. split; [reflexivity|].
      split; [reflexivity|]. intros _. unfold plainParser, active. auto.
  - rewrite Hrest. eexists. split; [reflexivity|].
    split; [reflexivity|]. intros _. unfold plainParser, active. auto.
  - rewrite Hrest. eexists. split; [reflexivity|].
    split; [reflexivity|]. intros _. unfold plainParser, active. auto.
Qed.

(** The first token of a statement that is neither CREATE nor DROP is taken
    alike under every alternative, and leaves a plain parser. *)
Lemma first_token_plain (r : Resolution) (token : Token) (strict : bool)
    (d : string) (sp : Parser) :
  opensObject token = false ->
  createStatementParserByToken token (mkOptions strict d) = Ok sp ->
  exists q, (forall r', addToken r' sp token = Ok q) /\ plainParser q.
Proof.
  unfold opensObject, createStatementParserByToken.
  destruct (Token.kind_eqb (Token.type token) Token.keyword) eqn:Ek.
  - apply kind_eqb_eq in Ek. cbn [andb]. intros Ho.
    apply orb_false_elim in Ho. destruct Ho as [Hc Hdr]. rewrite Hc, Hdr.
    repeat match goal with
           | |- context [String.eqb (toUpperCase (Token.value token)) ?k] =>
               destruct (String.eqb_spec (toUpperCase (Token.value token)) k) as [Ev|_];
               [ intros E; inversion E; subst sp; clear E;
                 eexists; split;
                 [ intros r';
                   unfold addToken, semicolonEnds, endHandling, optionalAndOpeners,
                     definerClause, stepMachine, isValidToken,
                     createSelectStatementParser, createInsertStatementParser,
                     createUpdateStatementParser, createDeleteStatementParser,
                     createTruncateStatementParser, stateMachineStatementParser;
                   cbn; rewrite Ek, Ev; cbn; destruct r'; cbn; rewrite ?Ev; cbn;
                   split_ifs; reflexivity
                 | unfold plainParser, active; cbn; repeat split; auto;
                   simpl; tauto ]
               | ]
           end.
    rewrite Ek. cbn. rewrite andb_false_r. discriminate.
  - intros _. cbn [opt_isStrict]. destruct (negb strict && _)%bool eqn:Eu; [|discriminate].
    apply andb_prop in Eu. destruct Eu as [_ Eu]. apply kind_eqb_eq in Eu.
    intros E; inversion E; subst sp; clear E.
    eexists; split.
    + intros r'.
      unfold addToken, semicolonEnds, endHandling, optionalAndOpeners,
        definerClause, stepMachine, isValidToken, createUnknownStatementParser,
        stateMachineStatementParser.
      cbn. rewrite Eu. cbn. destruct r'; cbn; reflexivity.
    + unfold plainParser, active; cbn; repeat split; auto; simpl; tauto.
Qed.

Lemma feed_sides (r r' : Resolution) (l l' : Loop) (ts : State) (t : Token)
    (sp sp' : Parser) :
  body l = body l' -> tokens l = tokens l' ->
  forgetPrev sp = forgetPrev sp' -> plainParser sp -> plainParser sp' ->
  exists a b, feed r l ts t sp = Ok a /\ feed r' l' ts t sp' = Ok b /\
              sidesAgree a b.
Proof.
  intros Hb Ht Hf Hp Hp'.
  destruct (addToken_plain r sp t Hp) as (q & E & F & P).
  destruct (addToken_plain r' sp' t Hp') as (q' & E' & F' & P').
  assert (Hq : forgetPrev q = forgetPrev q').
  { rewrite F, F'.
    change (forgetPrev (Parser.upd (Statement.set_endStatement ";") sp))
      with (Parser.upd (Statement.set_endStatement ";") (forgetPrev sp)).
    change (forgetPrev (Parser.upd (Statement.set_endStatement ";") sp'))
      with (Parser.upd (Statement.set_endStatement ";") (forgetPrev sp')).
    rewrite Hf. reflexivity. }
  assert (Hs : Parser.statement q = Parser.statement q')
    by exact (f_equal Parser.statement Hq).
  unfold feed. rewrite E, E'. cbn [bind]. unfold getStatement. rewrite <- Hs, <- Hb, <- Ht.
  destruct (truthy (Statement.endStatement (Parser.statement q))) eqn:Ee.
  - eexists; eexists. split; [reflexivity|]. split; [reflexivity|].
    unfold sidesAgree. cbn. auto.
  - eexists; eexists. split; [reflexivity|]. split; [reflexivity|].
    assert (Hk : Token.kind_eqb (Token.type t) Token.semicolon = false).
    { destruct (Token.kind_eqb (Token.type t) Token.semicolon); [|reflexivity].
      apply (f_equal (fun x => truthy (Statement.endStatement (Parser.statement x)))) in F.
      cbn in F. congruence. }
    unfold sidesAgree. cbn.
    split; [reflexivity|]. split; [reflexivity|]. split; [reflexivity|].
    split; [exact Hq|]. split; [exact (P Hk) | exact (P' Hk)].
Qed.

Lemma parseStep_sides (scan : State -> Token * State) (r r' : Resolution)
    (strict : bool) (d : string) (l l' : Loop) :
  sidesAgree l l' ->
  opensObject (fst (scan (initState_prev (prevState l)))) = false ->
  match parseStep scan r strict d l, parseStep scan r' strict d l' with
  | Ok a, Ok b => sidesAgree a b
  | Err e, Err e' => e = e'
  | _, _ => False
  end.
Proof.
  intros (Hs & Hb & Ht & Hsp). unfold parseStep. rewrite <- Hs.
  destruct (scan _) as [t ts]. cbn [fst]. intros Ho.
  destruct (statementParser l) as [sp|], (statementParser l') as [sp'|];
    try contradiction.
  - destruct Hsp as (Hf & Hp & Hp').
    destruct (feed_sides r r' l l' ts t sp sp' Hb Ht Hf Hp Hp')
      as (a & b & -> & -> & H). exact H.
  - rewrite <- Hb, <- Ht. destruct (existsb _ _).
    + unfold sidesAgree. cbn. auto.
    + destruct (createStatementParserByToken t _) as [sp|e] eqn:Ec; cbn [bind];
        [|reflexivity].
      destruct (first_token_plain r t strict d sp Ho Ec) as (q & Hq & Hp).
      unfold feed. rewrite (Hq r), (Hq r'). cbn [bind].
      rewrite <- Hb, <- Ht.
      destruct (truthy _); unfold sidesAgree; cbn;
        [auto 10 | repeat (split; [reflexivity|]); split; exact Hp].
Qed.

Lemma parseLoop_sides (scan : State -> Token * State) (r r' : Resolution)
    (strict : bool) (d : string) (topEnd : Z) (fuel : nat) :
  forall l l' toks,
    sidesAgree l l' ->
    scanAll scan fuel topEnd (prevState l) = Some toks ->
    Forall (fun t => opensObject t = false) toks ->
    outcomesAgree (parseLoop scan r strict d fuel topEnd l)
                  (parseLoop scan r' strict d fuel topEnd l').
Proof.
  induction fuel as [|fuel IH]; intros l l' toks Hl; cbn.
  - rewrite <- (proj1 Hl). destruct (_ <? _); [intros; exact I|].
    intros _ _. exact Hl.
  - rewrite <- (proj1 Hl). destruct (_ <? _); [|intros _ _; exact Hl].
    destruct (scan (initState_prev (prevState l))) as [t ts] eqn:E.
    destruct (scanAll scan fuel topEnd ts) as [rest|] eqn:Er; [|discriminate].
    cbn. intros H Hc. inversion H; subst. inversion Hc; subst.
    pose proof (parseStep_sides scan r r' strict d l l' Hl) as Hstep.
    rewrite E in Hstep. specialize (Hstep ltac:(assumption)).
    destruct (parseStep scan r strict d l) as [l1|e] eqn:E1;
      destruct (parseStep scan r' strict d l') as [l1'|e']; try contradiction.
    + apply (IH l1 l1' rest Hstep); [|assumption].
      destruct (parseStep_token _ _ _ _ _ _ E1) as [-> _]. rewrite E. exact Er.
    + exact Hstep.
Qed.

(** X17. The unresolved merge in [addToken] matters for CREATE and DROP
    statements only: on an input whose tokens hold neither keyword, [parse]
    gives the same outcome, result or error, under any two of the three
    alternatives. *)
Theorem merge_matters_for_create_and_drop_only (scan : State -> Token * State)
    (r r' : Resolution) (strict : bool) (d : string) (fuel : nat)
    (input : string) (toks : list Token) :
  scanAll scan fuel (length_Z input - 1) (initState_input input) = Some toks ->
  Forall (fun t => opensObject t = false) toks ->
  parseFuel scan r strict d fuel input = parseFuel scan r' strict d fuel input.
Proof.
  intros H Hc. unfold parseFuel.
  change (State.end_ (initState_input input)) with (length_Z input - 1).
  pose proof (parseLoop_sides scan r r' strict d (length_Z input - 1) fuel
                (mkLoop (initState_input input) None [] [])
                (mkLoop (initState_input input) None [] []) toks) as G.
  specialize (G ltac:(unfold sidesAgree; cbn; auto) H Hc).
  unfold outcomesAgree in G.
  destruct (parseLoop scan r strict d fuel _ _) as [[l|e]|];
    destruct (parseLoop scan r' strict d fuel _ _) as [[l'|e']|];
    try contradiction; [|congruence|reflexivity].
  destruct G as (_ & Hb & Ht & Hsp). unfold finish, getStatement.
  cbn [State.input State.end_ initState_input].
  rewrite <- Hb, <- Ht.
  destruct (statementParser l) as [sp|], (statementParser l') as [sp'|];
    try contradiction; [|reflexivity].
  destruct Hsp as (Hf & _ & _).
  rewrite <- (f_equal Parser.statement Hf : Parser.statement sp = Parser.statement sp').
  reflexivity.
Qed.

Lemma merge_matters_for_create_and_drop_only_witness :
  parseFuel Scanner.scanToken StashedDepth true "generic"
    (String.length twoStatements) twoStatements
  = parseFuel Scanner.scanToken UpstreamLanguage true "generic"
      (String.length twoStatements) twoStatements.
Proof.
  refine (merge_matters_for_create_and_drop_only Scanner.scanToken StashedDepth
            UpstreamLanguage true "generic" (String.length twoStatements)
            twoStatements (ParseResult.tokens twoStatementsResult) _ _).
  - vm_compute. reflexivity.
  - vm_compute. repeat constructor.
Defined.

(** For DROP the alternatives differ: only [StashedDepth] passes over the
    blank before the object word. *)
Lemma merge_matters_for_drop :
  parseSummary true "generic" "DROP TABLE t;"
  = Some (Ok [(Some "DROP_TABLE", Some 0, Some 12, Some (ExecStr "MODIFICATION"),
               Some ";")]) /\
  parse Scanner.scanToken UpstreamLanguage true "generic" "DROP TABLE t;"
  = Some (Err (ExpectedTokens
                 [(Token.keyword, "TABLE"); (Token.keyword, "DATABASE")]
                 Token.whitespace " " 1)).
Proof. split; vm_compute; reflexivity. Qed.

(** X18. Under the [StashedDepth] alternative, outside MySQL, whitespace is
    transparent: a whitespace token fed at any point of a statement that has
    not ended leaves the statement as it is, and the tokens after it are
    handled as if it had not been there. *)
Theorem whitespace_is_transparent (p : Parser) (t : Token) (after : list Token) :
  In (Parser.steps p) knownSteps ->
  Parser.dialect p <> "mysql" ->
  Statement.definer (Parser.statement p) = DefUndefined ->
  active p ->
  Token.type t = Token.whitespace ->
  toUpperCase (Token.value t) <> "END" ->
  map_result getStatement (addTokens StashedDepth p (t :: after))
  = map_result getStatement (addTokens StashedDepth p after).
Proof.
  intros Hk Hd Hu Ha Ht Hv.
  assert (Hno : noDefiner p) by (repeat split; assumption).
  assert (E : addToken StashedDepth p t = Ok (Parser.set_prevToken t p)).
  { unfold active in Ha. unfold addToken, semicolonEnds, endHandling.
    rewrite Ha, Ht. apply String.eqb_neq in Hv. rewrite Hv.
    cbn [Token.kind_eqb]. rewrite !andb_false_r. reflexivity. }
  rewrite addTokens_cons, E. cbn [bind].
  assert (G : forall x, map_result getStatement x
                        = map_result getStatement (map_result forgetPrev x)).
  { intros [q|e]; reflexivity. }
  rewrite (G (addTokens StashedDepth (Parser.set_prevToken t p) after)),
    (G (addTokens StashedDepth p after)).
  f_equal.
  rewrite <- (addTokens_forgetPrev StashedDepth after (Parser.set_prevToken t p))
    by exact Hno.
  rewrite <- (addTokens_forgetPrev StashedDepth after p) by exact Hno.
  reflexivity.
Qed.

Lemma whitespace_is_transparent_witness :
  map_result getStatement
    (addTokens StashedDepth psqlAwaiting
       (Token.mk Token.whitespace "  " 7 8 :: [Token.mk Token.keyword "TABLE" 9 13]))
  = map_result getStatement
      (addTokens StashedDepth psqlAwaiting [Token.mk Token.keyword "TABLE" 9 13]).
Proof.
  refine (whitespace_is_transparent psqlAwaiting (Token.mk Token.whitespace "  " 7 8)
            [Token.mk Token.keyword "TABLE" 9 13] _ _ _ _ _ _).
  - simpl. tauto.
  - discriminate.
  - reflexivity.
  - reflexivity.
  - reflexivity.
  - discriminate.
Defined.
